(** * Texas Hold'em table core (poker_server.py): shallow embedding

    The table logic of [poker_server.py] is embedded as pure functions on an
    explicit table state.  Python integers are [Z]; the [players] dict is a
    list of player records in insertion order (seat order), keyed by the
    record's [id]; a Python exception (IndexError, KeyError,
    ZeroDivisionError) is the [None] of an [option] result. *)

From Stdlib Require Import ZArith String List Bool Lia.
From Stdlib Require Import Sorted.
Import ListNotations.
Local Open Scope Z_scope.

(** ** Small Python library *)

Definition bind {A B : Type} (m : option A) (k : A -> option B) : option B :=
  match m with
  | Some a => k a
  | None => None
  end.

Notation "x <- m ;; k" := (bind m (fun x => k))
  (at level 61, m at next level, right associativity).

(** [sorted(l, key=..., reverse=True)]: a stable sort; [above y x] says that
    the key of [y] is strictly greater than the key of [x]. *)
Fixpoint insert_by {A : Type} (above : A -> A -> bool) (x : A) (l : list A) : list A :=
  match l with
  | [] => [x]
  | y :: ys => if above y x then y :: insert_by above x ys else x :: l
  end.

Definition sort_by {A : Type} (above : A -> A -> bool) (l : list A) : list A :=
  fold_right (insert_by above) [] l.

Definition sorted_desc (l : list Z) : list Z := sort_by Z.gtb l.
Definition sorted_asc (l : list Z) : list Z := sort_by Z.ltb l.

(** [x in l] on a list of integers. *)
Definition mem (x : Z) (l : list Z) : bool := existsb (Z.eqb x) l.

(** [list(set(l))] followed by a sort: only the set of values matters. *)
Definition set_of (l : list Z) : list Z := nodup Z.eq_dec l.

(** [d[k] = d.get(k, 0) + 1] on a dict kept in insertion order. *)
Fixpoint dict_incr {K : Type} (eqb : K -> K -> bool) (k : K) (d : list (K * Z)) : list (K * Z) :=
  match d with
  | [] => [(k, 1)]
  | (k', v) :: d' =>
      if eqb k' k then (k', v + 1) :: d' else (k', v) :: dict_incr eqb k d'
  end.

(** [l[i]] for a Python list: negative indices count from the end. *)
Definition py_seat (n : nat) (i : Z) : option nat :=
  if (0 <=? i) && (i <? Z.of_nat n) then Some (Z.to_nat i)
  else if (i <? 0) && (- Z.of_nat n <=? i) then Some (Z.to_nat (Z.of_nat n + i))
  else None.

Definition py_index {A : Type} (l : list A) (i : Z) : option A :=
  s <- py_seat (length l) i ;; nth_error l s.

(** In-place mutation of the object stored at one position. *)
Fixpoint update_seat {A : Type} (i : nat) (f : A -> A) (l : list A) : list A :=
  match l, i with
  | [], _ => []
  | x :: xs, O => f x :: xs
  | x :: xs, S j => x :: update_seat j f xs
  end.

(** ** Cards *)

Inductive Suit := heart | diamond | club | spade.

Inductive Rank :=
  | r2 | r3 | r4 | r5 | r6 | r7 | r8 | r9 | r10 | jack | queen | king | ace.

Record Card := mkCard { suit : Suit; rank : Rank }.

Definition suit_eqb (a b : Suit) : bool :=
  match a, b with
  | heart, heart | diamond, diamond | club, club | spade, spade => true
  | _, _ => false
  end.

Definition get_value (c : Card) : Z :=
  match rank c with
  | r2 => 2 | r3 => 3 | r4 => 4 | r5 => 5 | r6 => 6 | r7 => 7 | r8 => 8
  | r9 => 9 | r10 => 10 | jack => 11 | queen => 12 | king => 13 | ace => 14
  end.

Definition all_suits : list Suit := [heart; diamond; club; spade].
Definition all_ranks : list Rank :=
  [r2; r3; r4; r5; r6; r7; r8; r9; r10; jack; queen; king; ace].

(** [create_deck] before the shuffle: suits outer, ranks inner. *)
Definition fresh_deck : list Card :=
  flat_map (fun s => map (fun r => mkCard s r) all_ranks) all_suits.

(** ** Hand evaluator *)

(** The scan [for i in range(len(u) - 4): if u[i] - u[i+4] == 4: ...]. *)
Fixpoint find_run (u : list Z) : option Z :=
  match u with
  | [] => None
  | a :: t =>
      match nth_error t 3 with
      | Some e => if a - e =? 4 then Some a else find_run t
      | None => None
      end
  end.

Definition has_wheel (l : list Z) : bool :=
  mem 14 l && mem 2 l && mem 3 l && mem 4 l && mem 5 l.

(** First suit, in insertion order, that holds five cards or more. *)
Fixpoint first_flush_suit (suits : list (Suit * Z)) : option Suit :=
  match suits with
  | [] => None
  | (s, count) :: rest => if 5 <=? count then Some s else first_flush_suit rest
  end.

Definition suit_is (fs : option Suit) (c : Card) : bool :=
  match fs with
  | Some s => suit_eqb (suit c) s
  | None => false
  end.

(** Key [(count, rank)] of [rank_counts], compared as Python tuples. *)
Definition count_rank_above (y x : Z * Z) : bool :=
  (snd y >? snd x) || ((snd y =? snd x) && (fst y >? fst x)).

Definition singles (rank_counts : list (Z * Z)) : list Z :=
  sorted_desc (map fst (filter (fun rc => snd rc =? 1) rank_counts)).

Fixpoint first_pair_rank (rcs : list (Z * Z)) : Z :=
  match rcs with
  | [] => 0
  | rc :: rest => if 2 <=? snd rc then fst rc else first_pair_rank rest
  end.

Definition HandStrength : Type := Z * list Z.

Definition evaluate_hand (player_cards community_cards : list Card) : option HandStrength :=
  let all_cards :=
    sort_by (fun y x => get_value y >? get_value x) (player_cards ++ community_cards) in
  let suits := fold_left (fun d c => dict_incr suit_eqb (suit c) d) all_cards [] in
  let ranks := fold_left (fun d c => dict_incr Z.eqb (get_value c) d) all_cards [] in
  let is_flush := existsb (fun sc => 5 <=? snd sc) suits in
  let unique_ranks := sorted_desc (set_of (map get_value all_cards)) in
  let regular := find_run unique_ranks in
  let is_straight0 := match regular with Some _ => true | None => false end in
  let straight_high0 := match regular with Some h => h | None => 0 end in
  let wheel := negb is_straight0 && has_wheel unique_ranks in
  let is_straight := is_straight0 || wheel in
  let straight_high := if wheel then 5 else straight_high0 in
  let rank_counts := sort_by count_rank_above ranks in
  if is_straight && is_flush then
    if forallb (fun r => mem r unique_ranks) [10; 11; 12; 13; 14]
       && is_flush && (straight_high =? 14)
    then Some (9, [14])
    else
      let flush_suit := first_flush_suit suits in
      let straight_flush_cards :=
        sorted_desc (map get_value (filter (suit_is flush_suit) all_cards)) in
      match find_run straight_flush_cards with
      | Some h => Some (8, [h])
      | None =>
          if has_wheel straight_flush_cards then Some (8, [5])
          else Some (0, [0])
      end
  else
    rc0 <- nth_error rank_counts 0 ;;
    if snd rc0 =? 4 then
      rc1 <- nth_error rank_counts 1 ;;
      Some (7, [fst rc0; fst rc1])
    else
      full <- (if snd rc0 =? 3
               then rc1 <- nth_error rank_counts 1 ;; Some (2 <=? snd rc1)
               else Some false) ;;
      if full : bool then
        Some (6, [fst rc0; first_pair_rank (tl rank_counts)])
      else if is_flush then
        let flush_suit := first_flush_suit suits in
        Some (5, firstn 5 (sorted_desc (map get_value (filter (suit_is flush_suit) all_cards))))
      else if is_straight then
        Some (4, [straight_high])
      else if snd rc0 =? 3 then
        Some (3, fst rc0 :: firstn 2 (singles rank_counts))
      else
        two <- (if snd rc0 =? 2
                then rc1 <- nth_error rank_counts 1 ;; Some (snd rc1 =? 2)
                else Some false) ;;
        if two : bool then
          rc1 <- nth_error rank_counts 1 ;;
          Some (2, sorted_desc [fst rc0; fst rc1] ++ firstn 1 (singles rank_counts))
        else if snd rc0 =? 2 then
          Some (1, fst rc0 :: firstn 3 (singles rank_counts))
        else
          Some (0, firstn 5 (sorted_desc (map get_value all_cards))).

(** ** Players *)

Module Player.

Record t := mk {
  id : string;
  name : string;
  chips : Z;
  cards : list Card;
  current_bet : Z;
  total_bet : Z;
  is_folded : bool;
  is_all_in : bool;
  has_acted_this_round : bool
}.

Definition can_act (p : t) : bool :=
  negb (is_folded p) && negb (is_all_in p) && (chips p >? 0).

Definition set_chips (v : Z) (p : t) : t :=
  mk (id p) (name p) v (cards p) (current_bet p) (total_bet p)
     (is_folded p) (is_all_in p) (has_acted_this_round p).
Definition set_cards (v : list Card) (p : t) : t :=
  mk (id p) (name p) (chips p) v (current_bet p) (total_bet p)
     (is_folded p) (is_all_in p) (has_acted_this_round p).
Definition set_current_bet (v : Z) (p : t) : t :=
  mk (id p) (name p) (chips p) (cards p) v (total_bet p)
     (is_folded p) (is_all_in p) (has_acted_this_round p).
Definition set_total_bet (v : Z) (p : t) : t :=
  mk (id p) (name p) (chips p) (cards p) (current_bet p) v
     (is_folded p) (is_all_in p) (has_acted_this_round p).
Definition set_is_folded (v : bool) (p : t) : t :=
  mk (id p) (name p) (chips p) (cards p) (current_bet p) (total_bet p)
     v (is_all_in p) (has_acted_this_round p).
Definition set_is_all_in (v : bool) (p : t) : t :=
  mk (id p) (name p) (chips p) (cards p) (current_bet p) (total_bet p)
     (is_folded p) v (has_acted_this_round p).
Definition set_has_acted_this_round (v : bool) (p : t) : t :=
  mk (id p) (name p) (chips p) (cards p) (current_bet p) (total_bet p)
     (is_folded p) (is_all_in p) v.

(** The three assignments that move [amt] chips from the stack into the
    bets: [chips -= amt; current_bet += amt; total_bet += amt]. *)
Definition put_in (amt : Z) (p : t) : t :=
  set_total_bet (total_bet p + amt)
    (set_current_bet (current_bet p + amt)
      (set_chips (chips p - amt) p)).

End Player.

Inductive GameState :=
  | WAITING | DEALING | PRE_FLOP | FLOP | TURN | RIVER | SHOWDOWN | GAME_OVER.

(** [ActionType] values, as the strings that arrive in messages. *)
Definition FOLD : string := "fold".
Definition CHECK : string := "check".
Definition CALL : string := "call".
Definition RAISE : string := "raise".
Definition ALL_IN : string := "all_in".

(** ** The table *)

Module PokerGame.

Record t := mk {
  players : list Player.t;
  community_cards : list Card;
  deck : list Card;
  pot : Z;
  current_bet : Z;
  dealer_position : Z;
  current_player_index : Z;
  game_state : GameState;
  small_blind : Z;
  big_blind : Z;
  action_history : list (string * string * Z);
  last_raiser : option string
}.

Definition init : t :=
  mk [] [] [] 0 0 (-1) (-1) WAITING 10 20 [] None.

Definition set_players (v : list Player.t) (g : t) : t :=
  mk v (community_cards g) (deck g) (pot g) (current_bet g) (dealer_position g)
     (current_player_index g) (game_state g) (small_blind g) (big_blind g)
     (action_history g) (last_raiser g).
Definition set_community_cards (v : list Card) (g : t) : t :=
  mk (players g) v (deck g) (pot g) (current_bet g) (dealer_position g)
     (current_player_index g) (game_state g) (small_blind g) (big_blind g)
     (action_history g) (last_raiser g).
Definition set_deck (v : list Card) (g : t) : t :=
  mk (players g) (community_cards g) v (pot g) (current_bet g) (dealer_position g)
     (current_player_index g) (game_state g) (small_blind g) (big_blind g)
     (action_history g) (last_raiser g).
Definition set_pot (v : Z) (g : t) : t :=
  mk (players g) (community_cards g) (deck g) v (current_bet g) (dealer_position g)
     (current_player_index g) (game_state g) (small_blind g) (big_blind g)
     (action_history g) (last_raiser g).
Definition set_current_bet (v : Z) (g : t) : t :=
  mk (players g) (community_cards g) (deck g) (pot g) v (dealer_position g)
     (current_player_index g) (game_state g) (small_blind g) (big_blind g)
     (action_history g) (last_raiser g).
Definition set_dealer_position (v : Z) (g : t) : t :=
  mk (players g) (community_cards g) (deck g) (pot g) (current_bet g) v
     (current_player_index g) (game_state g) (small_blind g) (big_blind g)
     (action_history g) (last_raiser g).
Definition set_current_player_index (v : Z) (g : t) : t :=
  mk (players g) (community_cards g) (deck g) (pot g) (current_bet g) (dealer_position g)
     v (game_state g) (small_blind g) (big_blind g)
     (action_history g) (last_raiser g).
Definition set_game_state (v : GameState) (g : t) : t :=
  mk (players g) (community_cards g) (deck g) (pot g) (current_bet g) (dealer_position g)
     (current_player_index g) v (small_blind g) (big_blind g)
     (action_history g) (last_raiser g).
Definition set_action_history (v : list (string * string * Z)) (g : t) : t :=
  mk (players g) (community_cards g) (deck g) (pot g) (current_bet g) (dealer_position g)
     (current_player_index g) (game_state g) (small_blind g) (big_blind g)
     v (last_raiser g).
Definition set_last_raiser (v : option string) (g : t) : t :=
  mk (players g) (community_cards g) (deck g) (pot g) (current_bet g) (dealer_position g)
     (current_player_index g) (game_state g) (small_blind g) (big_blind g)
     (action_history g) v.

(** Position of key [pid] in the dict, if present. *)
Fixpoint seat_of (pid : string) (ps : list Player.t) : option nat :=
  match ps with
  | [] => None
  | p :: rest =>
      if String.eqb (Player.id p) pid then Some O
      else option_map S (seat_of pid rest)
  end.

Definition players_ids (g : t) : list string := map Player.id (players g).

Definition num_players (g : t) : Z := Z.of_nat (length (players g)).

(** [add_player]: a new seat with 1000 chips while fewer than six are
    taken; assigning to a key already present replaces that entry. *)
Definition add_player (g : t) (player_id name : string) : t * bool :=
  if num_players g <? 6 then
    let fresh := Player.mk player_id name 1000 [] 0 0 false false false in
    match seat_of player_id (players g) with
    | Some s => (set_players (update_seat s (fun _ => fresh) (players g)) g, true)
    | None => (set_players (players g ++ [fresh]) g, true)
    end
  else (g, false).

(** [post_blinds].  [sb_player] and [bb_player] are references to seats:
    the big blind is computed on the table as the small blind left it. *)
Definition post_blinds (g : t) : option t :=
  let n := length (players g) in
  if num_players g =? 0 then None else
  let sb_pos_index := (dealer_position g + 1) mod num_players g in
  let bb_pos_index := (dealer_position g + 2) mod num_players g in
  sb_seat <- (if num_players g =? 2 then py_seat n (dealer_position g)
              else Some (Z.to_nat sb_pos_index)) ;;
  let bb_seat :=
    if num_players g =? 2 then Z.to_nat ((dealer_position g + 1) mod num_players g)
    else Z.to_nat bb_pos_index in
  sb_player <- nth_error (players g) sb_seat ;;
  let sb_amount := Z.min (small_blind g) (Player.chips sb_player) in
  let ps1 :=
    update_seat sb_seat
      (fun p => Player.set_has_acted_this_round true (Player.put_in sb_amount p))
      (players g) in
  let pot1 := pot g + sb_amount in
  bb_player <- nth_error ps1 bb_seat ;;
  let bb_amount := Z.min (big_blind g) (Player.chips bb_player) in
  let ps2 :=
    update_seat bb_seat
      (fun p => Player.set_has_acted_this_round true (Player.put_in bb_amount p))
      ps1 in
  let pot2 := pot1 + bb_amount in
  bb_after <- nth_error ps2 bb_seat ;;
  Some (set_last_raiser (Some (Player.id bb_after))
         (set_current_bet (Player.current_bet bb_after)
           (set_pot pot2 (set_players ps2 g)))).

Definition can_act_at (ps : list Player.t) (idx : Z) : bool :=
  match nth_error ps (Z.to_nat idx) with
  | Some p => Player.can_act p
  | None => false
  end.

Definition _get_player_index_after_dealer (g : t) (start_pos offset : Z) : Z :=
  let num := num_players g in
  if num =? 0 then -1 else
  let initial_index := (start_pos + offset) mod num in
  match find (can_act_at (players g))
             (map (fun i => (initial_index + Z.of_nat i) mod num)
                  (seq 0 (length (players g)))) with
  | Some current_index => current_index
  | None => -1
  end.

(** The loop that re-opens the action after a raise. *)
Definition reopen (actor : string) (g : t) : t :=
  set_players
    (map (fun p =>
            if Player.can_act p && negb (String.eqb (Player.id p) actor)
               && (Player.current_bet p <? current_bet g)
            then Player.set_has_acted_this_round false p else p)
         (players g)) g.

Definition all_in_if_broke (p : Player.t) : Player.t :=
  if Player.chips p =? 0 then Player.set_is_all_in true p else p.

(** The body of [process_action] once the player at [seat] is known to
    be able to act and to be the current player: from
    [player.has_acted_this_round = True] to the end. *)
Definition apply_action (g : t) (seat : nat) (player0 : Player.t)
  (player_id action : string) (amount : Z) : t * bool :=
  let player := Player.set_has_acted_this_round true player0 in
  let store (p : Player.t) (h : t) : t :=
    set_players (update_seat seat (fun _ => p) (players h)) h in
  let g := store player g in
  let log (amt : Z) (h : t) : t :=
    set_action_history (action_history h ++ [(player_id, action, amt)]) h in
  if String.eqb action FOLD then
    (log amount (store (Player.set_is_folded true player) g), true)
  else if String.eqb action CHECK then
    if current_bet g >? Player.current_bet player then (g, false)
    else (log amount g, true)
  else if String.eqb action CALL then
    let call_amount_needed := current_bet g - Player.current_bet player in
    if call_amount_needed <=? 0 then (g, false) else
    let amount_to_add := Z.min call_amount_needed (Player.chips player) in
    let player := all_in_if_broke (Player.put_in amount_to_add player) in
    (log amount (set_pot (pot g + amount_to_add) (store player g)), true)
  else if String.eqb action RAISE then
    if amount <=? current_bet g then (g, false) else
    let amount_to_add := amount - Player.current_bet player in
    let short := amount_to_add >? Player.chips player in
    let amount_to_add := if short then Player.chips player else amount_to_add in
    let amount := if short then Player.current_bet player + amount_to_add else amount in
    let player := if short then Player.set_is_all_in true player else player in
    let player := Player.put_in amount_to_add player in
    let g := set_last_raiser (Some (Player.id player))
               (set_current_bet (Player.current_bet player)
                 (set_pot (pot g + amount_to_add) g)) in
    let player := all_in_if_broke player in
    (log amount (reopen (Player.id player) (store player g)), true)
  else if String.eqb action ALL_IN then
    let all_in_amount := Player.chips player in
    let player :=
      Player.set_is_all_in true
        (Player.set_chips 0
          (Player.set_total_bet (Player.total_bet player + all_in_amount)
            (Player.set_current_bet (Player.current_bet player + all_in_amount) player))) in
    let g := set_pot (pot g + all_in_amount) (store player g) in
    let g :=
      if Player.current_bet player >? current_bet g then
        reopen (Player.id player)
          (set_last_raiser (Some (Player.id player))
            (set_current_bet (Player.current_bet player) g))
      else g in
    (log amount g, true)
  else (g, false).

(** [process_action]: the table after the call and the returned flag. *)
Definition process_action (g : t) (player_id action : string) (amount : Z)
  : option (t * bool) :=
  match seat_of player_id (players g) with
  | None => Some (g, false)
  | Some seat =>
    player0 <- nth_error (players g) seat ;;
    if negb (Player.can_act player0) then Some (g, false) else
    wrong_turn <-
      (if current_player_index g =? -1 then Some true
       else cur <- py_index (players_ids g) (current_player_index g) ;;
            Some (negb (String.eqb cur player_id))) ;;
    if wrong_turn : bool then Some (g, false)
    else Some (apply_action g seat player0 player_id action amount)
  end.

(** [list.pop()]: the last element. *)
Definition pop {A : Type} (l : list A) : option (A * list A) :=
  match rev l with
  | [] => None
  | x :: r => Some (x, rev r)
  end.

(** [if self.deck: self.community_cards.append(self.deck.pop())]. *)
Definition deal_community (g : t) : t :=
  match pop (deck g) with
  | Some (x, d) => set_deck d (set_community_cards (community_cards g ++ [x]) g)
  | None => g
  end.

(** [self.deck.pop()  # Burn card], an IndexError on an empty deck. *)
Definition burn (g : t) : option t :=
  xd <- pop (deck g) ;; Some (set_deck (snd xd) g).

Definition advance_to_next_street (g : t) : option t :=
  let swept := fold_left (fun acc p => acc + Player.current_bet p) (players g) (pot g) in
  let ps :=
    map (fun p => Player.set_has_acted_this_round false (Player.set_current_bet 0 p))
        (players g) in
  let g := set_last_raiser None (set_current_bet 0 (set_pot swept (set_players ps g))) in
  let g := set_current_player_index
             (_get_player_index_after_dealer g (dealer_position g) 1) g in
  let g :=
    if current_player_index g =? -1 then
      match find (can_act_at (players g))
                 (map Z.of_nat (seq 0 (length (players g)))) with
      | Some i => set_current_player_index i g
      | None => g
      end
    else g in
  match game_state g with
  | PRE_FLOP =>
      g <- burn g ;;
      Some (set_game_state FLOP (deal_community (deal_community (deal_community g))))
  | FLOP => g <- burn g ;; Some (set_game_state TURN (deal_community g))
  | TURN => g <- burn g ;; Some (set_game_state RIVER (deal_community g))
  | RIVER => Some (set_game_state SHOWDOWN g)
  | _ => Some g
  end.

(** Python's ordering of the [(category, tiebreak)] tuples. *)
Fixpoint list_ltb (a b : list Z) : bool :=
  match a, b with
  | [], [] => false
  | [], _ :: _ => true
  | _ :: _, [] => false
  | x :: a', y :: b' => (x <? y) || ((x =? y) && list_ltb a' b')
  end.

Fixpoint list_eqb (a b : list Z) : bool :=
  match a, b with
  | [], [] => true
  | x :: a', y :: b' => (x =? y) && list_eqb a' b'
  | _, _ => false
  end.

Definition strength_ltb (a b : HandStrength) : bool :=
  (fst a <? fst b) || ((fst a =? fst b) && list_ltb (snd a) (snd b)).

Definition strength_eqb (a b : HandStrength) : bool :=
  (fst a =? fst b) && list_eqb (snd a) (snd b).

(** [max(values)]: the first of the greatest elements. *)
Definition max_strength (l : list HandStrength) : option HandStrength :=
  match l with
  | [] => None
  | x :: r => Some (fold_left (fun best s => if strength_ltb best s then s else best) r x)
  end.

Fixpoint player_hands_of (ps : list Player.t) (community : list Card)
  : option (list (string * HandStrength)) :=
  match ps with
  | [] => Some []
  | p :: rest =>
      h <- evaluate_hand (Player.cards p) community ;;
      hs <- player_hands_of rest community ;;
      Some ((Player.id p, h) :: hs)
  end.

Record SidePot := mkSidePot { amount : Z; eligible_players : list string }.

(** The loop over [enumerate(all_bets)]; [prev] is [all_bets[i-1]], or 0
    at the first level. *)
Fixpoint side_pots_from (potential_winners : list Player.t) (prev : Z) (bets : list Z)
  : list SidePot :=
  match bets with
  | [] => []
  | bet_level :: more =>
      let eligible :=
        filter (fun p => Player.total_bet p >=? bet_level) potential_winners in
      match eligible with
      | [] => side_pots_from potential_winners bet_level more
      | _ :: _ =>
          let contribution_per_player := bet_level - prev in
          let pot_amount_for_level :=
            fold_left
              (fun acc p => acc + Z.min contribution_per_player (Player.total_bet p - prev))
              eligible 0 in
          mkSidePot pot_amount_for_level (map Player.id eligible)
            :: side_pots_from potential_winners bet_level more
      end
  end.

Definition side_pots (potential_winners : list Player.t) : list SidePot :=
  side_pots_from potential_winners 0
    (sorted_asc (set_of (map Player.total_bet potential_winners))).

Definition add_chips (winner_id : string) (winnings : Z) (ps : list Player.t)
  : list Player.t :=
  match seat_of winner_id ps with
  | Some s => update_seat s (fun p => Player.set_chips (Player.chips p + winnings) p) ps
  | None => ps
  end.

Definition str_in (x : string) (l : list string) : bool := existsb (String.eqb x) l.

(** Pays [share], plus one odd chip to each of the first [remainder]
    winners, and records the winners not yet listed. *)
Fixpoint pay_winners (share remainder : Z) (idx : Z) (winners : list string)
  (acc : list Player.t * list string) : list Player.t * list string :=
  match winners with
  | [] => acc
  | winner_id :: more =>
      let winnings := if idx <? remainder then share + 1 else share in
      let ps := add_chips winner_id winnings (fst acc) in
      let fw := if str_in winner_id (snd acc) then snd acc else snd acc ++ [winner_id] in
      pay_winners share remainder (idx + 1) more (ps, fw)
  end.

Definition distribute_pot (player_hands : list (string * HandStrength))
  (acc : list Player.t * list string) (pot_info : SidePot)
  : list Player.t * list string :=
  let eligible_player_hands :=
    filter (fun ph => str_in (fst ph) (eligible_players pot_info)) player_hands in
  match max_strength (map snd eligible_player_hands) with
  | None => acc
  | Some best_strength =>
      let current_pot_winners :=
        map fst (filter (fun ph => strength_eqb (snd ph) best_strength)
                        eligible_player_hands) in
      match current_pot_winners with
      | [] => acc
      | _ :: _ =>
          let k := Z.of_nat (length current_pot_winners) in
          pay_winners (amount pot_info / k) (amount pot_info mod k) 0
                      current_pot_winners acc
      end
  end.

(** [determine_winners]: the table afterwards and the list returned. *)
Definition determine_winners (g : t) : option (t * list string) :=
  let potential_winners := filter (fun p => negb (Player.is_folded p)) (players g) in
  match potential_winners with
  | [] => Some (g, [])
  | [w] =>
      Some (set_pot 0 (set_players (add_chips (Player.id w) (pot g) (players g)) g),
            [Player.id w])
  | _ =>
      player_hands <- player_hands_of potential_winners (community_cards g) ;;
      let paid :=
        fold_left (distribute_pot player_hands) (side_pots potential_winners)
                  (players g, []) in
      Some (set_pot 0 (set_players (fst paid) g), snd paid)
  end.

(** One pass of [for player_id in players_ids: if self.deck:
    player.cards.append(self.deck.pop())]. *)
Fixpoint deal_round (ps : list Player.t) (d : list Card) : list Player.t * list Card :=
  match ps with
  | [] => ([], d)
  | p :: rest =>
      match pop d with
      | Some (x, d') =>
          let r := deal_round rest d' in
          (Player.set_cards (Player.cards p ++ [x]) p :: fst r, snd r)
      | None =>
          let r := deal_round rest d in (p :: fst r, snd r)
      end
  end.

Definition has_chips_at (ps : list Player.t) (idx : Z) : bool :=
  match nth_error ps (Z.to_nat idx) with
  | Some p => Player.chips p >? 0
  | None => false
  end.

Definition reset_for_hand (p : Player.t) : Player.t :=
  Player.mk (Player.id p) (Player.name p) (Player.chips p) [] 0 0 false false false.

(** [start_new_hand]; [shuffled] is the deck that [create_deck] leaves
    after [random.shuffle]. *)
Definition start_new_hand (g : t) (shuffled : list Card) : option (t * bool) :=
  let active_players_in_game := filter (fun p => Player.chips p >? 0) (players g) in
  if (length active_players_in_game <? 2)%nat then
    Some (set_game_state WAITING g, false)
  else
    let g := set_last_raiser None
               (set_action_history []
                 (set_current_bet 0
                   (set_pot 0 (set_community_cards [] (set_deck shuffled g))))) in
    let num := num_players g in
    match find (has_chips_at (players g))
               (map (fun i => (dealer_position g + 1 + Z.of_nat i) mod num)
                    (seq 0 (length (players g)))) with
    | None => Some (g, false)
    | Some potential_dealer_index =>
        let g := set_dealer_position potential_dealer_index g in
        let ps0 := map reset_for_hand (players g) in
        let r1 := deal_round ps0 (deck g) in
        let r2 := deal_round (fst r1) (snd r1) in
        let g := set_deck (snd r2) (set_players (fst r2) g) in
        g <- post_blinds g ;;
        let g := set_game_state PRE_FLOP g in
        let first := _get_player_index_after_dealer g (dealer_position g) 3 in
        let first :=
          if first =? -1 then _get_player_index_after_dealer g (dealer_position g) 0
          else first in
        Some (set_current_player_index first g, true)
    end.

(** [del d[k]] on the dict kept as a list. *)
Fixpoint remove_key (pid : string) (ps : list Player.t) : list Player.t :=
match ps with
| [] => []
| p :: rest => if String.eqb (Player.id p) pid then rest else p :: remove_key pid rest
end.

Definition is_waiting (st : GameState) : bool :=
match st with
| WAITING => true
| _ => false
end.

(** [remove_player]. *)
Definition remove_player (g : t) (player_id : string) : t :=
match seat_of player_id (players g) with
| None => g
| Some _ =>
    let g := set_players (remove_key player_id (players g)) g in
    if (length (filter (fun p => Player.chips p >? 0) (players g)) <? 2)%nat
       && negb (is_waiting (game_state g))
    then set_game_state GAME_OVER g
    else g
end.

(** [get_game_state]: the dict sent to the client [player_id]. *)
Definition suit_name (s : Suit) : string :=
  match s with
  | heart => "heart" | diamond => "diamond" | club => "club" | spade => "spade"
  end.

Definition rank_name (r : Rank) : string :=
  match r with
  | r2 => "2" | r3 => "3" | r4 => "4" | r5 => "5" | r6 => "6" | r7 => "7" | r8 => "8"
  | r9 => "9" | r10 => "10" | jack => "jack" | queen => "queen" | king => "king"
  | ace => "ace"
  end.

Definition get_image_name (c : Card) : string :=
  (suit_name (suit c) ++ "_" ++ rank_name (rank c) ++ ".jpg")%string.

Record CardData := mkCardData { cd_suit : string; cd_rank : string; cd_image : string }.

Definition card_data (c : Card) : CardData :=
  mkCardData (suit_name (suit c)) (rank_name (rank c)) (get_image_name c).

Definition card_back : CardData := mkCardData "back" "back" "card_back.jpg".

Record PlayerData := mkPlayerData {
  pd_name : string;
  pd_chips : Z;
  pd_current_bet : Z;
  pd_total_bet : Z;
  pd_is_folded : bool;
  pd_is_all_in : bool;
  pd_cards : list CardData;
  pd_is_current_player : bool
}.

Record GameStateData := mkGameStateData {
  gs_game_state : GameState;
  gs_players : list (string * PlayerData);
  gs_community_cards : list CardData;
  gs_pot : Z;
  gs_current_bet : Z;
  gs_current_player_id : option string;
  gs_dealer_player_id : option string;
  gs_small_blind : Z;
  gs_big_blind : Z
}.

Definition is_showdown (st : GameState) : bool :=
  match st with
  | SHOWDOWN => true
  | _ => false
  end.

(** [player_id == pid] for an optional [player_id]. *)
Definition is_viewer (player_id : option string) (pid : string) : bool :=
  match player_id with
  | Some v => String.eqb v pid
  | None => false
  end.

(** [players_list[i] if i != -1 else None]. *)
Definition id_at (g : t) (i : Z) : option (option string) :=
  if i =? -1 then Some None
  else pid <- py_index (players_ids g) i ;; Some (Some pid).

Definition player_data (g : t) (player_id : option string) (p : Player.t)
  : option PlayerData :=
  let player_cards_data :=
    if is_viewer player_id (Player.id p) || is_showdown (game_state g)
    then map card_data (Player.cards p)
    else map (fun _ => card_back) (Player.cards p) in
  is_current <-
    (if current_player_index g =? -1 then Some false
     else cur <- py_index (players_ids g) (current_player_index g) ;;
          Some (String.eqb cur (Player.id p))) ;;
  Some (mkPlayerData (Player.name p) (Player.chips p) (Player.current_bet p)
          (Player.total_bet p) (Player.is_folded p) (Player.is_all_in p)
          player_cards_data is_current).

Fixpoint players_data_of (g : t) (player_id : option string) (ps : list Player.t)
  : option (list (string * PlayerData)) :=
  match ps with
  | [] => Some []
  | p :: rest =>
      d <- player_data g player_id p ;;
      ds <- players_data_of g player_id rest ;;
      Some ((Player.id p, d) :: ds)
  end.

Definition get_game_state (g : t) (player_id : option string) : option GameStateData :=
  players_data <- players_data_of g player_id (players g) ;;
  current_player_id <- id_at g (current_player_index g) ;;
  dealer_player_id <- id_at g (dealer_position g) ;;
  Some (mkGameStateData (game_state g) players_data
          (map card_data (community_cards g)) (pot g) (current_bet g)
          current_player_id dealer_player_id (small_blind g) (big_blind g)).


End PokerGame.

(** ** The coordinator's view of a betting round *)

Module PokerServer.

(** Python truth value of [last_raiser]: [None] and the empty string are
    false. *)
Definition truthy (lr : option string) : bool :=
  match lr with
  | Some s => negb (String.eqb s EmptyString)
  | None => false
  end.

Definition lags (g : PokerGame.t) (p : Player.t) : bool :=
  (Player.current_bet p <? PokerGame.current_bet g)
  || negb (Player.has_acted_this_round p).

Definition is_betting_round_complete (g : PokerGame.t) : option bool :=
  let active_players_in_round := filter Player.can_act (PokerGame.players g) in
  if (length active_players_in_round <=? 1)%nat then Some true else
  if existsb (fun p => negb (Player.is_all_in p) && lags g p) active_players_in_round
  then Some false else
  by_raiser <-
    (if truthy (PokerGame.last_raiser g) then
       match PokerGame.last_raiser g with
       | Some lr =>
           match PokerGame.seat_of lr (PokerGame.players g) with
           | None => None
           | Some _ =>
               Some (forallb
                       (fun p => String.eqb (Player.id p) lr
                                 || negb (negb (Player.is_all_in p) && lags g p))
                       active_players_in_round)
           end
       | None => Some false
       end
     else Some false) ;;
  if by_raiser : bool then Some true else
  if PokerGame.current_bet g =? 0 then
    if forallb Player.has_acted_this_round active_players_in_round then Some true
    else Some false
  else Some false.

Definition needs_to_act (g : PokerGame.t) (idx : Z) : bool :=
  match nth_error (PokerGame.players g) (Z.to_nat idx) with
  | Some p => Player.can_act p && lags g p
  | None => false
  end.

(** [advance_to_next_player]: steps the index seat by seat, at most once
    around the table, and stops at the first seat that still has to act. *)
Fixpoint step_turn (g : PokerGame.t) (rounds : nat) (idx : Z) : Z :=
  match rounds with
  | O => idx
  | S k =>
      let idx := (idx + 1) mod PokerGame.num_players g in
      if needs_to_act g idx then idx else step_turn g k idx
  end.

Definition advance_to_next_player (g : PokerGame.t) : PokerGame.t :=
  if PokerGame.num_players g =? 0 then PokerGame.set_current_player_index (-1) g
  else
    PokerGame.set_current_player_index
      (step_turn g (length (PokerGame.players g)) (PokerGame.current_player_index g)) g.

(** [self.game.players[pid]]: KeyError for an id that is not seated. *)
Definition player_of (g : PokerGame.t) (pid : string) : option Player.t :=
  s <- PokerGame.seat_of pid (PokerGame.players g) ;; nth_error (PokerGame.players g) s.

(** [[self.game.players[pid].name for pid in winners]]. *)
Fixpoint winner_names (g : PokerGame.t) (winners : list string) : option (list string) :=
  match winners with
  | [] => Some []
  | pid :: more =>
      p <- player_of g pid ;;
      names <- winner_names g more ;;
      Some (Player.name p :: names)
  end.

(** [handle_showdown]: the table it leaves.  The messages are not kept,
    but the lookups and the hand evaluation made to build them are, since
    they can raise after the pots have been paid. *)
Definition handle_showdown (g : PokerGame.t) : option PokerGame.t :=
  r <- PokerGame.determine_winners g ;;
  let g := fst r in
  let winners := snd r in
  match winners with
  | [] => Some g
  | first_winner_id :: _ =>
      winner_player <- player_of g first_winner_id ;;
      hand_strength_tuple <-
        evaluate_hand (Player.cards winner_player) (PokerGame.community_cards g) ;;
      names <- winner_names g winners ;;
      Some g
  end.

Definition is_betting_state (st : GameState) : bool :=
  match st with
  | PRE_FLOP | FLOP | TURN | RIVER => true
  | _ => false
  end.

(** The ['action'] branch of [process_client_message], without the
    replies it sends. *)
Definition process_client_message (g : PokerGame.t) (player_id action : string)
  (amount : Z) : option PokerGame.t :=
  if is_betting_state (PokerGame.game_state g) then
    current_player_id <-
      (if PokerGame.current_player_index g =? -1 then Some None
       else cur <- py_index (PokerGame.players_ids g) (PokerGame.current_player_index g) ;;
            Some (Some cur)) ;;
    match current_player_id with
    | Some cur =>
        if String.eqb player_id cur then
          r <- PokerGame.process_action g player_id action amount ;;
          let g := fst r in
          if snd r then
            complete <- is_betting_round_complete g ;;
            if complete : bool then
              g <- PokerGame.advance_to_next_street g ;;
              match PokerGame.game_state g with
              | SHOWDOWN => handle_showdown g
              | _ => Some g
              end
            else Some (advance_to_next_player g)
          else Some g
        else Some g
    | None => Some g
    end
  else Some g.

(** Messages handled one after the other. *)
Fixpoint play (g : PokerGame.t) (msgs : list (string * string * Z))
  : option PokerGame.t :=
  match msgs with
  | [] => Some g
  | (player_id, action, amount) :: more =>
      g <- process_client_message g player_id action amount ;; play g more
  end.

End PokerServer.

(** ** Quantities the properties speak about *)

Definition total (f : Player.t -> Z) (ps : list Player.t) : Z :=
  fold_right (fun p acc => f p + acc) 0 ps.

(** [sum chips + pot + sum current_bet]. *)
Definition chip_total (g : PokerGame.t) : Z :=
  total Player.chips (PokerGame.players g) + PokerGame.pot g
  + total Player.current_bet (PokerGame.players g).

(** Highest [current_bet] among the players that have not folded. *)
Definition max_live_bet (g : PokerGame.t) : Z :=
  fold_right Z.max 0
    (map Player.current_bet
         (filter (fun p => negb (Player.is_folded p)) (PokerGame.players g))).

(** A table with the given players seated through [add_player]. *)
Definition seat_all (names : list string) : PokerGame.t :=
  fold_left (fun g n => fst (PokerGame.add_player g n n)) names PokerGame.init.

Definition stacks (g : PokerGame.t) : list (string * Z) :=
  map (fun p => (Player.id p, Player.chips p)) (PokerGame.players g).

(** ** Cards and tables used in the statements *)

Definition card (s : Suit) (r : Rank) : Card := mkCard s r.

(** [True] when no two of the cards share a rank. *)
Fixpoint no_pair (l : list Card) : bool :=
  match l with
  | [] => true
  | x :: r => negb (mem (get_value x) (map get_value r)) && no_pair r
  end.

(** [True] when no suit holds five of the cards. *)
Definition no_flush (l : list Card) : bool :=
  forallb (fun s => (length (filter (fun x => suit_eqb (suit x) s) l) <? 5)%nat) all_suits.

Definition wheel_board (x y : Card) : list Card :=
  [card diamond r3; card club r4; card heart r5; x; y].

Definition wheel_hole : list Card := [card spade ace; card spade r2].

Definition wheel_check (x y : Card) : bool :=
  implb (no_pair (wheel_hole ++ wheel_board x y)
         && no_flush (wheel_hole ++ wheel_board x y)
         && negb (get_value x =? 6) && negb (get_value y =? 6))
        match evaluate_hand wheel_hole (wheel_board x y) with
        | Some h => PokerGame.strength_eqb h (4, [5])
        | None => false
        end.

(** With a six among the free cards: category 4 with one tiebreak value,
    six or more. *)
Definition wheel_six_check (x y : Card) : bool :=
  implb (no_pair (wheel_hole ++ wheel_board x y)
         && no_flush (wheel_hole ++ wheel_board x y)
         && ((get_value x =? 6) || (get_value y =? 6)))
        match evaluate_hand wheel_hole (wheel_board x y) with
        | Some (category, [high]) => (category =? 4) && (6 <=? high)
        | _ => false
        end.

(** What posting a blind of [blind] chips does to a player. *)
Definition posted (blind : Z) (p : Player.t) : Player.t :=
  Player.set_has_acted_this_round true (Player.put_in (Z.min blind (Player.chips p)) p).

(** The blind seats as the rules name them, for [n] seats and the dealer
    at seat [d]: heads-up the dealer is the small blind and the other
    player the big blind; otherwise the two seats after the dealer. *)
Definition sb_seat (n d : nat) : nat :=
  if (n =? 2)%nat then d else ((d + 1) mod n)%nat.

Definition bb_seat (n d : nat) : nat :=
  if (n =? 2)%nat then ((d + 1) mod n)%nat else ((d + 2) mod n)%nat.

(** The last raiser is a seated player, or nobody has raised and the table
    bet is zero: what the two shortcuts at the end of
    [is_betting_round_complete] rely on. *)
Definition raiser_known (g : PokerGame.t) : bool :=
  if PokerServer.truthy (PokerGame.last_raiser g) then
    match PokerGame.last_raiser g with
    | Some r =>
        match PokerGame.seat_of r (PokerGame.players g) with
        | Some _ => true
        | None => false
        end
    | None => false
    end
  else PokerGame.current_bet g =? 0.

(** Three players who have all put in 20 and acted; seat 2 posted the
    big blind. *)
Definition settled3 : PokerGame.t :=
  PokerGame.mk
    [Player.mk "a" "a" 980 [] 20 20 false false true;
     Player.mk "b" "b" 980 [] 20 20 false false true;
     Player.mk "c" "c" 980 [] 20 20 false false true]
    [] [] 60 20 0 1 PRE_FLOP 10 20 [("a"%string, CALL, 0); ("b"%string, CALL, 0)] (Some "c"%string).

(** A table between two hands where seat 2 is down to 5 chips. *)
Definition short_stack_table : PokerGame.t :=
  PokerGame.mk
    [Player.mk "a" "a" 1000 [] 0 0 false false false;
     Player.mk "b" "b" 1000 [] 0 0 false false false;
     Player.mk "c" "c" 5 [] 0 0 false false false]
    [] [] 0 0 (-1) (-1) WAITING 10 20 [] None.



(** The listed players call one after the other; between two calls the turn
    moves with [advance_to_next_player].  A refused call stops the run. *)
Fixpoint call_in_turn (g : PokerGame.t) (who : list string) : option PokerGame.t :=
  match who with
  | [] => Some g
  | pid :: more =>
      r <- PokerGame.process_action g pid CALL 0 ;;
      if snd r then
        match more with
        | [] => Some (fst r)
        | _ :: _ => call_in_turn (PokerServer.advance_to_next_player (fst r)) more
        end
      else None
  end.

(** The first hand of three players [a], [b], [c] with 1000 chips each:
    [a] deals, [b] and [c] post the blinds, [a] is first to act. *)
Definition hand3 : PokerGame.t :=
  Eval vm_compute in
    match PokerGame.start_new_hand (seat_all ["a"; "b"; "c"]%string) fresh_deck with
    | Some (h, _) => h
    | None => PokerGame.init
    end.

(** [hand3] after [a] has raised to 100. *)
Definition hand3_raised : PokerGame.t :=
  Eval vm_compute in
    match PokerGame.process_action hand3 "a" RAISE 100 with
    | Some (h, _) => h
    | None => PokerGame.init
    end.

(** A hand in which [a] raises to 100, both blinds call, [a] folds on the
    flop and the other two check to the river; the last check is left out. *)
Definition fold_hand_messages : list (string * string * Z) :=
  [("a", RAISE, 100); ("b", CALL, 0); ("c", CALL, 0);
   ("b", CHECK, 0); ("c", CHECK, 0); ("a", FOLD, 0);
   ("b", CHECK, 0); ("c", CHECK, 0); ("b", CHECK, 0)]%string.

(** The table of that hand when the showdown begins. *)
Definition showdown_with_fold : PokerGame.t :=
  Eval vm_compute in
    match PokerServer.play hand3 fold_hand_messages with
    | Some g9 =>
        match PokerGame.process_action g9 "c" CHECK 0 with
        | Some (g10, _) =>
            match PokerGame.advance_to_next_street g10 with
            | Some g11 => g11
            | None => PokerGame.init
            end
        | None => PokerGame.init
        end
    | None => PokerGame.init
    end.

(** The spec's side-pot scenario at showdown: [A] is all-in for 100 with
    the best hand, [B] and [C] have 300 in each and [B] beats [C]. *)
Definition side_pot_scenario : PokerGame.t :=
  PokerGame.mk
    [Player.mk "A" "A" 0 [card spade ace; card heart ace] 0 100 false true false;
     Player.mk "B" "B" 700 [card spade king; card heart king] 0 300 false false false;
     Player.mk "C" "C" 700 [card spade queen; card heart queen] 0 300 false false false]
    [card club r2; card diamond r7; card heart r9; card spade jack; card diamond r3]
    [] 700 0 0 (-1) SHOWDOWN 10 20 [] None.

(** Heads-up between two hands; [b] is down to 50 chips. *)
Definition short_heads_up : PokerGame.t :=
  PokerGame.mk
    [Player.mk "a" "a" 1000 [] 0 0 false false false;
     Player.mk "b" "b" 50 [] 0 0 false false false]
    [] [] 0 0 (-1) (-1) WAITING 10 20 [] None.

(** The street that follows [st] in [advance_to_next_street]. *)
Definition next_street (st : GameState) : GameState :=
  match st with
  | PRE_FLOP => FLOP
  | FLOP => TURN
  | TURN => RIVER
  | RIVER => SHOWDOWN
  | other => other
  end.

(** The number of community cards a street advance tries to deal. *)
Definition cards_to_deal (st : GameState) : nat :=
  match st with
  | PRE_FLOP => 3
  | FLOP | TURN => 1
  | _ => 0
  end.

(** A street on whose advance a card is burnt. *)
Definition burns_card (st : GameState) : bool :=
  match st with
  | PRE_FLOP | FLOP | TURN => true
  | _ => false
  end.

(** What the sweep of a street advance does to a player. *)
Definition swept_player (p : Player.t) : Player.t :=
  Player.set_has_acted_this_round false (Player.set_current_bet 0 p).

(** The card at position [i] of a dealing order, as a list of zero or one
    card. *)
Definition card_at (order : list Card) (i : nat) : list Card :=
  match nth_error order i with
  | Some x => [x]
  | None => []
  end.

(** Number of seated players that hold chips. *)
Definition funded (g : PokerGame.t) : nat :=
  length (filter (fun p => Player.chips p >? 0) (PokerGame.players g)).

(** The steps of [start_new_hand], named: the table with the per-hand
    fields cleared and the fresh deck in place, *)
Definition cleared_table (g : PokerGame.t) (shuffled : list Card) : PokerGame.t :=
  PokerGame.set_last_raiser None
    (PokerGame.set_action_history []
      (PokerGame.set_current_bet 0
        (PokerGame.set_pot 0
          (PokerGame.set_community_cards [] (PokerGame.set_deck shuffled g))))).

(** the table after the button has moved to seat [d], the players have
    been reset and the two rounds of hole cards dealt, *)
Definition dealt_table (g : PokerGame.t) (d : Z) : PokerGame.t :=
  let g := PokerGame.set_dealer_position d g in
  let ps0 := map PokerGame.reset_for_hand (PokerGame.players g) in
  let r1 := PokerGame.deal_round ps0 (PokerGame.deck g) in
  let r2 := PokerGame.deal_round (fst r1) (snd r1) in
  PokerGame.set_deck (snd r2) (PokerGame.set_players (fst r2) g).

(** and the blinds, the pre-flop state and the first player to act. *)
Definition open_betting (h : PokerGame.t) : option (PokerGame.t * bool) :=
  g <- PokerGame.post_blinds h ;;
  let g := PokerGame.set_game_state PRE_FLOP g in
  let first := PokerGame._get_player_index_after_dealer g (PokerGame.dealer_position g) 3 in
  let first :=
    if first =? -1
    then PokerGame._get_player_index_after_dealer g (PokerGame.dealer_position g) 0
    else first in
  Some (PokerGame.set_current_player_index first g, true).

(** [hand3] after [a] and [b] have called the big blind in turn. *)
Definition hand3_called : PokerGame.t :=
  Eval vm_compute in
    match call_in_turn hand3 ["a"; "b"]%string with
    | Some g => g
    | None => PokerGame.init
    end.

(** Three-handed: [a] and [b] call the big blind; on the flop [b] bets 100,
    [c] calls, and [b] leaves the table before [a] has answered. *)
Definition raiser_gone : PokerGame.t :=
  Eval vm_compute in
    match PokerServer.play hand3
            [("a", CALL, 0); ("b", CALL, 0); ("b", RAISE, 100); ("c", CALL, 0)]%string with
    | Some g => PokerGame.remove_player g "b"
    | None => PokerGame.init
    end.

(** ... and [a]'s call has been processed. *)
Definition raiser_gone_called : PokerGame.t :=
  Eval vm_compute in
    match PokerGame.process_action raiser_gone "a" CALL 0 with
    | Some (g, _) => g
    | None => PokerGame.init
    end.

(** ** The last-player check of [game_loop]

    The check that closes every iteration of [game_loop], without the
    broadcasts and the pause: [p] is still counted when it has not folded
    and holds chips. *)
Definition in_hand (p : Player.t) : bool :=
  negb (Player.is_folded p) && (Player.chips p >? 0).

Definition hand_running (st : GameState) : bool :=
  match st with
  | WAITING | GAME_OVER | SHOWDOWN => false
  | _ => true
  end.

(** The table that the check hands to [start_new_hand], when it fires. *)
Definition award_last_player (g : PokerGame.t) : option PokerGame.t :=
  let active_players_in_hand := filter in_hand (PokerGame.players g) in
  if hand_running (PokerGame.game_state g)
     && (length active_players_in_hand =? 1)%nat then
    match active_players_in_hand with
    | w :: _ =>
        let g := PokerGame.set_players
                   (PokerGame.add_chips (Player.id w) (PokerGame.pot g) (PokerGame.players g))
                   g in
        let g := PokerGame.set_game_state SHOWDOWN (PokerGame.set_pot 0 g) in
        Some (PokerGame.set_players
                (map (Player.set_has_acted_this_round false) (PokerGame.players g)) g)
    | [] => None
    end
  else None.

Definition last_player_check (g : PokerGame.t) (shuffled : list Card)
  : option PokerGame.t :=
  match award_last_player g with
  | Some g1 => r <- PokerGame.start_new_hand g1 shuffled ;; Some (fst r)
  | None => Some g
  end.

(** Heads-up, [b] with 50 chips in the big blind moves all-in before [a]
    has acted. *)
Definition short_all_in : PokerGame.t :=
  Eval vm_compute in
    match PokerGame.start_new_hand short_heads_up fresh_deck with
    | Some (h, _) =>
        match PokerGame.process_action h "b" ALL_IN 0 with
        | Some (g, _) => g
        | None => PokerGame.init
        end
    | None => PokerGame.init
    end.

(** [p'] is [p] with other hole cards, as many as [p] holds, unless [p] is
    the viewer. *)
Definition hidden_from (viewer : string) (p p' : Player.t) : Prop :=
  p' = Player.set_cards (Player.cards p') p
  /\ length (Player.cards p') = length (Player.cards p)
  /\ (Player.id p = viewer -> Player.cards p' = Player.cards p).

(** [hand3] with the hole cards of [b] and [c] exchanged for others. *)
Definition hand3_other_cards : PokerGame.t :=
  PokerGame.set_players
    (map (fun p => if String.eqb (Player.id p) "a" then p
                   else Player.set_cards [card club r2; card club r3] p)
         (PokerGame.players hand3))
    hand3.



(** * Properties *)

(** Runs the code on the left of [exists x, code = Some (x, _) /\ _] and
    continues with the table it returns. *)
Ltac run_to_exists :=
  match goal with
  | |- exists x, ?lhs = Some (x, _) /\ _ =>
      let v := eval vm_compute in lhs in
      match v with
      | Some (?h, _) => exists h; split; [vm_compute; reflexivity|]
      end
  end.

Ltac run_to_table :=
  match goal with
  | |- exists x, ?lhs = Some x /\ _ =>
      let v := eval vm_compute in lhs in
      match v with
      | Some ?h => exists h; split; [vm_compute; reflexivity|]
      end
  end.

(** ** Lists updated at one seat *)

Section UpdateSeat.
Context {A : Type}.
Implicit Types (l : list A) (f : A -> A).

Lemma length_update_seat i f l : length (update_seat i f l) = length l.
Proof.
  revert i; induction l as [|x xs IH]; intros [|j]; simpl; auto.
Qed.

Lemma nth_error_update_seat_eq i f l x :
  nth_error l i = Some x -> nth_error (update_seat i f l) i = Some (f x).
Proof.
  revert i; induction l as [|y ys IH]; intros [|j]; simpl; try discriminate.
  - now intros [= ->].
  - apply IH.
Qed.

Lemma nth_error_update_seat_ne i j f l :
  i <> j -> nth_error (update_seat i f l) j = nth_error l j.
Proof.
  revert i j; induction l as [|y ys IH]; intros [|i] [|j] H; simpl; auto;
    try contradiction; try (apply IH; congruence).
Qed.

Lemma update_seat_total (w : A -> Z) i f l x :
  nth_error l i = Some x ->
  fold_right (fun p acc => w p + acc) 0 (update_seat i f l)
  = fold_right (fun p acc => w p + acc) 0 l - w x + w (f x).
Proof.
  revert i; induction l as [|y ys IH]; intros [|j]; simpl; try discriminate.
  - intros [= ->]. lia.
  - intros H. rewrite (IH _ H). lia.
Qed.

Lemma filter_update_seat_length (P : A -> bool) i f l :
  (forall x, P (f x) = P x) ->
  length (filter P (update_seat i f l)) = length (filter P l).
Proof.
  intros HP. revert i; induction l as [|y ys IH]; intros [|j]; simpl; auto.
  - rewrite HP. destruct (P y); reflexivity.
  - destruct (P y); simpl; rewrite IH; reflexivity.
Qed.

Lemma update_seat_ext i f h l x :
  nth_error l i = Some x -> f x = h x -> update_seat i f l = update_seat i h l.
Proof.
  revert i; induction l as [|y ys IH]; intros [|j]; simpl; try discriminate.
  - intros [= ->] E. now rewrite E.
  - intros H E. f_equal. now apply IH.
Qed.

Lemma In_update_seat i f l x :
  nth_error l i = Some x -> In (f x) (update_seat i f l).
Proof.
  intros H. eapply nth_error_In. apply nth_error_update_seat_eq. exact H.
Qed.
End UpdateSeat.

Lemma seat_of_spec pid ps s :
  PokerGame.seat_of pid ps = Some s ->
  exists p, nth_error ps s = Some p /\ Player.id p = pid.
Proof.
  revert s; induction ps as [|q qs IH]; simpl; intros s; try discriminate.
  destruct (String.eqb (Player.id q) pid) eqn:E.
  - intros [= <-]. exists q. split; [reflexivity|]. now apply String.eqb_eq.
  - destruct (PokerGame.seat_of pid qs) as [s'|]; simpl; try discriminate.
    intros [= <-]. destruct (IH s' eq_refl) as (p & Hp & Hid). now exists p.
Qed.

Lemma list_eqb_eq a b : PokerGame.list_eqb a b = true -> a = b.
Proof.
  revert b; induction a as [|x a IH]; intros [|y b]; simpl; try discriminate; auto.
  intros H. apply andb_prop in H as [H1 H2].
  apply Z.eqb_eq in H1. subst. f_equal. auto.
Qed.

Lemma strength_eqb_eq (a b : HandStrength) : PokerGame.strength_eqb a b = true -> a = b.
Proof.
  destruct a as [ca ta], b as [cb tb]. unfold PokerGame.strength_eqb. simpl.
  intros H. apply andb_prop in H as [H1 H2].
  apply Z.eqb_eq in H1. apply list_eqb_eq in H2. now subst.
Qed.

(** ** Hand evaluator *)

Lemma In_fresh_deck (x : Card) : In x fresh_deck.
Proof.
  destruct x as [s r]. destruct s, r; vm_compute; tauto.
Qed.

Lemma wheel_check_all :
  forallb (fun x => forallb (wheel_check x) fresh_deck) fresh_deck = true.
Proof. vm_compute. reflexivity. Qed.

Lemma wheel_six_check_all :
  forallb (fun x => forallb (wheel_six_check x) fresh_deck) fresh_deck = true.
Proof. vm_compute. reflexivity. Qed.

(** The seven cards of the spec's first vector hold no triple: the
    evaluator does not report a full house for them. *)
Lemma C5_kings_and_threes_not_full_house :
  ~ exists tiebreak,
      evaluate_hand [card club r2; card diamond r7]
        [card heart r9; card spade king; card diamond king; card club r3; card diamond r3]
      = Some (6, tiebreak).
Proof.
  intros [tb H]. vm_compute in H. discriminate H.
Qed.

(** With a six among the two free cards the straight found is the
    regular one, six high, not the wheel. *)
Example wheel_with_a_six :
  evaluate_hand wheel_hole (wheel_board (card diamond r6) (card club r9)) = Some (4, [6]).
Proof. reflexivity. Qed.

(** C5 (amended).  [evaluate_hand] on 2c 7d 9h Ks Kd 3c 3d gives category 2
    (two pair, kings and threes, kicker nine); on 10h Jh Qh Kh Ah it gives
    category 9 with tiebreak [14]; on As 2s 3d 4c 5h X Y with no pair, no
    flush and neither X nor Y a six it gives category 4 with tiebreak [5].
    With a six among X, Y, still without pair or flush, it gives category 4
    with a single tiebreak value that is 6 or more, never [5]. *)
Theorem C5_evaluator_vectors :
  evaluate_hand [card club r2; card diamond r7]
    [card heart r9; card spade king; card diamond king; card club r3; card diamond r3]
  = Some (2, [13; 3; 9])
  /\ evaluate_hand [card heart r10; card heart jack]
       [card heart queen; card heart king; card heart ace]
     = Some (9, [14])
  /\ (forall x y : Card,
       no_pair (wheel_hole ++ wheel_board x y) = true ->
       no_flush (wheel_hole ++ wheel_board x y) = true ->
       get_value x <> 6 -> get_value y <> 6 ->
       evaluate_hand wheel_hole (wheel_board x y) = Some (4, [5]))
  /\ (forall x y : Card,
       no_pair (wheel_hole ++ wheel_board x y) = true ->
       no_flush (wheel_hole ++ wheel_board x y) = true ->
       get_value x = 6 \/ get_value y = 6 ->
       exists high,
         evaluate_hand wheel_hole (wheel_board x y) = Some (4, [high]) /\ 6 <= high).
Proof.
  split; [reflexivity|]. split; [reflexivity|]. split.
  - intros x y Hp Hf Hx Hy.
    pose proof wheel_check_all as H.
    rewrite forallb_forall in H. specialize (H x (In_fresh_deck x)).
    rewrite forallb_forall in H. specialize (H y (In_fresh_deck y)).
    unfold wheel_check in H. rewrite Hp, Hf in H.
    apply Z.eqb_neq in Hx, Hy. rewrite Hx, Hy in H. simpl in H.
    destruct (evaluate_hand wheel_hole (wheel_board x y)) as [h|]; [|discriminate].
    apply strength_eqb_eq in H. now subst.
  - intros x y Hp Hf Hsix.
    pose proof wheel_six_check_all as H.
    rewrite forallb_forall in H. specialize (H x (In_fresh_deck x)).
    rewrite forallb_forall in H. specialize (H y (In_fresh_deck y)).
    unfold wheel_six_check in H. rewrite Hp, Hf in H.
    assert (E : (get_value x =? 6) || (get_value y =? 6) = true)
      by (apply orb_true_iff; rewrite !Z.eqb_eq; exact Hsix).
    rewrite E in H. simpl in H.
    destruct (evaluate_hand wheel_hole (wheel_board x y)) as [[category tb]|];
      [|discriminate].
    destruct tb as [|high [|? ?]]; try discriminate.
    apply andb_true_iff in H as [Hc Hh].
    apply Z.eqb_eq in Hc. apply Z.leb_le in Hh. subst category.
    exists high. split; [reflexivity|exact Hh].
Qed.

Lemma C5_evaluator_vectors_witness :
  evaluate_hand wheel_hole (wheel_board (card diamond r8) (card club r9)) = Some (4, [5]).
Proof.
  apply (proj1 (proj2 (proj2 C5_evaluator_vectors)) (card diamond r8) (card club r9));
    [reflexivity | reflexivity | discriminate | discriminate].
Defined.

(** C8.  Five hearts 5 6 7 8 K with the nine of clubs: a flush and a
    straight 5-9 are both present, the hearts hold no straight, and the
    evaluator answers category 0 where the precedence gives the flush. *)
Theorem C8_flush_with_offsuit_straight :
  evaluate_hand [card heart r5; card heart r6]
    [card heart r7; card heart r8; card heart king; card club r9; card diamond r2]
  = Some (0, [0]).
Proof. reflexivity. Qed.

(** On the same branch, a ten-to-ace straight completed by an off-suit
    queen next to five hearts is reported as a royal flush. *)
Example offsuit_broadway_reported_royal :
  evaluate_hand [card heart r10; card heart jack]
    [card diamond queen; card heart king; card heart ace; card heart r2; card club r3]
  = Some (9, [14]).
Proof. reflexivity. Qed.

(** ** Blinds *)

Lemma succ_mod_neq (a n : nat) : (2 <= n)%nat -> ((a + 1) mod n <> a mod n)%nat.
Proof.
  intros Hn E.
  pose proof (Nat.div_mod_eq a n) as Ha.
  pose proof (Nat.div_mod_eq (a + 1) n) as Hb.
  rewrite E in Hb.
  destruct (Nat.le_gt_cases ((a + 1) / n) (a / n)) as [L|L];
    pose proof (Nat.mul_le_mono_l _ _ n L); lia.
Qed.

Lemma seat_mod (d k n : nat) :
  Z.to_nat ((Z.of_nat d + Z.of_nat k) mod Z.of_nat n) = ((d + k) mod n)%nat.
Proof.
  rewrite <- Nat2Z.inj_add, <- Nat2Z.inj_mod. apply Nat2Z.id.
Qed.

Lemma blind_seats_differ (n d : nat) :
  (2 <= n)%nat -> (d < n)%nat -> sb_seat n d <> bb_seat n d.
Proof.
  intros Hn Hd. unfold sb_seat, bb_seat.
  destruct (Nat.eqb_spec n 2) as [->|Hne].
  - intros E. apply (succ_mod_neq d 2 Hn). rewrite <- E. now rewrite Nat.mod_small.
  - intros E. apply (succ_mod_neq (d + 1) n Hn).
    rewrite <- Nat.add_assoc. simpl. now rewrite <- E.
Qed.

Section PostBlinds.
Variable g : PokerGame.t.
Variables n d : nat.
Hypothesis Hlen : length (PokerGame.players g) = n.
Hypothesis Hdealer : PokerGame.dealer_position g = Z.of_nat d.
Hypothesis Hd : (d < n)%nat.
Hypothesis Hn : (2 <= n)%nat.

Lemma post_blinds_at (sb bb : Player.t) :
  nth_error (PokerGame.players g) (sb_seat n d) = Some sb ->
  nth_error (PokerGame.players g) (bb_seat n d) = Some bb ->
  PokerGame.post_blinds g
  = Some (PokerGame.set_last_raiser (Some (Player.id bb))
           (PokerGame.set_current_bet (Player.current_bet (posted (PokerGame.big_blind g) bb))
             (PokerGame.set_pot
                (PokerGame.pot g + Z.min (PokerGame.small_blind g) (Player.chips sb)
                 + Z.min (PokerGame.big_blind g) (Player.chips bb))
                (PokerGame.set_players
                   (update_seat (bb_seat n d) (posted (PokerGame.big_blind g))
                      (update_seat (sb_seat n d) (posted (PokerGame.small_blind g))
                         (PokerGame.players g))) g)))).
Proof.
  intros Hsb Hbb.
  assert (Hnum : PokerGame.num_players g = Z.of_nat n)
    by (unfold PokerGame.num_players; now rewrite Hlen).
  assert (Hs : (if PokerGame.num_players g =? 2
                then py_seat (length (PokerGame.players g)) (PokerGame.dealer_position g)
                else Some (Z.to_nat ((PokerGame.dealer_position g + 1)
                                     mod PokerGame.num_players g)))
               = Some (sb_seat n d)).
  { rewrite Hnum, Hdealer, Hlen. unfold sb_seat.
    destruct (Nat.eqb_spec n 2) as [->|Hne].
    - simpl. unfold py_seat.
      destruct (Z.leb_spec 0 (Z.of_nat d)); [|lia].
      destruct (Z.ltb_spec (Z.of_nat d) (Z.of_nat 2)); [|lia].
      simpl. now rewrite Nat2Z.id.
    - destruct (Z.eqb_spec (Z.of_nat n) 2); [lia|].
      exact (f_equal Some (seat_mod d 1 n)). }
  assert (Hb : (if PokerGame.num_players g =? 2
                then Z.to_nat ((PokerGame.dealer_position g + 1) mod PokerGame.num_players g)
                else Z.to_nat ((PokerGame.dealer_position g + 2) mod PokerGame.num_players g))
               = bb_seat n d).
  { rewrite Hnum, Hdealer. unfold bb_seat.
    destruct (Nat.eqb_spec n 2) as [->|Hne].
    - simpl (Z.of_nat 2 =? 2). cbv iota. apply (seat_mod d 1 2).
    - destruct (Z.eqb_spec (Z.of_nat n) 2); [lia|]. apply (seat_mod d 2 n). }
  pose proof (blind_seats_differ n d Hn Hd) as Hne.
  unfold PokerGame.post_blinds. cbv zeta.
  destruct (Z.eqb_spec (PokerGame.num_players g) 0) as [E|_]; [lia|].
  rewrite Hs, Hb. simpl bind. rewrite Hsb. simpl bind.
  rewrite (nth_error_update_seat_ne _ _ _ _ Hne), Hbb. simpl bind.
  rewrite (nth_error_update_seat_eq (bb_seat n d) _ _ bb)
    by (now rewrite (nth_error_update_seat_ne _ _ _ _ Hne)).
  simpl bind.
  match goal with
  | |- context [update_seat (sb_seat n d) ?f (PokerGame.players g)] =>
      rewrite (update_seat_ext (sb_seat n d) f (posted (PokerGame.small_blind g))
                 _ sb Hsb eq_refl)
  end.
  match goal with
  | |- context [update_seat (bb_seat n d) ?f ?l] =>
      rewrite (update_seat_ext (bb_seat n d) f (posted (PokerGame.big_blind g)) l bb)
        by (rewrite ?(nth_error_update_seat_ne _ _ _ _ Hne); auto)
  end.
  reflexivity.
Qed.
End PostBlinds.

(** ** Round completion *)

Lemma existsb_false {A : Type} (f : A -> bool) (l : list A) :
  existsb f l = false -> forall x, In x l -> f x = false.
Proof.
  intros H x Hx. destruct (f x) eqn:E; [|reflexivity].
  assert (existsb f l = true) by (apply existsb_exists; eauto). congruence.
Qed.

Lemma can_act_not_all_in (p : Player.t) :
  Player.can_act p = true -> Player.is_all_in p = false.
Proof.
  unfold Player.can_act. destruct (Player.is_folded p), (Player.is_all_in p); simpl; congruence.
Qed.

Lemma lags_false (g : PokerGame.t) (p : Player.t) :
  PokerServer.lags g p = false <->
  PokerGame.current_bet g <= Player.current_bet p /\ Player.has_acted_this_round p = true.
Proof.
  unfold PokerServer.lags. rewrite orb_false_iff, Z.ltb_ge, negb_false_iff. tauto.
Qed.

(** The second and third tests of [is_betting_round_complete] never
    refuse a table that passed the first one. *)
Lemma round_complete_cases (g : PokerGame.t) :
  let active := filter Player.can_act (PokerGame.players g) in
  PokerServer.is_betting_round_complete g =
  if (length active <=? 1)%nat then Some true
  else if existsb (PokerServer.lags g) active then Some false
  else if PokerServer.truthy (PokerGame.last_raiser g) then
    match PokerGame.last_raiser g with
    | Some r =>
        match PokerGame.seat_of r (PokerGame.players g) with
        | Some _ => Some true
        | None => None
        end
    | None => Some false
    end
  else Some (PokerGame.current_bet g =? 0).
Proof.
  intros active. unfold PokerServer.is_betting_round_complete. fold active.
  destruct (length active <=? 1)%nat; [reflexivity|].
  assert (Hall : forall p, In p active -> Player.is_all_in p = false).
  { intros p Hp. apply filter_In in Hp as [_ Hp]. now apply can_act_not_all_in. }
  assert (Hex : existsb (fun p => negb (Player.is_all_in p) && PokerServer.lags g p) active
                = existsb (PokerServer.lags g) active).
  { clear -Hall. induction active as [|q qs IH]; [reflexivity|]. simpl.
    rewrite (Hall q (or_introl eq_refl)). simpl. f_equal.
    apply IH. intros p Hp. apply Hall. now right. }
  rewrite Hex. destruct (existsb (PokerServer.lags g) active) eqn:El; [reflexivity|].
  pose proof (existsb_false _ _ El) as Hl.
  destruct (PokerServer.truthy (PokerGame.last_raiser g)) eqn:Et.
  - destruct (PokerGame.last_raiser g) as [r|]; [|discriminate].
    destruct (PokerGame.seat_of r (PokerGame.players g)); [|reflexivity].
    simpl.
    assert (Hf : forallb (fun p => String.eqb (Player.id p) r
                                   || negb (negb (Player.is_all_in p) && PokerServer.lags g p))
                         active = true).
    { apply forallb_forall. intros p Hp. rewrite (Hl p Hp), andb_false_r. apply orb_true_r. }
    now rewrite Hf.
  - simpl.
    assert (Hf : forallb Player.has_acted_this_round active = true).
    { apply forallb_forall. intros p Hp. now apply (lags_false g p), Hl. }
    rewrite Hf. now destruct (PokerGame.current_bet g =? 0).
Qed.

Lemma round_complete_when_settled (g : PokerGame.t) :
  raiser_known g = true ->
  (forall p, In p (filter Player.can_act (PokerGame.players g)) ->
             PokerGame.current_bet g <= Player.current_bet p
             /\ Player.has_acted_this_round p = true) ->
  PokerServer.is_betting_round_complete g = Some true.
Proof.
  intros Hr Hall. rewrite round_complete_cases. cbv zeta.
  destruct (length _ <=? 1)%nat; [reflexivity|].
  destruct (existsb _ _) eqn:El.
  - apply existsb_exists in El as (p & Hp & Hlag).
    apply Hall, lags_false in Hp. congruence.
  - unfold raiser_known in Hr.
    destruct (PokerServer.truthy _).
    + destruct (PokerGame.last_raiser g); [|discriminate].
      now destruct (PokerGame.seat_of _ _).
    + now rewrite Hr.
Qed.

Lemma round_incomplete_when_lagging (g : PokerGame.t) (p : Player.t) :
  (1 < length (filter Player.can_act (PokerGame.players g)))%nat ->
  In p (filter Player.can_act (PokerGame.players g)) ->
  PokerServer.lags g p = true ->
  PokerServer.is_betting_round_complete g = Some false.
Proof.
  intros Hlen Hp Hlag. rewrite round_complete_cases. cbv zeta.
  destruct (Nat.leb_spec (length (filter Player.can_act (PokerGame.players g))) 1); [lia|].
  assert (E : existsb (PokerServer.lags g)
                (filter Player.can_act (PokerGame.players g)) = true)
    by (apply existsb_exists; eauto).
  now rewrite E.
Qed.

(** Where the lookup of the last raiser succeeds.
    [is_betting_round_complete] returns true when at most one player can
    act.  Otherwise, when the last raiser is a seated player or nobody
    raised and the table bet is zero, it returns true exactly when every
    player that can act has a [current_bet] not below the table's and has
    acted.  With three such players, all matched and all having acted, it
    returns true, and clearing the flag of any one of them makes it return
    false. *)
Lemma round_complete_with_known_raiser (g : PokerGame.t) :
  let active := filter Player.can_act (PokerGame.players g) in
  ((length active <= 1)%nat -> PokerServer.is_betting_round_complete g = Some true)
  /\ ((1 < length active)%nat -> raiser_known g = true ->
      (PokerServer.is_betting_round_complete g = Some true <->
       forall p, In p active ->
                 PokerGame.current_bet g <= Player.current_bet p
                 /\ Player.has_acted_this_round p = true))
  /\ (length active = 3%nat -> raiser_known g = true ->
      (forall p, In p active ->
                 Player.current_bet p = PokerGame.current_bet g
                 /\ Player.has_acted_this_round p = true) ->
      PokerServer.is_betting_round_complete g = Some true
      /\ forall i p,
           nth_error (PokerGame.players g) i = Some p ->
           Player.can_act p = true ->
           PokerServer.is_betting_round_complete
             (PokerGame.set_players
                (update_seat i (Player.set_has_acted_this_round false) (PokerGame.players g)) g)
           = Some false).
Proof.
  intros active. split; [|split].
  - intros H. rewrite round_complete_cases. fold active.
    now destruct (Nat.leb_spec (length active) 1); [|lia].
  - intros Hlen Hr. split.
    + intros Hc p Hp.
      destruct (PokerServer.lags g p) eqn:El.
      * rewrite (round_incomplete_when_lagging g p Hlen Hp El) in Hc. discriminate.
      * now apply lags_false.
    + intros Hall. now apply round_complete_when_settled.
  - intros Hlen Hr Hall. split.
    + apply round_complete_when_settled; [exact Hr|].
      intros p Hp. destruct (Hall p Hp) as [-> ?]. split; [lia|assumption].
    + intros i p Hi Hcan.
      set (f := Player.set_has_acted_this_round false).
      apply (round_incomplete_when_lagging _ (f p)); simpl.
      * rewrite (filter_update_seat_length Player.can_act i f) by reflexivity.
        fold active. lia.
      * apply filter_In. split; [now apply In_update_seat|exact Hcan].
      * unfold PokerServer.lags. simpl. apply orb_true_r.
Qed.

Lemma round_complete_on_settled3 :
  PokerServer.is_betting_round_complete settled3 = Some true
  /\ PokerServer.is_betting_round_complete
       (PokerGame.set_players
          (update_seat 0 (Player.set_has_acted_this_round false) (PokerGame.players settled3))
          settled3)
     = Some false.
Proof.
  destruct (round_complete_with_known_raiser settled3) as (_ & _ & H3).
  destruct H3 as [Ht Hf]; [reflexivity | reflexivity | |].
  - intros p Hp. simpl in Hp.
    destruct Hp as [<-|[<-|[<-|[]]]]; split; reflexivity.
  - split; [exact Ht|]. exact (Hf 0%nat _ eq_refl eq_refl).
Defined.

(** The big blind is short: seat 2 posts 5, which becomes the table bet
    while the small blind has 10 in.  After seat 0 calls, two players can
    act, the round is reported complete, and the small blind's bet is not
    equal to the table bet. *)
Lemma short_big_blind_round_complete :
  exists h,
    PokerGame.start_new_hand short_stack_table fresh_deck = Some (h, true)
    /\ exists g,
        PokerGame.process_action h "a" CALL 0 = Some (g, true)
        /\ (1 < length (filter Player.can_act (PokerGame.players g)))%nat
        /\ PokerServer.is_betting_round_complete g = Some true
        /\ ~ (forall p, In p (filter Player.can_act (PokerGame.players g)) ->
                        Player.current_bet p = PokerGame.current_bet g
                        /\ Player.has_acted_this_round p = true).
Proof.
  run_to_exists. run_to_exists.
  split; [vm_compute; lia|]. split; [vm_compute; reflexivity|].
  intros H. vm_compute in H.
  destruct (H _ (or_intror (or_introl eq_refl))) as [E _].
  discriminate E.
Qed.

(** C2.  Two or more players can act, every one of them has a
    [current_bet] equal to the table bet and has acted: the case in which
    the round is complete.  [is_betting_round_complete] then gives no answer
    when [last_raiser] is an id that is no longer seated, because the lookup
    [self.game.players[self.game.last_raiser]] raises KeyError; and it
    answers false when [last_raiser] is None or the empty id while the table
    bet is not zero. *)
Theorem C2_round_complete_needs_seated_raiser (g : PokerGame.t) :
  let active := filter Player.can_act (PokerGame.players g) in
  (2 <= length active)%nat ->
  (forall p, In p active ->
             Player.current_bet p = PokerGame.current_bet g
             /\ Player.has_acted_this_round p = true) ->
  (forall lr, PokerGame.last_raiser g = Some lr -> lr <> EmptyString ->
              PokerGame.seat_of lr (PokerGame.players g) = None ->
              PokerServer.is_betting_round_complete g = None)
  /\ (PokerServer.truthy (PokerGame.last_raiser g) = false ->
      PokerGame.current_bet g <> 0 ->
      PokerServer.is_betting_round_complete g = Some false).
Proof.
  intros active Hlen Hall.
  assert (Hex : existsb (PokerServer.lags g) active = false).
  { destruct (existsb (PokerServer.lags g) active) eqn:E; [|reflexivity].
    apply existsb_exists in E as (p & Hp & Hlag).
    destruct (Hall p Hp) as [Hb Ha].
    assert (PokerServer.lags g p = false) by (apply lags_false; split; [lia|exact Ha]).
    congruence. }
  rewrite round_complete_cases. fold active.
  destruct (Nat.leb_spec (length active) 1) as [|_]; [lia|].
  rewrite Hex. split.
  - intros lr Hlr Hne Hseat. rewrite Hlr. simpl PokerServer.truthy.
    destruct (String.eqb_spec lr EmptyString) as [|_]; [contradiction|].
    simpl. now rewrite Hseat.
  - intros Ht Hb. rewrite Ht.
    now destruct (Z.eqb_spec (PokerGame.current_bet g) 0).
Qed.

Lemma C2_round_complete_needs_seated_raiser_witness :
  exists g0,
    PokerServer.play hand3
      [("a", CALL, 0); ("b", CALL, 0); ("b", RAISE, 100); ("c", CALL, 0)]%string = Some g0
    /\ PokerGame.process_action (PokerGame.remove_player g0 "b") "a" CALL 0
       = Some (raiser_gone_called, true)
    /\ PokerServer.is_betting_round_complete raiser_gone_called = None.
Proof.
  run_to_table. split; [vm_compute; reflexivity|].
  apply (proj1 (C2_round_complete_needs_seated_raiser raiser_gone_called
                  ltac:(vm_compute; lia)
                  ltac:(intros p [<-|[<-|[]]]; split; reflexivity))
               "b"%string);
    [reflexivity | discriminate | reflexivity].
Defined.

(** C9.  [post_blinds] with two players makes the dealer post the small
    blind and the other player the big blind; with three or more the seat
    after the dealer posts the small blind and the next seat the big blind.
    Afterwards the table [current_bet] is the big-blind player's
    [current_bet] and [last_raiser] is the big-blind player. *)
Theorem C9_post_blinds_seats (g : PokerGame.t) (n d : nat) (sb bb : Player.t) :
  length (PokerGame.players g) = n ->
  PokerGame.dealer_position g = Z.of_nat d ->
  (d < n)%nat -> (2 <= n)%nat ->
  nth_error (PokerGame.players g) (sb_seat n d) = Some sb ->
  nth_error (PokerGame.players g) (bb_seat n d) = Some bb ->
  (n = 2%nat -> sb_seat n d = d /\ bb_seat n d = ((d + 1) mod 2)%nat)
  /\ ((3 <= n)%nat -> sb_seat n d = ((d + 1) mod n)%nat
                      /\ bb_seat n d = ((d + 2) mod n)%nat)
  /\ exists g',
      PokerGame.post_blinds g = Some g'
      /\ nth_error (PokerGame.players g') (sb_seat n d)
         = Some (posted (PokerGame.small_blind g) sb)
      /\ nth_error (PokerGame.players g') (bb_seat n d)
         = Some (posted (PokerGame.big_blind g) bb)
      /\ (forall i, i <> sb_seat n d -> i <> bb_seat n d ->
                    nth_error (PokerGame.players g') i = nth_error (PokerGame.players g) i)
      /\ PokerGame.current_bet g' = Player.current_bet (posted (PokerGame.big_blind g) bb)
      /\ PokerGame.last_raiser g' = Some (Player.id bb).
Proof.
  intros Hlen Hdealer Hd Hn Hsb Hbb.
  pose proof (blind_seats_differ n d Hn Hd) as Hne.
  split; [|split].
  - intros ->. split; reflexivity.
  - intros H3. unfold sb_seat, bb_seat.
    destruct (Nat.eqb_spec n 2); [lia|]. split; reflexivity.
  - eexists. split; [apply (post_blinds_at g n d Hlen Hdealer Hd Hn sb bb Hsb Hbb)|].
    simpl. repeat split.
    + rewrite nth_error_update_seat_ne by congruence.
      now apply nth_error_update_seat_eq.
    + apply nth_error_update_seat_eq.
      now rewrite nth_error_update_seat_ne.
    + intros i Hi1 Hi2.
      rewrite nth_error_update_seat_ne by congruence.
      now rewrite nth_error_update_seat_ne by congruence.
Qed.

Lemma C9_post_blinds_seats_witness :
  exists g',
    PokerGame.post_blinds (PokerGame.set_dealer_position 0 (seat_all ["a"; "b"]%string))
    = Some g'
    /\ PokerGame.current_bet g' = 20
    /\ PokerGame.last_raiser g' = Some "b"%string.
Proof.
  destruct (C9_post_blinds_seats
              (PokerGame.set_dealer_position 0 (seat_all ["a"; "b"]%string)) 2%nat 0%nat
              (Player.mk "a" "a" 1000 [] 0 0 false false false)
              (Player.mk "b" "b" 1000 [] 0 0 false false false))
    as (_ & _ & g' & Hg & _ & _ & _ & Hbet & Hr);
    [reflexivity | reflexivity | lia | lia | reflexivity | reflexivity |].
  exists g'. split; [exact Hg|]. split; [exact Hbet | exact Hr].
Defined.

(** ** Player actions *)

Lemma process_action_inv (g g' : PokerGame.t) (pid action : string) (amount : Z) (b : bool) :
  PokerGame.process_action g pid action amount = Some (g', b) ->
  (g' = g /\ b = false)
  \/ exists seat p0,
       nth_error (PokerGame.players g) seat = Some p0
       /\ Player.id p0 = pid
       /\ Player.can_act p0 = true
       /\ PokerGame.apply_action g seat p0 pid action amount = (g', b).
Proof.
  unfold PokerGame.process_action.
  destruct (PokerGame.seat_of pid (PokerGame.players g)) as [seat|] eqn:Es.
  - destruct (seat_of_spec _ _ _ Es) as (p0 & Hp0 & Hid).
    rewrite Hp0. simpl bind.
    destruct (Player.can_act p0) eqn:Hc; simpl.
    + destruct (PokerGame.current_player_index g =? -1); simpl.
      * intros [= <- <-]. now left.
      * destruct (py_index _ _) as [cur|]; simpl; [|discriminate].
        destruct (String.eqb cur pid); simpl.
        -- intros [= H]. right. exists seat, p0. auto.
        -- intros [= <- <-]. now left.
    + intros [= <- <-]. now left.
  - intros [= <- <-]. now left.
Qed.

Lemma update_seat_twice {A : Type} (i : nat) (a b : A) (l : list A) :
  update_seat i (fun _ => b) (update_seat i (fun _ => a) l) = update_seat i (fun _ => b) l.
Proof.
  revert i; induction l as [|x xs IH]; intros [|j]; simpl; auto. now rewrite IH.
Qed.

Lemma total_update_seat (w : Player.t -> Z) (i : nat) (q p0 : Player.t) (l : list Player.t) :
  nth_error l i = Some p0 ->
  total w (update_seat i (fun _ => q) l) = total w l - w p0 + w q.
Proof. intros H. unfold total. now rewrite (update_seat_total w i _ l p0 H). Qed.

Lemma can_act_chips (p : Player.t) : Player.can_act p = true -> 0 < Player.chips p.
Proof.
  unfold Player.can_act. intros H. apply andb_prop in H as [_ H]. now apply Z.gtb_lt in H.
Qed.

Lemma all_in_if_broke_chips (p : Player.t) :
  Player.chips (PokerGame.all_in_if_broke p) = Player.chips p.
Proof. unfold PokerGame.all_in_if_broke. now destruct (Player.chips p =? 0). Qed.

Lemma all_in_if_broke_current_bet (p : Player.t) :
  Player.current_bet (PokerGame.all_in_if_broke p) = Player.current_bet p.
Proof. unfold PokerGame.all_in_if_broke. now destruct (Player.chips p =? 0). Qed.

Lemma all_in_if_broke_id (p : Player.t) :
  Player.id (PokerGame.all_in_if_broke p) = Player.id p.
Proof. unfold PokerGame.all_in_if_broke. now destruct (Player.chips p =? 0). Qed.

(** C1.  An accepted call moves chips from the stack into [current_bet]
    and adds the same chips to [pot] at once: the sum of the stacks, the pot
    and the uncollected bets grows by the amount called. *)
Theorem C1_call_raises_chip_total (g g' : PokerGame.t) (pid : string) (amount : Z) :
  PokerGame.process_action g pid CALL amount = Some (g', true) ->
  exists added, 0 < added /\ chip_total g' = chip_total g + added.
Proof.
  intros H. apply process_action_inv in H as [[_ H]|(seat & p0 & Hp0 & Hid & Hcan & H)];
    [discriminate|].
  unfold PokerGame.apply_action in H.
  change (String.eqb CALL FOLD) with false in H.
  change (String.eqb CALL CHECK) with false in H.
  change (String.eqb CALL CALL) with true in H.
  cbv beta iota zeta in H. simpl in H.
  destruct (PokerGame.current_bet g - Player.current_bet p0 <=? 0) eqn:En;
    [discriminate|].
  apply Z.leb_gt in En. apply can_act_chips in Hcan.
  injection H as <-.
  exists (Z.min (PokerGame.current_bet g - Player.current_bet p0) (Player.chips p0)).
  split; [lia|].
  unfold chip_total. simpl.
  rewrite update_seat_twice.
  rewrite !(total_update_seat _ seat _ p0 _ Hp0).
  rewrite all_in_if_broke_chips, all_in_if_broke_current_bet. simpl. lia.
Qed.

Lemma reopen_other (actor : string) (h : PokerGame.t) (i : nat) (q : Player.t) :
  nth_error (PokerGame.players h) i = Some q ->
  Player.id q <> actor ->
  exists q',
    nth_error (PokerGame.players (PokerGame.reopen actor h)) i = Some q'
    /\ (q' = q \/ q' = Player.set_has_acted_this_round false q)
    /\ (Player.can_act q = true -> Player.current_bet q < PokerGame.current_bet h ->
        Player.has_acted_this_round q' = false)
    /\ (PokerGame.current_bet h <= Player.current_bet q -> q' = q)
    /\ (Player.can_act q = false -> q' = q).
Proof.
  intros Hq Hid. unfold PokerGame.reopen. simpl.
  rewrite nth_error_map, Hq. simpl.
  apply String.eqb_neq in Hid. rewrite Hid. simpl. rewrite andb_true_r.
  destruct (Player.can_act q) eqn:Hc; simpl.
  - destruct (Z.ltb_spec (Player.current_bet q) (PokerGame.current_bet h)).
    + eexists. split; [reflexivity|]. repeat split; auto; try lia; discriminate.
    + eexists. split; [reflexivity|]. repeat split; auto; lia.
  - eexists. split; [reflexivity|]. repeat split; auto; discriminate.
Qed.

(** C6.  After an accepted raise, or an accepted all_in that lifts the
    table bet, every other player that can act and whose [current_bet] is
    below the new table bet has [has_acted_this_round] cleared, whatever it
    was; a player whose [current_bet] is not below the new table bet, or who
    cannot act, is left as they were. *)
Theorem C6_raise_reopens_action (g g' : PokerGame.t) (pid action : string) (amount : Z)
  (i : nat) (q : Player.t) :
  PokerGame.process_action g pid action amount = Some (g', true) ->
  action = RAISE
  \/ (action = ALL_IN /\ PokerGame.current_bet g < PokerGame.current_bet g') ->
  nth_error (PokerGame.players g) i = Some q ->
  Player.id q <> pid ->
  exists q',
    nth_error (PokerGame.players g') i = Some q'
    /\ (q' = q \/ q' = Player.set_has_acted_this_round false q)
    /\ (Player.can_act q = true -> Player.current_bet q < PokerGame.current_bet g' ->
        Player.has_acted_this_round q' = false)
    /\ (PokerGame.current_bet g' <= Player.current_bet q -> q' = q)
    /\ (Player.can_act q = false -> q' = q).
Proof.
  intros H Hact Hq Hid.
  apply process_action_inv in H as [[_ H]|(seat & p0 & Hp0 & Hid0 & Hcan & H)];
    [discriminate|].
  assert (Hseat : seat <> i) by (intros ->; congruence).
  unfold PokerGame.apply_action in H.
  destruct Hact as [->|[-> Hup]].
  - change (String.eqb RAISE FOLD) with false in H.
    change (String.eqb RAISE CHECK) with false in H.
    change (String.eqb RAISE CALL) with false in H.
    change (String.eqb RAISE RAISE) with true in H.
    cbv beta iota zeta in H.
    destruct (amount <=? _) in H; [discriminate|].
    injection H as <-.
    match goal with
    | |- context [PokerGame.reopen ?a ?h] =>
        destruct (reopen_other a h i q) as (q' & Hq' & Hrest)
    end.
    + simpl. now rewrite !nth_error_update_seat_ne.
    + rewrite all_in_if_broke_id. simpl. destruct (_ >? _); simpl; congruence.
    + exists q'. split; [exact Hq'|]. exact Hrest.
  - change (String.eqb ALL_IN FOLD) with false in H.
    change (String.eqb ALL_IN CHECK) with false in H.
    change (String.eqb ALL_IN CALL) with false in H.
    change (String.eqb ALL_IN RAISE) with false in H.
    change (String.eqb ALL_IN ALL_IN) with true in H.
    cbv beta iota zeta in H.
    destruct (_ >? _) eqn:Egt in H.
    + injection H as <-.
      match goal with
      | |- context [PokerGame.reopen ?a ?h] =>
          destruct (reopen_other a h i q) as (q' & Hq' & Hrest)
      end.
      * simpl. now rewrite !nth_error_update_seat_ne.
      * simpl. congruence.
      * exists q'. split; [exact Hq'|]. exact Hrest.
    + injection H as <-. simpl in Hup. lia.
Qed.

Lemma hand3_started :
  PokerGame.start_new_hand (seat_all ["a"; "b"; "c"]%string) fresh_deck = Some (hand3, true).
Proof. vm_compute. reflexivity. Qed.

Lemma hand3_raised_by_a :
  PokerGame.process_action hand3 "a" RAISE 100 = Some (hand3_raised, true).
Proof. vm_compute. reflexivity. Qed.

Lemma C6_raise_reopens_action_witness :
  exists q',
    nth_error (PokerGame.players hand3_raised) 1 = Some q'
    /\ Player.has_acted_this_round q' = false.
Proof.
  destruct (C6_raise_reopens_action hand3 hand3_raised "a" RAISE 100 1%nat
              ltac:(let v := eval vm_compute in (nth_error (PokerGame.players hand3) 1) in
                    match v with Some ?q => exact q end))
    as (q' & Hq' & _ & Hre & _);
    [exact hand3_raised_by_a | left; reflexivity | vm_compute; reflexivity
    | vm_compute; discriminate |].
  exists q'. split; [exact Hq'|]. apply Hre; vm_compute; reflexivity.
Defined.

Lemma C1_call_raises_chip_total_witness :
  exists g',
    PokerGame.process_action hand3 "a" CALL 0 = Some (g', true)
    /\ exists added, 0 < added /\ chip_total g' = chip_total hand3 + added.
Proof.
  run_to_exists.
  eapply (C1_call_raises_chip_total hand3 _ "a" 0).
  vm_compute. reflexivity.
Defined.

(** The same sum over the first hand of three players: 3000 when they sit
    down, 3030 once the blinds are posted, 3050 after the first call. *)
Example chip_total_first_hand :
  chip_total (seat_all ["a"; "b"; "c"]%string) = 3000
  /\ chip_total hand3 = 3030
  /\ exists g', PokerGame.process_action hand3 "a" CALL 0 = Some (g', true)
                /\ chip_total g' = 3050.
Proof.
  split; [reflexivity|]. split; [reflexivity|].
  run_to_exists. reflexivity.
Qed.

(** A refused action leaves the table as it was, or as it was but for the
    acting player's [has_acted_this_round], which is set. *)
Lemma rejected_action_effect (g g' : PokerGame.t) (pid action : string) (amount : Z) :
  PokerGame.process_action g pid action amount = Some (g', false) ->
  g' = g
  \/ exists seat,
       g' = PokerGame.set_players
              (update_seat seat (Player.set_has_acted_this_round true) (PokerGame.players g)) g.
Proof.
  intros H. apply process_action_inv in H as [[H _]|(seat & p0 & Hp0 & Hid & Hcan & H)];
    [now left|].
  right. exists seat.
  rewrite (update_seat_ext seat (Player.set_has_acted_this_round true)
             (fun _ => Player.set_has_acted_this_round true p0) _ p0 Hp0 eq_refl).
  unfold PokerGame.apply_action in H. cbv zeta in H.
  repeat match type of H with
         | (if ?c then _ else _) = _ => destruct c
         end; now inversion H.
Qed.

(** C4.  On [hand3] it is the turn of [a], who has not acted and has
    nothing in while the table bet is 20.  The check is refused, and the
    table that comes back differs from [hand3]: [a] is now marked as having
    acted. *)
Theorem C4_rejected_check_marks_actor :
  PokerGame.current_player_index hand3 = 0
  /\ option_map Player.has_acted_this_round (nth_error (PokerGame.players hand3) 0)
     = Some false
  /\ exists g',
      PokerGame.process_action hand3 "a" CHECK 0 = Some (g', false)
      /\ g' <> hand3
      /\ option_map Player.has_acted_this_round (nth_error (PokerGame.players g') 0)
         = Some true
      /\ g' = PokerGame.set_players
                (update_seat 0 (Player.set_has_acted_this_round true)
                             (PokerGame.players hand3)) hand3.
Proof.
  split; [reflexivity|]. split; [reflexivity|].
  eexists. split; [vm_compute; reflexivity|].
  split; [discriminate|]. split; reflexivity.
Qed.

(** C7.  Heads-up, [b] starts the hand with 50 chips and posts the big
    blind; [a] raises to 100.  [b] then raises to 200 with 30 chips left:
    the raise is accepted, clamped to a bet of 50, and the table bet drops
    from 100 to 50 while [a], who has not folded, still has 100 in. *)
Theorem C7_clamped_raise_lowers_table_bet :
  exists h,
    PokerGame.start_new_hand short_heads_up fresh_deck = Some (h, true)
    /\ exists g2,
        PokerServer.play h [("b", CHECK, 0); ("a", RAISE, 100)]%string = Some g2
        /\ PokerGame.game_state g2 = PRE_FLOP
        /\ PokerGame.current_bet g2 = 100
        /\ exists g3,
            PokerGame.process_action g2 "b" RAISE 200 = Some (g3, true)
            /\ PokerGame.current_bet g3 = 50
            /\ max_live_bet g3 = 100.
Proof.
  run_to_exists. run_to_table.
  split; [reflexivity|]. split; [reflexivity|].
  run_to_exists. split; reflexivity.
Qed.

(** ** Showdown *)

Lemma showdown_with_fold_reached :
  exists g9,
    PokerServer.play hand3 fold_hand_messages = Some g9
    /\ exists g10,
        PokerGame.process_action g9 "c" CHECK 0 = Some (g10, true)
        /\ PokerServer.is_betting_round_complete g10 = Some true
        /\ PokerGame.advance_to_next_street g10 = Some showdown_with_fold.
Proof.
  run_to_table. run_to_exists. split; vm_compute; reflexivity.
Qed.

(** C3.  At the showdown of the hand in which [a] folded after putting in
    100, [b] and [c] have 100 in each.  The only side pot built holds 200,
    twice the threshold: the folded player's 100 is not counted, [b] wins
    200, and 100 of the 300 chips bet are paid to nobody. *)
Theorem C3_side_pot_leaves_out_folded_chips :
  map (fun p => (Player.id p, Player.total_bet p, Player.is_folded p))
      (PokerGame.players showdown_with_fold)
  = [("a", 100, true); ("b", 100, false); ("c", 100, false)]%string
  /\ PokerGame.side_pots
       (filter (fun p => negb (Player.is_folded p)) (PokerGame.players showdown_with_fold))
     = [PokerGame.mkSidePot 200 ["b"; "c"]%string]
  /\ stacks showdown_with_fold = [("a", 900); ("b", 900); ("c", 900)]%string
  /\ exists g',
      PokerGame.determine_winners showdown_with_fold = Some (g', ["b"]%string)
      /\ stacks g' = [("a", 900); ("b", 1100); ("c", 900)]%string
      /\ PokerGame.pot g' = 0.
Proof.
  split; [reflexivity|]. split; [reflexivity|]. split; [reflexivity|].
  eexists. split; [vm_compute; reflexivity|]. split; reflexivity.
Qed.

(** Without a folded player the layers are as the spec's scenario expects:
    300 for A, B and C, won by A, and 400 for B and C, won by B. *)
Example side_pot_scenario_paid :
  PokerGame.side_pots (PokerGame.players side_pot_scenario)
  = [PokerGame.mkSidePot 300 ["A"; "B"; "C"]%string;
     PokerGame.mkSidePot 400 ["B"; "C"]%string]
  /\ exists g',
      PokerGame.determine_winners side_pot_scenario = Some (g', ["A"; "B"]%string)
      /\ stacks g' = [("A", 300); ("B", 1100); ("C", 700)]%string
      /\ total Player.chips (PokerGame.players g')
         - total Player.chips (PokerGame.players side_pot_scenario) = 700.
Proof.
  split; [reflexivity|].
  eexists. split; [vm_compute; reflexivity|]. split; reflexivity.
Qed.

(** ** The big blind's option *)


(** * Further properties of the table code *)

(** ** Seats: [add_player] and [remove_player] *)

Lemma seat_of_none (pid : string) (ps : list Player.t) :
  PokerGame.seat_of pid ps = None <-> ~ In pid (map Player.id ps).
Proof.
  induction ps as [|q qs IH]; simpl; [tauto|].
  destruct (String.eqb_spec (Player.id q) pid) as [E|E].
  - split; [discriminate|]. intros H. exfalso. apply H. now left.
  - destruct (PokerGame.seat_of pid qs); simpl.
    + split; [discriminate|]. intros H. exfalso.
      assert (Hn : ~ In pid (map Player.id qs)) by tauto.
      apply IH in Hn. discriminate.
    + split; [|reflexivity]. intros _ [H|H]; [contradiction|].
      now apply (proj1 IH).
Qed.

Lemma seat_of_lt (pid : string) (ps : list Player.t) (s : nat) :
  PokerGame.seat_of pid ps = Some s -> (s < length ps)%nat.
Proof.
  intros H. destruct (seat_of_spec _ _ _ H) as (p & Hp & _).
  apply nth_error_Some. congruence.
Qed.

Lemma seat_of_app_new (pid : string) (ps : list Player.t) (q : Player.t) :
  PokerGame.seat_of pid ps = None -> Player.id q = pid ->
  PokerGame.seat_of pid (ps ++ [q]) = Some (length ps).
Proof.
  intros H Hq. induction ps as [|x xs IH]; simpl in *.
  - rewrite Hq, String.eqb_refl. reflexivity.
  - destruct (String.eqb (Player.id x) pid); [discriminate|].
    destruct (PokerGame.seat_of pid xs); [discriminate|].
    now rewrite IH.
Qed.

Lemma seat_of_update_same (pid : string) (ps : list Player.t) (s : nat) (q : Player.t) :
  PokerGame.seat_of pid ps = Some s -> Player.id q = pid ->
  PokerGame.seat_of pid (update_seat s (fun _ => q) ps) = Some s.
Proof.
  revert s. induction ps as [|x xs IH]; simpl; intros s H Hq; [discriminate|].
  destruct (String.eqb (Player.id x) pid) eqn:E.
  - injection H as <-. simpl. now rewrite Hq, String.eqb_refl.
  - destruct (PokerGame.seat_of pid xs) as [s'|] eqn:Es; [|discriminate].
    injection H as <-. simpl. rewrite E. now rewrite (IH s' eq_refl Hq).
Qed.

Lemma ids_update_seat (ps : list Player.t) (s : nat) (f : Player.t -> Player.t) :
  (forall p, Player.id (f p) = Player.id p) ->
  map Player.id (update_seat s f ps) = map Player.id ps.
Proof.
  intros Hf. revert s. induction ps as [|x xs IH]; intros [|s]; simpl; auto.
  - now rewrite Hf.
  - now rewrite IH.
Qed.

Lemma ids_replace_at (pid : string) (ps : list Player.t) (s : nat) (q : Player.t) :
  PokerGame.seat_of pid ps = Some s -> Player.id q = pid ->
  map Player.id (update_seat s (fun _ => q) ps) = map Player.id ps.
Proof.
  revert s. induction ps as [|x xs IH]; simpl; intros s H Hq; [discriminate|].
  destruct (String.eqb_spec (Player.id x) pid) as [E|E].
  - injection H as <-. simpl. congruence.
  - destruct (PokerGame.seat_of pid xs) as [s'|] eqn:Es; [|discriminate].
    injection H as <-. simpl. now rewrite (IH s' eq_refl Hq).
Qed.

(** X1.  [add_player] refuses exactly when six seats are taken and then
    leaves the table as it is; a table of at most six seats never grows
    beyond six. *)
Theorem add_player_capacity (g : PokerGame.t) (pid name : string) :
  (snd (PokerGame.add_player g pid name) = false <-> (6 <= length (PokerGame.players g))%nat)
  /\ (snd (PokerGame.add_player g pid name) = false ->
      fst (PokerGame.add_player g pid name) = g)
  /\ ((length (PokerGame.players g) <= 6)%nat ->
      (length (PokerGame.players (fst (PokerGame.add_player g pid name))) <= 6)%nat).
Proof.
  unfold PokerGame.add_player, PokerGame.num_players.
  destruct (Z.ltb_spec (Z.of_nat (length (PokerGame.players g))) 6) as [Hlt|Hge].
  - destruct (PokerGame.seat_of pid (PokerGame.players g)) as [s|]; simpl.
    + repeat split; try discriminate; try lia.
      intros _. rewrite length_update_seat. lia.
    + repeat split; try discriminate; try lia.
      intros _. rewrite length_app. simpl. lia.
  - simpl. repeat split; auto; lia.
Qed.

(** X2.  After an accepted [add_player] the id is seated with a fresh
    record (1000 chips, no cards, no bets, no flags); every seat held by
    another id is as before.  An id that was seated already keeps its seat
    and only its record is replaced; a new id takes the next seat. *)
Theorem add_player_lookup (g g' : PokerGame.t) (pid name : string) :
  PokerGame.add_player g pid name = (g', true) ->
  exists s,
    PokerGame.seat_of pid (PokerGame.players g') = Some s
    /\ nth_error (PokerGame.players g') s
       = Some (Player.mk pid name 1000 [] 0 0 false false false)
    /\ (forall old, PokerGame.seat_of pid (PokerGame.players g) = Some old ->
                    s = old /\ length (PokerGame.players g') = length (PokerGame.players g))
    /\ (PokerGame.seat_of pid (PokerGame.players g) = None ->
        s = length (PokerGame.players g)
        /\ length (PokerGame.players g') = S (length (PokerGame.players g)))
    /\ (forall i q, nth_error (PokerGame.players g) i = Some q -> Player.id q <> pid ->
                    nth_error (PokerGame.players g') i = Some q).
Proof.
  unfold PokerGame.add_player.
  destruct (PokerGame.num_players g <? 6); [|discriminate].
  destruct (PokerGame.seat_of pid (PokerGame.players g)) as [s|] eqn:Es.
  - intros [= <-]. simpl. exists s.
    destruct (seat_of_spec _ _ _ Es) as (p & Hp & Hid).
    split; [now apply seat_of_update_same|].
    split; [now rewrite (nth_error_update_seat_eq s _ _ p Hp)|].
    split; [intros old [= <-]; split; [reflexivity|apply length_update_seat]|].
    split; [discriminate|].
    intros i q Hq Hne. rewrite nth_error_update_seat_ne; [exact Hq|].
    intros ->. congruence.
  - intros [= <-]. simpl. exists (length (PokerGame.players g)).
    split; [now apply seat_of_app_new|].
    split; [rewrite nth_error_app2, Nat.sub_diag by lia; reflexivity|].
    split; [discriminate|].
    split; [intros _; split; [reflexivity|rewrite length_app; simpl; lia]|].
    intros i q Hq _. rewrite nth_error_app1; [exact Hq|].
    apply nth_error_Some. congruence.
Qed.

Lemma add_player_lookup_witness :
  exists s,
    PokerGame.seat_of "b" (PokerGame.players (seat_all ["a"; "b"]%string)) = Some s
    /\ nth_error (PokerGame.players (seat_all ["a"; "b"]%string)) s
       = Some (Player.mk "b" "b" 1000 [] 0 0 false false false).
Proof.
  destruct (add_player_lookup (seat_all ["a"]%string) (seat_all ["a"; "b"]%string) "b" "b")
    as (s & H1 & H2 & _); [reflexivity|].
  exists s. split; [exact H1 | exact H2].
Defined.

Lemma remove_key_ids_incl (pid x : string) (ps : list Player.t) :
  In x (map Player.id (PokerGame.remove_key pid ps)) -> In x (map Player.id ps).
Proof.
  induction ps as [|q qs IH]; simpl; [tauto|].
  destruct (String.eqb (Player.id q) pid); simpl; tauto.
Qed.

Lemma remove_key_unique (pid : string) (ps : list Player.t) :
  NoDup (map Player.id ps) ->
  NoDup (map Player.id (PokerGame.remove_key pid ps))
  /\ ~ In pid (map Player.id (PokerGame.remove_key pid ps)).
Proof.
  induction ps as [|q qs IH]; simpl; intros H.
  - split; [constructor|tauto].
  - inversion H as [|? ? Hq Hqs]; subst.
    destruct (String.eqb_spec (Player.id q) pid) as [E|E].
    + split; [exact Hqs|]. now rewrite <- E.
    + destruct (IH Hqs) as [H1 H2]. simpl. split.
      * constructor; [|exact H1]. intros Hin. apply Hq.
        now apply (remove_key_ids_incl pid).
      * intros [H0|H0]; [contradiction|]. now apply H2.
Qed.

Lemma remove_key_others (pid : string) (ps : list Player.t) :
  filter (fun p => negb (String.eqb (Player.id p) pid)) (PokerGame.remove_key pid ps)
  = filter (fun p => negb (String.eqb (Player.id p) pid)) ps.
Proof.
  induction ps as [|q qs IH]; simpl; [reflexivity|].
  destruct (String.eqb (Player.id q) pid) eqn:E; simpl; [reflexivity|].
  now rewrite E, IH.
Qed.

Lemma remove_key_length (pid : string) (ps : list Player.t) (s : nat) :
  PokerGame.seat_of pid ps = Some s ->
  S (length (PokerGame.remove_key pid ps)) = length ps.
Proof.
  revert s. induction ps as [|q qs IH]; simpl; intros s H; [discriminate|].
  destruct (String.eqb (Player.id q) pid); [reflexivity|].
  destruct (PokerGame.seat_of pid qs) as [s'|] eqn:Es; [|discriminate].
  simpl. now rewrite (IH s' eq_refl).
Qed.

Lemma remove_key_app_new (pid : string) (ps : list Player.t) (q : Player.t) :
  PokerGame.seat_of pid ps = None -> Player.id q = pid ->
  PokerGame.remove_key pid (ps ++ [q]) = ps.
Proof.
  intros H Hq. induction ps as [|x xs IH]; simpl in *.
  - now rewrite Hq, String.eqb_refl.
  - destruct (String.eqb (Player.id x) pid); [discriminate|].
    destruct (PokerGame.seat_of pid xs); [discriminate|].
    now rewrite IH.
Qed.

Lemma remove_player_players (g : PokerGame.t) (pid : string) :
  PokerGame.players (PokerGame.remove_player g pid)
  = PokerGame.remove_key pid (PokerGame.players g).
Proof.
  unfold PokerGame.remove_player.
  destruct (PokerGame.seat_of pid (PokerGame.players g)) eqn:Es.
  - cbv zeta. now destruct (_ && _).
  - apply seat_of_none in Es. clear -Es.
    induction (PokerGame.players g) as [|q qs IH]; simpl in *; [reflexivity|].
    destruct (String.eqb_spec (Player.id q) pid) as [E|E]; [tauto|].
    f_equal. apply IH. tauto.
Qed.

(** X3.  The ids of the seated players stay pairwise different: both
    [add_player] and [remove_player] keep the [players] dict a dict. *)
Theorem seats_keep_unique_ids (g : PokerGame.t) (pid name : string) :
  NoDup (PokerGame.players_ids g) ->
  NoDup (PokerGame.players_ids (fst (PokerGame.add_player g pid name)))
  /\ NoDup (PokerGame.players_ids (PokerGame.remove_player g pid)).
Proof.
  unfold PokerGame.players_ids. intros H. split.
  - unfold PokerGame.add_player.
    destruct (PokerGame.num_players g <? 6); [|exact H].
    destruct (PokerGame.seat_of pid (PokerGame.players g)) as [s|] eqn:Es; simpl.
    + now rewrite (ids_replace_at pid _ s (Player.mk pid name 1000 [] 0 0 false false false) Es eq_refl).
    + rewrite map_app. simpl. apply seat_of_none in Es.
      apply NoDup_app; [exact H | repeat constructor; simpl; tauto|].
      intros x Hx [<-|[]]. contradiction.
  - rewrite remove_player_players. now apply remove_key_unique.
Qed.

Lemma seats_keep_unique_ids_witness :
  NoDup (PokerGame.players_ids (fst (PokerGame.add_player (seat_all ["a"]%string) "a" "again")))
  /\ NoDup (PokerGame.players_ids (PokerGame.remove_player (seat_all ["a"]%string) "a")).
Proof.
  apply (seats_keep_unique_ids (seat_all ["a"]%string) "a" "again").
  repeat constructor; simpl; tauto.
Defined.

(** X4.  [remove_player] of an id that is not seated changes nothing.  For
    a seated id the table loses exactly one seat, the other players stay in
    their order, and with pairwise different ids the id is seated no more.
    The dealer position, the current player index and the last raiser are
    kept as they were, whoever left. *)
Theorem remove_player_effect (g : PokerGame.t) (pid : string) :
  (PokerGame.seat_of pid (PokerGame.players g) = None -> PokerGame.remove_player g pid = g)
  /\ (forall s, PokerGame.seat_of pid (PokerGame.players g) = Some s ->
        S (length (PokerGame.players (PokerGame.remove_player g pid)))
        = length (PokerGame.players g))
  /\ filter (fun p => negb (String.eqb (Player.id p) pid))
            (PokerGame.players (PokerGame.remove_player g pid))
     = filter (fun p => negb (String.eqb (Player.id p) pid)) (PokerGame.players g)
  /\ (NoDup (PokerGame.players_ids g) ->
      PokerGame.seat_of pid (PokerGame.players (PokerGame.remove_player g pid)) = None)
  /\ PokerGame.dealer_position (PokerGame.remove_player g pid) = PokerGame.dealer_position g
  /\ PokerGame.current_player_index (PokerGame.remove_player g pid)
     = PokerGame.current_player_index g
  /\ PokerGame.last_raiser (PokerGame.remove_player g pid) = PokerGame.last_raiser g.
Proof.
  split; [|split; [|split; [|split]]].
  - unfold PokerGame.remove_player. now intros ->.
  - intros s Hs. rewrite remove_player_players. now apply (remove_key_length pid _ s).
  - rewrite remove_player_players. apply remove_key_others.
  - intros H. rewrite remove_player_players. apply seat_of_none.
    now apply remove_key_unique.
  - unfold PokerGame.remove_player.
    destruct (PokerGame.seat_of pid (PokerGame.players g)); [|auto].
    cbv zeta. destruct (_ && _); simpl; auto.
Qed.

Lemma remove_player_effect_witness :
  PokerGame.seat_of "a" (PokerGame.players (PokerGame.remove_player (seat_all ["a"; "b"]%string) "a"))
  = None.
Proof.
  apply (proj1 (proj2 (proj2 (proj2 (remove_player_effect (seat_all ["a"; "b"]%string) "a"))))).
  repeat constructor; simpl; intuition discriminate.
Defined.

(** X5.  Joining and leaving again gives the table back: for an id that
    is not seated, on a table with a free seat that is waiting or keeps two
    players with chips, [remove_player] undoes [add_player]. *)
Theorem add_then_remove (g : PokerGame.t) (pid name : string) :
  PokerGame.seat_of pid (PokerGame.players g) = None ->
  (length (PokerGame.players g) < 6)%nat ->
  PokerGame.game_state g = WAITING
  \/ (2 <= length (filter (fun p => Player.chips p >? 0) (PokerGame.players g)))%nat ->
  PokerGame.remove_player (fst (PokerGame.add_player g pid name)) pid = g.
Proof.
  intros Hs Hlen Hst.
  unfold PokerGame.add_player, PokerGame.num_players.
  destruct (Z.ltb_spec (Z.of_nat (length (PokerGame.players g))) 6); [|lia].
  rewrite Hs. simpl. unfold PokerGame.remove_player. simpl.
  rewrite (seat_of_app_new pid _ (Player.mk pid name 1000 [] 0 0 false false false) Hs eq_refl). cbv zeta. simpl.
  rewrite (remove_key_app_new pid _ (Player.mk pid name 1000 [] 0 0 false false false) Hs eq_refl).
  destruct g as [ps cc dk pt cb dp cpi st sbl bbl ah lr]. simpl in *.
  destruct Hst as [->|H2].
  - simpl. rewrite andb_false_r. reflexivity.
  - destruct (Nat.ltb_spec (length (filter (fun p => Player.chips p >? 0) ps)) 2); [lia|].
    reflexivity.
Qed.

Lemma add_then_remove_witness :
  PokerGame.remove_player (fst (PokerGame.add_player (seat_all ["a"; "b"]%string) "c" "c")) "c"
  = seat_all ["a"; "b"]%string.
Proof.
  apply (add_then_remove (seat_all ["a"; "b"]%string) "c" "c");
    [reflexivity | simpl; lia | left; reflexivity].
Defined.

(** ** Whose turn it is *)

Lemma find_map_seq_first {A : Type} (P : A -> bool) (f : nat -> A) (a m : nat) (x : A) :
  find P (map f (seq a m)) = Some x ->
  exists k, (a <= k < a + m)%nat /\ x = f k /\ P x = true
            /\ forall k', (a <= k' < k)%nat -> P (f k') = false.
Proof.
  revert a. induction m as [|m IH]; simpl; intros a H; [discriminate|].
  destruct (P (f a)) eqn:E.
  - injection H as <-. exists a. repeat split; auto; lia.
  - destruct (IH (S a) H) as (k & Hk & Hx & HP & Hfirst).
    exists k. repeat split; auto; try lia.
    intros k' Hk'. destruct (Nat.eq_dec k' a) as [->|Hne]; [exact E|].
    apply Hfirst. lia.
Qed.

Lemma find_map_seq_none {A : Type} (P : A -> bool) (f : nat -> A) (a m : nat) :
  find P (map f (seq a m)) = None ->
  forall k, (a <= k < a + m)%nat -> P (f k) = false.
Proof.
  intros H k Hk. apply (find_none _ _ H). apply in_map. apply in_seq. lia.
Qed.

Lemma cyclic_cover (n init j : Z) :
  0 < n -> 0 <= j < n ->
  exists i : nat, (i < Z.to_nat n)%nat /\ (init + Z.of_nat i) mod n = j.
Proof.
  intros Hn Hj. exists (Z.to_nat ((j - init) mod n)).
  pose proof (Z.mod_pos_bound (j - init) n Hn) as Hb.
  split; [lia|].
  rewrite Z2Nat.id by lia. rewrite Z.add_mod_idemp_r by lia.
  replace (init + (j - init)) with j by lia. now apply Z.mod_small.
Qed.

Lemma can_act_at_in (ps : list Player.t) (p : Player.t) :
  In p ps ->
  exists j, 0 <= j < Z.of_nat (length ps)
            /\ PokerGame.can_act_at ps j = Player.can_act p.
Proof.
  intros H. apply In_nth_error in H as [i Hi].
  exists (Z.of_nat i). split.
  - assert (i < length ps)%nat by (apply nth_error_Some; congruence). lia.
  - unfold PokerGame.can_act_at. now rewrite Nat2Z.id, Hi.
Qed.

(** The seat that [_get_player_index_after_dealer] answers. *)
Lemma first_able_seat (g : PokerGame.t) (start_pos offset : Z) :
  let r := PokerGame._get_player_index_after_dealer g start_pos offset in
  let n := PokerGame.num_players g in
  (r = -1 <-> forall p, In p (PokerGame.players g) -> Player.can_act p = false)
  /\ (r <> -1 ->
      0 <= r < n
      /\ PokerGame.can_act_at (PokerGame.players g) r = true
      /\ exists k : nat,
           r = (start_pos + offset + Z.of_nat k) mod n
           /\ forall k' : nat, (k' < k)%nat ->
                PokerGame.can_act_at (PokerGame.players g)
                  ((start_pos + offset + Z.of_nat k') mod n) = false).
Proof.
  cbv zeta. unfold PokerGame._get_player_index_after_dealer, PokerGame.num_players.
  set (ps := PokerGame.players g). set (n := Z.of_nat (length ps)).
  destruct (Z.eqb_spec n 0) as [E|E].
  - split; [|congruence]. split; [|reflexivity]. intros _ p Hp.
    destruct ps; [contradiction|]. simpl in n. lia.
  - assert (Hn : 0 < n) by lia.
    set (f := fun i : nat => ((start_pos + offset) mod n + Z.of_nat i) mod n).
    assert (Hf : forall i, f i = (start_pos + offset + Z.of_nat i) mod n)
      by (intros i; unfold f; apply Z.add_mod_idemp_l; lia).
    destruct (find (PokerGame.can_act_at ps) (map f (seq 0 (length ps)))) as [r|] eqn:Ef.
    + apply find_map_seq_first in Ef as (k & Hk & Hr & Hcan & Hfirst).
      assert (Hrange : 0 <= r < n) by (rewrite Hr, Hf; apply Z.mod_pos_bound; lia).
      split.
      * split; [lia|]. intros Hnone. exfalso.
        unfold PokerGame.can_act_at in Hcan.
        destruct (nth_error ps (Z.to_nat r)) as [p|] eqn:Ep; [|discriminate].
        apply nth_error_In in Ep. rewrite (Hnone p Ep) in Hcan. discriminate.
      * intros _. split; [exact Hrange|]. split; [exact Hcan|].
        exists k. split; [now rewrite Hr, Hf|].
        intros k' Hk'. rewrite <- Hf. apply Hfirst. lia.
    + split; [|congruence]. split; [|reflexivity]. intros _ p Hp.
      destruct (can_act_at_in ps p Hp) as (j & Hj & <-).
      destruct (cyclic_cover n ((start_pos + offset) mod n) j Hn Hj) as (i & Hi & <-).
      apply (find_map_seq_none _ f 0 (length ps) Ef). unfold n in Hi. lia.
Qed.

(** X6.  [_get_player_index_after_dealer] answers -1 exactly when no
    seated player can act.  Otherwise it answers a seat index within the
    table whose player can act, and that seat is the first one able to act
    when the seats are walked cyclically from [start_pos + offset]. *)
Theorem get_player_index_after_dealer_first (g : PokerGame.t) (start_pos offset : Z) :
  let r := PokerGame._get_player_index_after_dealer g start_pos offset in
  let n := PokerGame.num_players g in
  (r = -1 <-> forall p, In p (PokerGame.players g) -> Player.can_act p = false)
  /\ (r <> -1 ->
      0 <= r < n
      /\ PokerGame.can_act_at (PokerGame.players g) r = true
      /\ exists k : nat,
           r = (start_pos + offset + Z.of_nat k) mod n
           /\ forall k' : nat, (k' < k)%nat ->
                PokerGame.can_act_at (PokerGame.players g)
                  ((start_pos + offset + Z.of_nat k') mod n) = false).
Proof. exact (first_able_seat g start_pos offset). Qed.

Lemma get_player_index_after_dealer_first_witness :
  0 <= PokerGame._get_player_index_after_dealer hand3 0 3 < PokerGame.num_players hand3.
Proof.
  apply (proj2 (get_player_index_after_dealer_first hand3 0 3)).
  vm_compute. discriminate.
Defined.

Lemma step_turn_spec (g : PokerGame.t) (k : nat) (idx : Z) :
  0 < PokerGame.num_players g ->
  let n := PokerGame.num_players g in
  (exists j, 1 <= j <= Z.of_nat k
             /\ PokerServer.step_turn g k idx = (idx + j) mod n
             /\ PokerServer.needs_to_act g ((idx + j) mod n) = true
             /\ forall j', 1 <= j' < j -> PokerServer.needs_to_act g ((idx + j') mod n) = false)
  \/ ((k <> O -> PokerServer.step_turn g k idx = (idx + Z.of_nat k) mod n)
      /\ (k = O -> PokerServer.step_turn g k idx = idx)
      /\ forall j', 1 <= j' <= Z.of_nat k ->
           PokerServer.needs_to_act g ((idx + j') mod n) = false).
Proof.
  intros Hn. cbv zeta. revert idx. induction k as [|k IH]; intros idx.
  - right. simpl. repeat split; auto; try congruence; try (intros; lia).
  - simpl PokerServer.step_turn.
    destruct (PokerServer.needs_to_act g ((idx + 1) mod PokerGame.num_players g)) eqn:E.
    + left. exists 1. repeat split; auto; try lia; try (intros; lia).
    + assert (Hshift : forall j, ((idx + 1) mod PokerGame.num_players g + j)
                                  mod PokerGame.num_players g
                                 = (idx + (j + 1)) mod PokerGame.num_players g).
      { intros j. rewrite Z.add_mod_idemp_l by lia. f_equal. lia. }
      destruct (IH ((idx + 1) mod PokerGame.num_players g))
        as [(j & Hj & Hs & Hneed & Hfirst)|(Hs & Hs0 & Hnone)].
      * left. exists (j + 1). rewrite Hshift in Hs, Hneed.
        repeat split; auto; try lia.
        intros j' Hj'. destruct (Z.eq_dec j' 1) as [->|Hne]; [exact E|].
        specialize (Hfirst (j' - 1)). rewrite Hshift in Hfirst.
        replace (j' - 1 + 1) with j' in Hfirst by lia. apply Hfirst. lia.
      * right. split; [|split; [congruence|]].
        -- intros _. destruct k as [|k'].
           ++ rewrite (Hs0 eq_refl). reflexivity.
           ++ rewrite Hs by congruence. rewrite Hshift. f_equal. lia.
        -- intros j' Hj'. destruct (Z.eq_dec j' 1) as [->|Hne]; [exact E|].
           specialize (Hnone (j' - 1)). rewrite Hshift in Hnone.
           replace (j' - 1 + 1) with j' in Hnone by lia. apply Hnone. lia.
Qed.

(** X7.  [advance_to_next_player] on a table with seats changes nothing
    but the current player index.  The new index is a seat of the table; if
    some seat still has to act (can act, and is below the table bet or has
    not acted) the new index is the first such seat after the current one,
    cyclically, and if none has, the new index is the current one reduced
    modulo the number of seats: back where it was when the current index
    is a seat of the table, and the last seat when it was -1. *)
Theorem advance_to_next_player_first (g : PokerGame.t) :
  0 < PokerGame.num_players g ->
  let n := PokerGame.num_players g in
  let cur := PokerGame.current_player_index g in
  let r := PokerGame.current_player_index (PokerServer.advance_to_next_player g) in
  PokerServer.advance_to_next_player g = PokerGame.set_current_player_index r g
  /\ 0 <= r < n
  /\ ((exists j, 1 <= j <= n
                 /\ r = (cur + j) mod n
                 /\ PokerServer.needs_to_act g r = true
                 /\ forall j', 1 <= j' < j ->
                      PokerServer.needs_to_act g ((cur + j') mod n) = false)
      \/ (r = cur mod n
          /\ forall idx, 0 <= idx < n -> PokerServer.needs_to_act g idx = false))
  /\ ((forall idx, 0 <= idx < n -> PokerServer.needs_to_act g idx = false) ->
      (0 <= cur < n -> r = cur) /\ (cur = -1 -> r = n - 1)).
Proof.
  intros Hn. cbv zeta.
  cut (PokerServer.advance_to_next_player g
       = PokerGame.set_current_player_index
           (PokerGame.current_player_index (PokerServer.advance_to_next_player g)) g
       /\ 0 <= PokerGame.current_player_index (PokerServer.advance_to_next_player g)
          < PokerGame.num_players g
       /\ ((exists j, 1 <= j <= PokerGame.num_players g
                 /\ PokerGame.current_player_index (PokerServer.advance_to_next_player g)
                    = (PokerGame.current_player_index g + j) mod PokerGame.num_players g
                 /\ PokerServer.needs_to_act g
                      (PokerGame.current_player_index (PokerServer.advance_to_next_player g))
                    = true
                 /\ forall j', 1 <= j' < j ->
                      PokerServer.needs_to_act g
                        ((PokerGame.current_player_index g + j') mod PokerGame.num_players g)
                      = false)
           \/ (PokerGame.current_player_index (PokerServer.advance_to_next_player g)
               = PokerGame.current_player_index g mod PokerGame.num_players g
               /\ forall idx, 0 <= idx < PokerGame.num_players g ->
                    PokerServer.needs_to_act g idx = false))).
  { intros (H1 & H2 & H3). split; [exact H1|]. split; [exact H2|]. split; [exact H3|].
    intros Hnone.
    assert (Hr : PokerGame.current_player_index (PokerServer.advance_to_next_player g)
                 = PokerGame.current_player_index g mod PokerGame.num_players g).
    { destruct H3 as [(j & _ & _ & Hneed & _)|[Hr _]]; [|exact Hr].
      rewrite (Hnone _ H2) in Hneed. discriminate. }
    split.
    - intros Hcur. rewrite Hr. now apply Z.mod_small.
    - intros Hcur. rewrite Hr, Hcur.
      replace (-1) with (PokerGame.num_players g - 1 + (-1) * PokerGame.num_players g)
        by lia.
      rewrite Z.mod_add by lia. apply Z.mod_small. lia. }
  unfold PokerServer.advance_to_next_player.
  destruct (Z.eqb_spec (PokerGame.num_players g) 0) as [E|_]; [lia|].
  simpl PokerGame.current_player_index.
  assert (Hlen : Z.of_nat (length (PokerGame.players g)) = PokerGame.num_players g)
    by reflexivity.
  assert (Hk : length (PokerGame.players g) <> O)
    by (unfold PokerGame.num_players in Hn; lia).
  split; [reflexivity|].
  destruct (step_turn_spec g (length (PokerGame.players g))
              (PokerGame.current_player_index g) Hn)
    as [(j & Hj & Hs & Hneed & Hfirst)|(Hs & _ & Hnone)].
  - rewrite Hs. split; [apply Z.mod_pos_bound; lia|].
    left. exists j. rewrite Hlen in Hj. repeat split; auto; lia.
  - rewrite (Hs Hk), Hlen. split; [apply Z.mod_pos_bound; lia|].
    right. split.
    + rewrite <- (Z.mul_1_l (PokerGame.num_players g)) at 1.
      apply Z.mod_add. lia.
    + intros idx Hidx.
      destruct (cyclic_cover (PokerGame.num_players g)
                  (PokerGame.current_player_index g + 1) idx Hn Hidx) as (i & Hi & <-).
      replace (PokerGame.current_player_index g + 1 + Z.of_nat i)
        with (PokerGame.current_player_index g + (Z.of_nat i + 1)) by lia.
      apply Hnone. unfold PokerGame.num_players in Hi. lia.
Qed.

Lemma advance_to_next_player_first_witness :
  0 <= PokerGame.current_player_index (PokerServer.advance_to_next_player hand3)
    < PokerGame.num_players hand3.
Proof.
  apply (advance_to_next_player_first hand3). reflexivity.
Defined.

(** ** Street advance *)

Lemma fold_left_bets (ps : list Player.t) (acc : Z) :
  fold_left (fun a p => a + Player.current_bet p) ps acc
  = acc + total Player.current_bet ps.
Proof.
  revert acc. induction ps as [|p ps IH]; intros acc; simpl; [lia|].
  rewrite IH. lia.
Qed.

Lemma total_map (w : Player.t -> Z) (f : Player.t -> Player.t) (ps : list Player.t) :
  (forall p, w (f p) = w p) -> total w (map f ps) = total w ps.
Proof.
  intros H. induction ps as [|p ps IH]; simpl; [reflexivity|]. now rewrite H, IH.
Qed.

Lemma total_map_zero (w : Player.t -> Z) (f : Player.t -> Player.t) (ps : list Player.t) :
  (forall p, w (f p) = 0) -> total w (map f ps) = 0.
Proof.
  intros H. induction ps as [|p ps IH]; simpl; [reflexivity|]. now rewrite H, IH.
Qed.

Lemma pop_rev {A : Type} (d : list A) :
  PokerGame.pop d = match rev d with
                    | [] => None
                    | x :: r => Some (x, rev r)
                    end.
Proof. reflexivity. Qed.

Lemma deal_community_cards (g : PokerGame.t) :
  PokerGame.community_cards (PokerGame.deal_community g)
  = PokerGame.community_cards g ++ firstn 1 (rev (PokerGame.deck g))
  /\ rev (PokerGame.deck (PokerGame.deal_community g)) = skipn 1 (rev (PokerGame.deck g)).
Proof.
  unfold PokerGame.deal_community. rewrite pop_rev.
  destruct (rev (PokerGame.deck g)) as [|x r] eqn:E; simpl.
  - now rewrite app_nil_r, E.
  - now rewrite rev_involutive.
Qed.

Lemma deal_community_frame (g : PokerGame.t) :
  PokerGame.players (PokerGame.deal_community g) = PokerGame.players g
  /\ PokerGame.pot (PokerGame.deal_community g) = PokerGame.pot g
  /\ PokerGame.current_bet (PokerGame.deal_community g) = PokerGame.current_bet g
  /\ PokerGame.last_raiser (PokerGame.deal_community g) = PokerGame.last_raiser g
  /\ PokerGame.dealer_position (PokerGame.deal_community g) = PokerGame.dealer_position g
  /\ PokerGame.current_player_index (PokerGame.deal_community g)
     = PokerGame.current_player_index g.
Proof.
  unfold PokerGame.deal_community.
  destruct (PokerGame.pop (PokerGame.deck g)) as [[x d]|]; simpl; auto 10.
Qed.

Lemma deal_n_cards (n : nat) (g : PokerGame.t) :
  PokerGame.community_cards (Nat.iter n PokerGame.deal_community g)
  = PokerGame.community_cards g ++ firstn n (rev (PokerGame.deck g))
  /\ rev (PokerGame.deck (Nat.iter n PokerGame.deal_community g))
     = skipn n (rev (PokerGame.deck g))
  /\ PokerGame.players (Nat.iter n PokerGame.deal_community g) = PokerGame.players g
  /\ PokerGame.pot (Nat.iter n PokerGame.deal_community g) = PokerGame.pot g
  /\ PokerGame.current_bet (Nat.iter n PokerGame.deal_community g) = PokerGame.current_bet g
  /\ PokerGame.last_raiser (Nat.iter n PokerGame.deal_community g) = PokerGame.last_raiser g
  /\ PokerGame.dealer_position (Nat.iter n PokerGame.deal_community g)
     = PokerGame.dealer_position g
  /\ PokerGame.current_player_index (Nat.iter n PokerGame.deal_community g)
     = PokerGame.current_player_index g.
Proof.
  induction n as [|n IH]; simpl.
  - rewrite app_nil_r. auto 10.
  - destruct IH as (Hc & Hd & Hp & Hpot & Hb & Hl & Hdp & Hi).
    destruct (deal_community_cards (Nat.iter n PokerGame.deal_community g)) as [Hc' Hd'].
    destruct (deal_community_frame (Nat.iter n PokerGame.deal_community g))
      as (Fp & Fpot & Fb & Fl & Fdp & Fi).
    rewrite Hc', Hd', Hc, Hd, Fp, Fpot, Fb, Fl, Fdp, Fi.
    repeat split; auto.
    + rewrite <- app_assoc. f_equal.
      clear. revert n. induction (rev (PokerGame.deck g)) as [|x l IHl]; intros [|n]; simpl; auto.
      * f_equal. specialize (IHl n). destruct n; simpl in *; auto.
    + clear. revert n. induction (rev (PokerGame.deck g)) as [|x l IHl]; intros [|n]; simpl; auto.
      specialize (IHl n). destruct n; simpl in *; auto.
Qed.

Lemma can_act_swept (p : Player.t) : Player.can_act (swept_player p) = Player.can_act p.
Proof. reflexivity. Qed.

Lemma can_act_at_swept (ps : list Player.t) (idx : Z) :
  PokerGame.can_act_at (map swept_player ps) idx = PokerGame.can_act_at ps idx.
Proof.
  unfold PokerGame.can_act_at. rewrite nth_error_map.
  now destruct (nth_error ps (Z.to_nat idx)).
Qed.

Lemma some_eq {A : Type} (a b : A) : Some a = Some b -> a = b.
Proof. now intros [= ->]. Qed.

(** The table between the sweep and the dealing of a street advance. *)
Lemma advance_to_next_street_shape (g : PokerGame.t) :
  exists idx,
    let h :=
      PokerGame.set_current_player_index idx
        (PokerGame.set_last_raiser None
          (PokerGame.set_current_bet 0
            (PokerGame.set_pot (PokerGame.pot g + total Player.current_bet (PokerGame.players g))
              (PokerGame.set_players (map swept_player (PokerGame.players g)) g)))) in
    (idx = -1 <-> forall p, In p (PokerGame.players g) -> Player.can_act p = false)
    /\ (idx <> -1 ->
        0 <= idx < PokerGame.num_players g
        /\ PokerGame.can_act_at (PokerGame.players g) idx = true
        /\ exists k : nat,
             idx = (PokerGame.dealer_position g + 1 + Z.of_nat k) mod PokerGame.num_players g
             /\ forall k' : nat, (k' < k)%nat ->
                  PokerGame.can_act_at (PokerGame.players g)
                    ((PokerGame.dealer_position g + 1 + Z.of_nat k')
                     mod PokerGame.num_players g) = false)
    /\ PokerGame.advance_to_next_street g
       = match PokerGame.game_state g with
         | PRE_FLOP =>
             h' <- PokerGame.burn h ;;
             Some (PokerGame.set_game_state FLOP (Nat.iter 3 PokerGame.deal_community h'))
         | FLOP =>
             h' <- PokerGame.burn h ;;
             Some (PokerGame.set_game_state TURN (Nat.iter 1 PokerGame.deal_community h'))
         | TURN =>
             h' <- PokerGame.burn h ;;
             Some (PokerGame.set_game_state RIVER (Nat.iter 1 PokerGame.deal_community h'))
         | RIVER => Some (PokerGame.set_game_state SHOWDOWN h)
         | _ => Some h
         end.
Proof.
  unfold PokerGame.advance_to_next_street. cbv zeta.
  rewrite fold_left_bets.
  change (fun p : Player.t =>
            Player.set_has_acted_this_round false (Player.set_current_bet 0 p))
    with swept_player.
  set (g1 := PokerGame.set_last_raiser None _).
  pose proof (first_able_seat g1 (PokerGame.dealer_position g1) 1) as Hfirst.
  cbv zeta in Hfirst.
  set (r := PokerGame._get_player_index_after_dealer g1 (PokerGame.dealer_position g1) 1) in *.
  destruct Hfirst as [Hnone Hsome].
  assert (Hcan : (forall p, In p (PokerGame.players g1) -> Player.can_act p = false)
                 <-> (forall p, In p (PokerGame.players g) -> Player.can_act p = false)).
  { unfold g1. simpl. split.
    - intros H p Hp. rewrite <- can_act_swept. apply H. exact (in_map swept_player _ _ Hp).
    - intros H p Hp. apply in_map_iff in Hp as (q & <- & Hq). exact (H q Hq). }
  exists r. split; [|split].
  - now rewrite Hnone.
  - intros Hr. destruct (Hsome Hr) as (H1 & H2 & k & Hk & Hfirst).
    assert (Hnum : PokerGame.num_players g1 = PokerGame.num_players g)
      by (unfold PokerGame.num_players, g1; simpl; now rewrite length_map).
    rewrite Hnum in *.
    change (PokerGame.players g1) with (map swept_player (PokerGame.players g)) in *.
    change (PokerGame.dealer_position g1) with (PokerGame.dealer_position g) in *.
    rewrite can_act_at_swept in H2.
    split; [exact H1|]. split; [exact H2|].
    exists k. split; [exact Hk|].
    intros k' Hk'. rewrite <- can_act_at_swept. now apply Hfirst.
  - simpl PokerGame.current_player_index.
    destruct (Z.eqb_spec r (-1)) as [E|E].
    + assert (Hf : find (PokerGame.can_act_at
                           (PokerGame.players (PokerGame.set_current_player_index r g1)))
                        (map Z.of_nat
                           (seq 0 (length (PokerGame.players
                                             (PokerGame.set_current_player_index r g1)))))
                   = None).
      { destruct (find _ _) as [i|] eqn:Ef; [|reflexivity]. exfalso.
        apply find_some in Ef as [_ Ef]. unfold PokerGame.can_act_at in Ef.
        destruct (nth_error _ _) as [p|] eqn:Ep; [|discriminate].
        apply nth_error_In in Ep.
        rewrite (proj1 Hnone E p Ep) in Ef. discriminate. }
      rewrite Hf. reflexivity.
    + reflexivity.
Qed.

(** X8.  A street advance sweeps the bets: every player keeps chips,
    total bet, cards and fold / all-in flags, has [current_bet] 0 and
    [has_acted_this_round] cleared; the pot takes the sum of the swept bets,
    the table bet is 0 and nobody is the last raiser.  The sum of stacks,
    pot and uncollected bets is the same before and after. *)
Theorem advance_to_next_street_sweeps (g g' : PokerGame.t) :
  PokerGame.advance_to_next_street g = Some g' ->
  PokerGame.players g' = map swept_player (PokerGame.players g)
  /\ PokerGame.pot g' = PokerGame.pot g + total Player.current_bet (PokerGame.players g)
  /\ PokerGame.current_bet g' = 0
  /\ PokerGame.last_raiser g' = None
  /\ PokerGame.dealer_position g' = PokerGame.dealer_position g
  /\ chip_total g' = chip_total g.
Proof.
  intros H.
  destruct (advance_to_next_street_shape g) as (idx & _ & _ & Hshape).
  cbv zeta in Hshape. rewrite Hshape in H. clear Hshape.
  set (h := PokerGame.set_current_player_index idx _) in H.
  assert (Hcore : PokerGame.players g' = PokerGame.players h
                  /\ PokerGame.pot g' = PokerGame.pot h
                  /\ PokerGame.current_bet g' = PokerGame.current_bet h
                  /\ PokerGame.last_raiser g' = PokerGame.last_raiser h
                  /\ PokerGame.dealer_position g' = PokerGame.dealer_position h).
  { unfold PokerGame.burn, bind in H.
    destruct (PokerGame.game_state g);
      try (injection H as <-; simpl; auto 10; fail);
      (destruct (PokerGame.pop (PokerGame.deck h)) as [[x d]|]; cbv beta iota in H;
       [|discriminate];
       apply some_eq in H; subst g';
       match goal with
       | |- context [Nat.iter ?n PokerGame.deal_community ?t] =>
           destruct (deal_n_cards n t) as (_ & _ & Hp & Hpot & Hb & Hl & Hdp & _)
       end;
       cbn [PokerGame.players PokerGame.pot PokerGame.current_bet PokerGame.last_raiser
            PokerGame.dealer_position PokerGame.set_game_state];
       rewrite Hp, Hpot, Hb, Hl, Hdp; simpl; auto 10). }
  destruct Hcore as (Hp & Hpot & Hb & Hl & Hdp).
  repeat split; try assumption.
  unfold chip_total. rewrite Hp, Hpot. simpl.
  rewrite (total_map Player.chips swept_player) by reflexivity.
  rewrite (total_map_zero Player.current_bet swept_player) by reflexivity.
  lia.
Qed.

Lemma advance_to_next_street_sweeps_witness :
  exists g',
    PokerGame.advance_to_next_street hand3_called = Some g'
    /\ map Player.current_bet (PokerGame.players hand3_called) = [20; 20; 20]
    /\ map Player.current_bet (PokerGame.players g') = [0; 0; 0]
    /\ PokerGame.pot g' = PokerGame.pot hand3_called + 60
    /\ PokerGame.current_bet hand3_called = 20 /\ PokerGame.current_bet g' = 0
    /\ PokerGame.last_raiser hand3_called = Some "c"%string
    /\ PokerGame.last_raiser g' = None
    /\ chip_total g' = chip_total hand3_called.
Proof.
  run_to_table.
  match goal with
  | |- context [map Player.current_bet (PokerGame.players ?t) = [0; 0; 0]] =>
      destruct (advance_to_next_street_sweeps hand3_called t)
        as (Hp & Hpot & Hb & Hl & _ & Htot); [vm_compute; reflexivity|]
  end.
  split; [reflexivity|].
  split; [rewrite Hp; reflexivity|].
  split; [rewrite Hpot; reflexivity|].
  split; [reflexivity|]. split; [exact Hb|].
  split; [reflexivity|]. split; [exact Hl|exact Htot].
Defined.

(** X9.  A street advance fails exactly when a card has to be burnt from
    an empty deck (before the flop, the turn and the river).  When it
    succeeds the game moves pre-flop to flop, flop to turn, turn to river,
    river to showdown, and stays where it is from any other state. *)
Theorem advance_to_next_street_states (g : PokerGame.t) :
  (PokerGame.advance_to_next_street g = None
   <-> PokerGame.deck g = [] /\ burns_card (PokerGame.game_state g) = true)
  /\ (forall g', PokerGame.advance_to_next_street g = Some g' ->
                 PokerGame.game_state g' = next_street (PokerGame.game_state g)).
Proof.
  destruct (advance_to_next_street_shape g) as (idx & _ & _ & Hshape).
  cbv zeta in Hshape. rewrite Hshape. clear Hshape.
  set (h := PokerGame.set_current_player_index idx _).
  assert (Hdeck : PokerGame.deck h = PokerGame.deck g) by reflexivity.
  assert (Hstate : PokerGame.game_state h = PokerGame.game_state g) by reflexivity.
  unfold PokerGame.burn, bind. rewrite pop_rev, Hdeck.
  assert (Hrev : rev (PokerGame.deck g) = [] <-> PokerGame.deck g = []).
  { split; intros E; [|now rewrite E].
    rewrite <- (rev_involutive (PokerGame.deck g)), E. reflexivity. }
  destruct (PokerGame.game_state g) eqn:Es; simpl burns_card; simpl next_street;
    try (split; [split; [discriminate|intros [_ ?]; discriminate]
                |intros g' Hg'; apply some_eq in Hg'; now subst g']);
    (destruct (rev (PokerGame.deck g)) as [|x r] eqn:Er;
     [split; [split; [intros _; split; [now apply Hrev|reflexivity]|reflexivity]
             |discriminate]
     |split; [split; [discriminate|intros [Hd _]; apply Hrev in Hd; discriminate]
             |intros g' Hg'; apply some_eq in Hg'; now subst g']]).
Qed.

(** X10.  On the three dealing streets the top card of the deck (its last
    element) is burnt and the next cards are appended to the community
    cards in the order they leave the deck: three before the flop, one
    before the turn and the river.  When the deck runs short, the cards
    that are left are dealt and the street advances all the same. *)
Theorem advance_to_next_street_deals (g : PokerGame.t) (burnt : Card) (l : list Card) :
  burns_card (PokerGame.game_state g) = true ->
  rev (PokerGame.deck g) = burnt :: l ->
  exists g',
    PokerGame.advance_to_next_street g = Some g'
    /\ PokerGame.community_cards g'
       = PokerGame.community_cards g ++ firstn (cards_to_deal (PokerGame.game_state g)) l
    /\ rev (PokerGame.deck g') = skipn (cards_to_deal (PokerGame.game_state g)) l.
Proof.
  intros Hb Hd.
  destruct (advance_to_next_street_shape g) as (idx & _ & _ & Hshape).
  cbv zeta in Hshape. rewrite Hshape. clear Hshape.
  set (h := PokerGame.set_current_player_index idx _).
  assert (Hdeck : PokerGame.deck h = PokerGame.deck g) by reflexivity.
  unfold PokerGame.burn, bind. rewrite pop_rev, Hdeck, Hd.
  cbv beta iota. simpl snd.
  destruct (PokerGame.game_state g); try discriminate; simpl cards_to_deal;
    (eexists; split; [reflexivity|];
     match goal with
     | |- context [Nat.iter ?n PokerGame.deal_community ?t] =>
         destruct (deal_n_cards n t) as (Hc & Hk & _)
     end;
     cbn [PokerGame.community_cards PokerGame.deck PokerGame.set_game_state];
     rewrite Hc, Hk; simpl PokerGame.deck; simpl PokerGame.community_cards;
     rewrite rev_involutive; split; reflexivity).
Qed.

Lemma advance_to_next_street_deals_witness :
  exists g',
    PokerGame.advance_to_next_street
      (PokerGame.set_deck [card heart r2] (PokerGame.set_game_state PRE_FLOP PokerGame.init))
    = Some g'
    /\ PokerGame.community_cards g' = []
    /\ rev (PokerGame.deck g') = [].
Proof.
  apply (advance_to_next_street_deals
           (PokerGame.set_deck [card heart r2]
              (PokerGame.set_game_state PRE_FLOP PokerGame.init))
           (card heart r2) []); reflexivity.
Defined.

(** X11.  After a street advance the current player index is -1 exactly
    when no seated player can act; otherwise it is the first seat able to
    act when the seats are walked cyclically from the seat after the
    dealer. *)
Theorem advance_to_next_street_first_to_act (g g' : PokerGame.t) :
  PokerGame.advance_to_next_street g = Some g' ->
  let r := PokerGame.current_player_index g' in
  let n := PokerGame.num_players g in
  (r = -1 <-> forall p, In p (PokerGame.players g) -> Player.can_act p = false)
  /\ (r <> -1 ->
      0 <= r < n
      /\ PokerGame.can_act_at (PokerGame.players g) r = true
      /\ exists k : nat,
           r = (PokerGame.dealer_position g + 1 + Z.of_nat k) mod n
           /\ forall k' : nat, (k' < k)%nat ->
                PokerGame.can_act_at (PokerGame.players g)
                  ((PokerGame.dealer_position g + 1 + Z.of_nat k') mod n) = false).
Proof.
  intros H.
  destruct (advance_to_next_street_shape g) as (idx & Hnone & Hsome & Hshape).
  cbv zeta in Hshape. rewrite Hshape in H. clear Hshape.
  set (h := PokerGame.set_current_player_index idx _) in H.
  assert (Hidx : PokerGame.current_player_index g' = idx).
  { unfold PokerGame.burn, bind in H.
    destruct (PokerGame.game_state g);
      try (apply some_eq in H; subst g'; reflexivity);
      (destruct (PokerGame.pop (PokerGame.deck h)) as [[x d]|]; cbv beta iota in H;
       [|discriminate];
       apply some_eq in H; subst g';
       match goal with
       | |- context [Nat.iter ?n PokerGame.deal_community ?t] =>
           destruct (deal_n_cards n t) as (_ & _ & _ & _ & _ & _ & _ & Hi)
       end;
       cbn [PokerGame.current_player_index PokerGame.set_game_state];
       rewrite Hi; reflexivity). }
  cbv zeta. rewrite Hidx. split; [exact Hnone | exact Hsome].
Qed.

Lemma advance_to_next_street_first_to_act_witness :
  exists g',
    PokerGame.advance_to_next_street hand3_raised = Some g'
    /\ 0 <= PokerGame.current_player_index g' < PokerGame.num_players hand3_raised.
Proof.
  run_to_table.
  apply (proj2 (advance_to_next_street_first_to_act hand3_raised _ ltac:(vm_compute; reflexivity))).
  vm_compute. discriminate.
Defined.

(** ** What an action can and cannot change *)

Lemma process_action_seat (g g' : PokerGame.t) (pid action : string) (amount : Z) (b : bool) :
  PokerGame.process_action g pid action amount = Some (g', b) ->
  (g' = g /\ b = false)
  \/ exists seat p0,
       PokerGame.seat_of pid (PokerGame.players g) = Some seat
       /\ nth_error (PokerGame.players g) seat = Some p0
       /\ Player.id p0 = pid
       /\ Player.can_act p0 = true
       /\ py_index (PokerGame.players_ids g) (PokerGame.current_player_index g) = Some pid
       /\ PokerGame.apply_action g seat p0 pid action amount = (g', b).
Proof.
  unfold PokerGame.process_action.
  destruct (PokerGame.seat_of pid (PokerGame.players g)) as [seat|] eqn:Es.
  - destruct (seat_of_spec _ _ _ Es) as (p0 & Hp0 & Hid).
    rewrite Hp0. simpl bind.
    destruct (Player.can_act p0) eqn:Hc; simpl.
    + destruct (PokerGame.current_player_index g =? -1); simpl.
      * intros [= <- <-]. now left.
      * destruct (py_index _ _) as [cur|]; simpl; [|discriminate].
        destruct (String.eqb_spec cur pid) as [->|]; simpl.
        -- intros [= H]. right. exists seat, p0. auto 10.
        -- intros [= <- <-]. now left.
    + intros [= <- <-]. now left.
  - intros [= <- <-]. now left.
Qed.

Lemma map_same {A : Type} (l : list A) : map (fun x => x) l = l.
Proof. apply map_id. Qed.

(** The players after the body of [process_action]: the acting seat holds
    a new record [p1], and the other records are as before or have their
    acted flag cleared. *)
Lemma apply_action_shape (g g' : PokerGame.t) (seat : nat) (p0 : Player.t)
  (pid action : string) (amount : Z) (b : bool) :
  nth_error (PokerGame.players g) seat = Some p0 ->
  Player.can_act p0 = true ->
  PokerGame.apply_action g seat p0 pid action amount = (g', b) ->
  exists (p1 : Player.t) (F : Player.t -> Player.t),
    PokerGame.players g' = map F (update_seat seat (fun _ => p1) (PokerGame.players g))
    /\ (forall p, F p = p
                  \/ (F p = Player.set_has_acted_this_round false p
                      /\ Player.id p <> Player.id p0))
    /\ Player.id p1 = Player.id p0
    /\ Player.name p1 = Player.name p0
    /\ Player.cards p1 = Player.cards p0
    /\ Player.has_acted_this_round p1 = true
    /\ Player.chips p1 + Player.current_bet p1 = Player.chips p0 + Player.current_bet p0
    /\ Player.chips p1 + Player.total_bet p1 = Player.chips p0 + Player.total_bet p0
    /\ 0 <= Player.chips p1 <= Z.max (Player.chips p0)
                                     (Player.chips p0 + Player.current_bet p0
                                      - PokerGame.current_bet g - 1)
    /\ PokerGame.pot g' = PokerGame.pot g + (Player.chips p0 - Player.chips p1)
    /\ PokerGame.community_cards g' = PokerGame.community_cards g
    /\ PokerGame.deck g' = PokerGame.deck g
    /\ PokerGame.dealer_position g' = PokerGame.dealer_position g
    /\ PokerGame.current_player_index g' = PokerGame.current_player_index g
    /\ PokerGame.game_state g' = PokerGame.game_state g
    /\ (b = false -> PokerGame.action_history g' = PokerGame.action_history g
                     /\ p1 = Player.set_has_acted_this_round true p0
                     /\ PokerGame.current_bet g' = PokerGame.current_bet g
                     /\ PokerGame.last_raiser g' = PokerGame.last_raiser g)
    /\ (b = true -> exists logged,
          PokerGame.action_history g'
          = PokerGame.action_history g ++ [(pid, action, logged)]).
Proof.
  intros Hp0 Hcan H. pose proof (can_act_chips p0 Hcan) as Hchips.
  unfold PokerGame.apply_action in H. cbv zeta in H.
  assert (Hreopen : forall actor bet (p : Player.t),
             Player.id p0 = actor ->
             (if Player.can_act p && negb (String.eqb (Player.id p) actor)
                 && (Player.current_bet p <? bet)
              then Player.set_has_acted_this_round false p else p) = p
             \/ ((if Player.can_act p && negb (String.eqb (Player.id p) actor)
                     && (Player.current_bet p <? bet)
                  then Player.set_has_acted_this_round false p else p)
                 = Player.set_has_acted_this_round false p
                 /\ Player.id p <> Player.id p0)).
  { intros actor bet p <-.
    destruct (String.eqb_spec (Player.id p) (Player.id p0)) as [E|E].
    - left. now rewrite andb_false_r.
    - destruct (_ && _ && _); [right; split; [reflexivity|exact E] | now left]. }
  destruct (String.eqb action FOLD).
  { injection H as <- <-.
    eexists. exists (fun p => p). simpl. rewrite update_seat_twice, map_same.
    split; [reflexivity|]. simpl.
    repeat split; auto; try lia; try discriminate. eexists. reflexivity. }
  destruct (String.eqb action CHECK).
  { simpl in H. destruct (_ >? _) in H; injection H as <- <-;
      (eexists; exists (fun p => p); simpl; rewrite ?update_seat_twice, map_same;
       split; [reflexivity|]; simpl;
       repeat split; auto; try lia; try discriminate). eexists. reflexivity. }
  destruct (String.eqb action CALL).
  { simpl in H.
    destruct (Z.leb_spec (PokerGame.current_bet g - Player.current_bet p0) 0) as [Hn|Hn];
      injection H as <- <-;
      (eexists; exists (fun p => p); simpl; rewrite ?update_seat_twice, map_same;
       split; [reflexivity|];
       rewrite ?all_in_if_broke_chips, ?all_in_if_broke_current_bet, ?all_in_if_broke_id;
       unfold PokerGame.all_in_if_broke; simpl;
       repeat split; auto; try discriminate;
       try (destruct (_ =? 0); simpl; auto; lia); try lia).
    eexists. reflexivity. }
  destruct (String.eqb action RAISE).
  { simpl in H.
    destruct (Z.leb_spec amount (PokerGame.current_bet g)) as [Hn|Hn].
    - injection H as <- <-.
      eexists; exists (fun p => p); simpl; rewrite ?update_seat_twice, map_same.
      split; [reflexivity|]. simpl. repeat split; auto; try lia; discriminate.
    - injection H as <- <-.
      eexists. eexists. unfold PokerGame.reopen. simpl. rewrite update_seat_twice.
      split; [reflexivity|].
      split; [intros p; apply Hreopen;
              rewrite all_in_if_broke_id; simpl; now destruct (_ >? _)|].
      rewrite ?all_in_if_broke_chips, ?all_in_if_broke_current_bet, ?all_in_if_broke_id.
      unfold PokerGame.all_in_if_broke. simpl.
      destruct (Z.gtb_spec (amount - Player.current_bet p0) (Player.chips p0)); simpl;
        repeat split; auto; try discriminate;
        try (destruct (_ =? 0); simpl; auto; lia); try lia;
        eexists; reflexivity. }
  destruct (String.eqb action ALL_IN).
  { simpl in H. injection H as <- <-.
    destruct (Z.gtb_spec (Player.current_bet p0 + Player.chips p0) (PokerGame.current_bet g)).
    - eexists. eexists. unfold PokerGame.reopen. simpl. rewrite update_seat_twice.
      split; [reflexivity|].
      split; [intros p; apply Hreopen; reflexivity|].
      simpl. repeat split; auto; try lia; try discriminate. eexists. reflexivity.
    - eexists; exists (fun p => p); simpl; rewrite ?update_seat_twice, map_same.
      split; [reflexivity|]. simpl.
      repeat split; auto; try lia; try discriminate. eexists. reflexivity. }
  injection H as <- <-.
  eexists; exists (fun p => p); simpl; rewrite map_same.
  split; [reflexivity|]. simpl. repeat split; auto; try lia; discriminate.
Qed.

Lemma total_flagged (w : Player.t -> Z) (F : Player.t -> Player.t) (x : Player.t)
  (ps : list Player.t) :
  (forall p, w (Player.set_has_acted_this_round false p) = w p) ->
  (forall p, F p = p \/ (F p = Player.set_has_acted_this_round false p
                         /\ Player.id p <> Player.id x)) ->
  total w (map F ps) = total w ps.
Proof.
  intros Hw HF. apply total_map. intros p.
  destruct (HF p) as [->|[-> _]]; auto.
Qed.

(** X12.  Whatever the action and whether it is accepted or refused,
    [process_action] moves chips only from a stack into the pot: the sum of
    all stacks plus the pot is unchanged.  So are the sum of the stacks and
    the bets of the street, and the sum of the stacks and the bets of the
    hand. *)
Theorem process_action_conserves (g g' : PokerGame.t) (pid action : string)
  (amount : Z) (b : bool) :
  PokerGame.process_action g pid action amount = Some (g', b) ->
  total Player.chips (PokerGame.players g') + PokerGame.pot g'
  = total Player.chips (PokerGame.players g) + PokerGame.pot g
  /\ total Player.chips (PokerGame.players g')
     + total Player.current_bet (PokerGame.players g')
     = total Player.chips (PokerGame.players g)
       + total Player.current_bet (PokerGame.players g)
  /\ total Player.chips (PokerGame.players g')
     + total Player.total_bet (PokerGame.players g')
     = total Player.chips (PokerGame.players g)
       + total Player.total_bet (PokerGame.players g).
Proof.
  intros H.
  apply process_action_seat in H
    as [[-> _]|(seat & p0 & _ & Hp0 & _ & Hcan & _ & H)]; [auto|].
  destruct (apply_action_shape _ _ _ _ _ _ _ _ Hp0 Hcan H)
    as (p1 & F & Hps & HF & _ & _ & _ & _ & Hcb & Htb & _ & Hpot & _).
  rewrite Hps, Hpot.
  rewrite !(total_flagged _ F p0) by (auto; reflexivity).
  rewrite !(total_update_seat _ seat p1 p0 _ Hp0). lia.
Qed.

Lemma process_action_conserves_witness :
  total Player.chips (PokerGame.players hand3_raised) + PokerGame.pot hand3_raised
  = total Player.chips (PokerGame.players hand3) + PokerGame.pot hand3.
Proof.
  apply (process_action_conserves hand3 hand3_raised "a" RAISE 100 true).
  vm_compute. reflexivity.
Defined.

(** X13.  [process_action] never adds, removes or reorders a seat.  Each
    player keeps id, name and cards, and keeps the sum of stack and street
    bet and the sum of stack and hand bet.  A player other than the one who
    acts keeps the whole record, except that the acted flag may be
    cleared. *)
Theorem process_action_per_seat (g g' : PokerGame.t) (pid action : string)
  (amount : Z) (b : bool) (i : nat) (p : Player.t) :
  PokerGame.process_action g pid action amount = Some (g', b) ->
  nth_error (PokerGame.players g) i = Some p ->
  length (PokerGame.players g') = length (PokerGame.players g)
  /\ exists p',
      nth_error (PokerGame.players g') i = Some p'
      /\ Player.id p' = Player.id p
      /\ Player.name p' = Player.name p
      /\ Player.cards p' = Player.cards p
      /\ Player.chips p' + Player.current_bet p' = Player.chips p + Player.current_bet p
      /\ Player.chips p' + Player.total_bet p' = Player.chips p + Player.total_bet p
      /\ (Player.id p <> pid ->
          p' = p \/ p' = Player.set_has_acted_this_round false p).
Proof.
  intros H Hp.
  apply process_action_seat in H
    as [[-> _]|(seat & p0 & _ & Hp0 & Hid & Hcan & _ & H)].
  { split; [reflexivity|]. exists p. auto 10. }
  destruct (apply_action_shape _ _ _ _ _ _ _ _ Hp0 Hcan H)
    as (p1 & F & Hps & HF & Hid1 & Hname & Hcards & _ & Hcb & Htb & _).
  rewrite Hps. split; [now rewrite length_map, length_update_seat|].
  rewrite nth_error_map.
  destruct (Nat.eq_dec seat i) as [->|Hne].
  - rewrite (nth_error_update_seat_eq i _ _ p0 Hp0). simpl.
    assert (p = p0) by congruence. subst p.
    exists (F p1). split; [reflexivity|].
    destruct (HF p1) as [->|[-> _]]; simpl; repeat split; auto; congruence.
  - rewrite nth_error_update_seat_ne by exact Hne. rewrite Hp. simpl.
    exists (F p). split; [reflexivity|].
    destruct (HF p) as [->|[-> _]]; simpl; repeat split; auto.
Qed.

Lemma process_action_per_seat_witness :
  length (PokerGame.players hand3_raised) = length (PokerGame.players hand3).
Proof.
  apply (process_action_per_seat hand3 hand3_raised "a" RAISE 100 true 0%nat
           ltac:(let v := eval vm_compute in (nth_error (PokerGame.players hand3) 0) in
                 match v with Some ?q => exact q end));
    vm_compute; reflexivity.
Defined.

(** X14.  Stacks never go negative through an action: if every seated
    player holds zero chips or more, so does everyone after
    [process_action], for any action string and any amount. *)
Theorem process_action_keeps_stacks_nonnegative (g g' : PokerGame.t)
  (pid action : string) (amount : Z) (b : bool) :
  PokerGame.process_action g pid action amount = Some (g', b) ->
  (forall p, In p (PokerGame.players g) -> 0 <= Player.chips p) ->
  forall p', In p' (PokerGame.players g') -> 0 <= Player.chips p'.
Proof.
  intros H Hall p' Hp'.
  apply process_action_seat in H
    as [[-> _]|(seat & p0 & _ & Hp0 & Hid & Hcan & _ & H)]; [now apply Hall|].
  destruct (apply_action_shape _ _ _ _ _ _ _ _ Hp0 Hcan H)
    as (p1 & F & Hps & HF & _ & _ & _ & _ & _ & _ & Hnn & _).
  rewrite Hps in Hp'. apply in_map_iff in Hp' as (q & <- & Hq).
  assert (Hq0 : 0 <= Player.chips q).
  { apply In_nth_error in Hq as [i Hi].
    destruct (Nat.eq_dec seat i) as [->|Hne].
    - rewrite (nth_error_update_seat_eq i _ _ p0 Hp0) in Hi.
      injection Hi as <-. lia.
    - rewrite nth_error_update_seat_ne in Hi by exact Hne.
      apply Hall. now apply nth_error_In in Hi. }
  destruct (HF q) as [->|[-> _]]; exact Hq0.
Qed.

Lemma process_action_keeps_stacks_nonnegative_witness :
  Forall (fun p' => 0 <= Player.chips p') (PokerGame.players hand3_raised).
Proof.
  apply Forall_forall.
  apply (process_action_keeps_stacks_nonnegative hand3 hand3_raised "a" RAISE 100 true).
  - vm_compute. reflexivity.
  - intros p Hp. vm_compute in Hp.
    destruct Hp as [<-|[<-|[<-|[]]]]; vm_compute; discriminate.
Defined.

(** X15.  [process_action] deals no card and moves neither the dealer
    button nor the turn: community cards, deck, dealer position, current
    player index and game state are as before.  An accepted action appends
    exactly one entry, for its player and action, to the action log; a
    refused one leaves the log, the pot, the table bet and the last raiser
    as they were. *)
Theorem process_action_frame (g g' : PokerGame.t) (pid action : string)
  (amount : Z) (b : bool) :
  PokerGame.process_action g pid action amount = Some (g', b) ->
  PokerGame.community_cards g' = PokerGame.community_cards g
  /\ PokerGame.deck g' = PokerGame.deck g
  /\ PokerGame.dealer_position g' = PokerGame.dealer_position g
  /\ PokerGame.current_player_index g' = PokerGame.current_player_index g
  /\ PokerGame.game_state g' = PokerGame.game_state g
  /\ (b = true -> exists logged,
        PokerGame.action_history g'
        = PokerGame.action_history g ++ [(pid, action, logged)])
  /\ (b = false ->
      PokerGame.action_history g' = PokerGame.action_history g
      /\ PokerGame.pot g' = PokerGame.pot g
      /\ PokerGame.current_bet g' = PokerGame.current_bet g
      /\ PokerGame.last_raiser g' = PokerGame.last_raiser g).
Proof.
  intros H.
  apply process_action_seat in H
    as [[-> ->]|(seat & p0 & _ & Hp0 & Hid & Hcan & _ & H)].
  { repeat split; auto; discriminate. }
  destruct (apply_action_shape _ _ _ _ _ _ _ _ Hp0 Hcan H)
    as (p1 & F & _ & _ & _ & _ & _ & _ & _ & _ & _ & Hpot & Hcc & Hdk & Hdp & Hcpi & Hst
        & Hrej & Hacc).
  repeat (split; [assumption|]).
  intros Hb. destruct (Hrej Hb) as (Hh & Hp1 & Hbet & Hlr).
  repeat split; auto. rewrite Hpot, Hp1. simpl. lia.
Qed.

Lemma process_action_frame_witness :
  exists logged,
    PokerGame.action_history hand3_raised
    = PokerGame.action_history hand3 ++ [("a"%string, RAISE, logged)].
Proof.
  apply (proj1 (proj2 (proj2 (proj2 (proj2 (proj2
           (process_action_frame hand3 hand3_raised "a" RAISE 100 true
              ltac:(vm_compute; reflexivity)))))))).
  reflexivity.
Defined.

(** ** The five actions *)

Ltac action_tests H :=
  repeat match type of H with
         | context [String.eqb ?a ?b] =>
             let v := eval vm_compute in (String.eqb a b) in
             change (String.eqb a b) with v in H
         end;
  cbv beta iota zeta in H.

(** X16.  An accepted call is a call of something: the player was below
    the table bet.  Afterwards the player's street bet is the smaller of the
    table bet and what the player could put in, so the player has matched
    the table bet or is all-in with no chips left; the table bet and the
    last raiser are unchanged. *)
Theorem call_matches_or_all_in (g g' : PokerGame.t) (pid : string) (amount : Z) :
  PokerGame.process_action g pid CALL amount = Some (g', true) ->
  exists seat p0 p1,
    PokerGame.seat_of pid (PokerGame.players g) = Some seat
    /\ nth_error (PokerGame.players g) seat = Some p0
    /\ nth_error (PokerGame.players g') seat = Some p1
    /\ Player.current_bet p0 < PokerGame.current_bet g
    /\ Player.current_bet p1
       = Z.min (PokerGame.current_bet g) (Player.current_bet p0 + Player.chips p0)
    /\ (Player.current_bet p1 = PokerGame.current_bet g
        \/ (Player.chips p1 = 0 /\ Player.is_all_in p1 = true))
    /\ PokerGame.current_bet g' = PokerGame.current_bet g
    /\ PokerGame.last_raiser g' = PokerGame.last_raiser g.
Proof.
  intros H.
  apply process_action_seat in H
    as [[_ H]|(seat & p0 & Hs & Hp0 & Hid & Hcan & _ & H)]; [discriminate|].
  pose proof (can_act_chips p0 Hcan) as Hchips.
  unfold PokerGame.apply_action in H. action_tests H. simpl in H.
  destruct (Z.leb_spec (PokerGame.current_bet g - Player.current_bet p0) 0) as [Hn|Hn];
    [discriminate|].
  injection H as <-. simpl. rewrite update_seat_twice.
  eexists seat, p0, _. split; [exact Hs|]. split; [exact Hp0|].
  split; [rewrite (nth_error_update_seat_eq seat _ _ p0 Hp0); reflexivity|].
  rewrite all_in_if_broke_current_bet. unfold PokerGame.all_in_if_broke. simpl.
  split; [lia|]. split; [lia|]. split; [|split; reflexivity].
  destruct (Z.eqb_spec
              (Player.chips p0
               - Z.min (PokerGame.current_bet g - Player.current_bet p0) (Player.chips p0)) 0);
    simpl; [right; split; [assumption|reflexivity]|left; lia].
Qed.

Lemma call_matches_or_all_in_witness :
  exists g',
    PokerGame.process_action hand3 "a" CALL 0 = Some (g', true)
    /\ PokerGame.current_bet g' = PokerGame.current_bet hand3.
Proof.
  run_to_exists.
  match goal with
  | |- PokerGame.current_bet ?t = _ =>
      destruct (call_matches_or_all_in hand3 t "a" 0)
        as (seat & p0 & p1 & _ & _ & _ & _ & _ & _ & Hb & _);
        [vm_compute; reflexivity|]
  end.
  exact Hb.
Defined.

(** X17.  An accepted all_in commits the whole stack: the player ends with
    no chips, flagged all-in and unable to act, street and hand bets grown
    by the stack.  The table bet becomes the larger of the old table bet and
    the player's new bet, so it never falls; the player becomes the last
    raiser only when the table bet rose. *)
Theorem all_in_commits_stack (g g' : PokerGame.t) (pid : string) (amount : Z) :
  PokerGame.process_action g pid ALL_IN amount = Some (g', true) ->
  exists seat p0 p1,
    PokerGame.seat_of pid (PokerGame.players g) = Some seat
    /\ nth_error (PokerGame.players g) seat = Some p0
    /\ nth_error (PokerGame.players g') seat = Some p1
    /\ Player.chips p1 = 0
    /\ Player.is_all_in p1 = true
    /\ Player.can_act p1 = false
    /\ Player.current_bet p1 = Player.current_bet p0 + Player.chips p0
    /\ Player.total_bet p1 = Player.total_bet p0 + Player.chips p0
    /\ PokerGame.current_bet g' = Z.max (PokerGame.current_bet g) (Player.current_bet p1)
    /\ PokerGame.last_raiser g'
       = (if Player.current_bet p1 >? PokerGame.current_bet g then Some pid
          else PokerGame.last_raiser g).
Proof.
  intros H.
  apply process_action_seat in H
    as [[_ H]|(seat & p0 & Hs & Hp0 & Hid & Hcan & _ & H)]; [discriminate|].
  unfold PokerGame.apply_action in H. action_tests H. simpl in H.
  injection H as <-.
  eexists seat, p0, _. split; [exact Hs|]. split; [exact Hp0|].
  destruct (Z.gtb_spec (Player.current_bet p0 + Player.chips p0) (PokerGame.current_bet g))
    as [Hgt|Hle].
  - unfold PokerGame.reopen. simpl. rewrite update_seat_twice.
    split.
    { rewrite nth_error_map, (nth_error_update_seat_eq seat _ _ p0 Hp0). simpl.
      rewrite String.eqb_refl, andb_false_r. reflexivity. }
    simpl. destruct (Z.gtb_spec (Player.current_bet p0 + Player.chips p0)
                                (PokerGame.current_bet g)); [|lia].
    repeat split; auto; try lia;
      [unfold Player.can_act; simpl; now destruct (Player.is_folded p0) | now rewrite Hid].
  - simpl. rewrite update_seat_twice.
    split; [rewrite (nth_error_update_seat_eq seat _ _ p0 Hp0); reflexivity|].
    simpl. destruct (Z.gtb_spec (Player.current_bet p0 + Player.chips p0)
                                (PokerGame.current_bet g)); [lia|].
    repeat split; auto; try lia.
    unfold Player.can_act; simpl; now destruct (Player.is_folded p0).
Qed.

Lemma all_in_commits_stack_witness :
  exists g',
    PokerGame.process_action hand3 "a" ALL_IN 0 = Some (g', true)
    /\ PokerGame.current_bet g' = 1000.
Proof.
  run_to_exists.
  match goal with
  | |- PokerGame.current_bet ?t = _ =>
      destruct (all_in_commits_stack hand3 t "a" 0)
        as (seat & p0 & p1 & _ & _ & _ & _ & _ & _ & _ & _ & _ & _);
        [vm_compute; reflexivity|]
  end.
  reflexivity.
Defined.

(** X18.  A raise is accepted only to a total above the table bet.  The
    player's street bet becomes that total, or everything the player has
    when the total cannot be paid; the table bet is set to the player's new
    street bet, the player becomes the last raiser, and the amount written
    to the action log is the player's new street bet when the raise was cut
    down to the stack. *)
Theorem raise_sets_table_bet (g g' : PokerGame.t) (pid : string) (amount : Z) :
  PokerGame.process_action g pid RAISE amount = Some (g', true) ->
  exists seat p0 p1,
    PokerGame.seat_of pid (PokerGame.players g) = Some seat
    /\ nth_error (PokerGame.players g) seat = Some p0
    /\ nth_error (PokerGame.players g') seat = Some p1
    /\ PokerGame.current_bet g < amount
    /\ Player.current_bet p1 = Z.min amount (Player.current_bet p0 + Player.chips p0)
    /\ PokerGame.current_bet g' = Player.current_bet p1
    /\ PokerGame.last_raiser g' = Some pid
    /\ (Player.chips p1 = 0 -> Player.is_all_in p1 = true)
    /\ PokerGame.action_history g'
       = PokerGame.action_history g ++ [(pid, RAISE, Player.current_bet p1)].
Proof.
  intros H.
  apply process_action_seat in H
    as [[_ H]|(seat & p0 & Hs & Hp0 & Hid & Hcan & _ & H)]; [discriminate|].
  unfold PokerGame.apply_action in H. action_tests H. simpl in H.
  destruct (Z.leb_spec amount (PokerGame.current_bet g)) as [Hn|Hn]; [discriminate|].
  injection H as <-.
  eexists seat, p0, _. split; [exact Hs|]. split; [exact Hp0|].
  unfold PokerGame.reopen. simpl. rewrite update_seat_twice.
  split.
  { rewrite nth_error_map, (nth_error_update_seat_eq seat _ _ p0 Hp0). simpl.
    rewrite all_in_if_broke_id. simpl.
    replace (Player.id (if amount - Player.current_bet p0 >? Player.chips p0
                        then Player.set_is_all_in true
                               (Player.set_has_acted_this_round true p0)
                        else Player.set_has_acted_this_round true p0))
      with (Player.id p0) by (now destruct (_ >? _)).
    rewrite String.eqb_refl, andb_false_r. reflexivity. }
  unfold PokerGame.all_in_if_broke. simpl.
  destruct (Z.gtb_spec (amount - Player.current_bet p0) (Player.chips p0)); simpl;
    destruct (_ =? 0) eqn:Ez; simpl;
    (apply Z.eqb_eq in Ez || apply Z.eqb_neq in Ez);
    repeat split; simpl; auto; try lia; try (now rewrite Hid); try (intros; lia);
    try (repeat f_equal; lia).
Qed.

Lemma raise_sets_table_bet_witness :
  exists seat p0 p1,
    PokerGame.seat_of "a" (PokerGame.players hand3) = Some seat
    /\ nth_error (PokerGame.players hand3) seat = Some p0
    /\ nth_error (PokerGame.players hand3_raised) seat = Some p1
    /\ PokerGame.current_bet hand3 < 100
    /\ Player.current_bet p1 = Z.min 100 (Player.current_bet p0 + Player.chips p0)
    /\ PokerGame.current_bet hand3_raised = Player.current_bet p1
    /\ PokerGame.last_raiser hand3_raised = Some "a"%string
    /\ (Player.chips p1 = 0 -> Player.is_all_in p1 = true)
    /\ PokerGame.action_history hand3_raised
       = PokerGame.action_history hand3 ++ [("a"%string, RAISE, Player.current_bet p1)].
Proof.
  apply (raise_sets_table_bet hand3 hand3_raised "a" 100).
  vm_compute. reflexivity.
Defined.

(** ** Showdown *)

Lemma sort_by_In {A : Type} (above : A -> A -> bool) (x : A) (l : list A) :
  In x (sort_by above l) <-> In x l.
Proof.
  assert (Hins : forall y s, In x (insert_by above y s) <-> x = y \/ In x s).
  { intros y s. induction s as [|z s IH]; simpl; [intuition|].
    destruct (above z y); simpl; rewrite ?IH; intuition. }
  unfold sort_by. induction l as [|y l IH]; simpl; [tauto|].
  rewrite Hins, IH. intuition.
Qed.

Lemma sort_by_length {A : Type} (above : A -> A -> bool) (l : list A) :
  length (sort_by above l) = length l.
Proof.
  assert (Hins : forall y s, length (insert_by above y s) = S (length s)).
  { intros y s. induction s as [|z s IH]; simpl; [reflexivity|].
    destruct (above z y); simpl; now rewrite ?IH. }
  unfold sort_by. induction l as [|y l IH]; simpl; [reflexivity|].
  now rewrite Hins, IH.
Qed.

(** [sorted_asc] of pairwise different values is strictly increasing. *)
Lemma sorted_asc_strict (l : list Z) :
  NoDup l -> StronglySorted Z.lt (sorted_asc l).
Proof.
  assert (Hins : forall y s,
             StronglySorted Z.lt s -> ~ In y s ->
             StronglySorted Z.lt (insert_by Z.ltb y s)).
  { intros y s Hs. induction Hs as [|z s Hs IH Hall]; simpl; intros Hy.
    - constructor; constructor.
    - destruct (Z.ltb_spec z y) as [Hlt|Hge].
      + constructor.
        * apply IH. tauto.
        * assert (Hi : forall x t, In x (insert_by Z.ltb y t) -> x = y \/ In x t).
          { intros x t. induction t as [|w t IHt]; simpl; [intuition|].
            destruct (w <? y); simpl; intuition. }
          apply Forall_forall. intros x Hx. apply Hi in Hx as [->|Hx]; [exact Hlt|].
          rewrite Forall_forall in Hall. now apply Hall.
      + assert (y < z) by (destruct (Z.eq_dec y z); [subst; tauto | lia]).
        constructor; [now constructor|].
        constructor; [assumption|].
        rewrite Forall_forall in *. intros x Hx. specialize (Hall x Hx). lia. }
  intros Hnd. unfold sorted_asc. induction l as [|y l IH]; simpl.
  - constructor.
  - inversion Hnd; subst. apply Hins; [now apply IH|].
    fold (sort_by Z.ltb l). now rewrite sort_by_In.
Qed.

Lemma level_amount_sum (pw : list Player.t) (lv prev acc : Z) :
  fold_left (fun acc p => acc + Z.min (lv - prev) (Player.total_bet p - prev))
            (filter (fun p => Player.total_bet p >=? lv) pw) acc
  = acc + fold_right (fun p acc => (if Player.total_bet p >=? lv then lv - prev else 0) + acc)
                     0 pw.
Proof.
  revert acc. induction pw as [|p pw IHp]; intros acc; simpl; [lia|].
  destruct (Z.geb_spec (Player.total_bet p) lv); simpl; rewrite IHp; lia.
Qed.

Lemma fold_right_split (a b : Player.t -> Z) (pw : list Player.t) :
  fold_right (fun p acc => (a p + b p) + acc) 0 pw
  = fold_right (fun p acc => a p + acc) 0 pw + fold_right (fun p acc => b p + acc) 0 pw.
Proof.
  induction pw as [|p pw IHp]; simpl; [reflexivity|]. rewrite IHp. lia.
Qed.

(** What one player adds to the side pots built from the levels [bets]. *)
Lemma side_pots_from_sum (pw : list Player.t) (prev : Z) (bets : list Z) :
  fold_right (fun sp acc => PokerGame.amount sp + acc) 0
             (PokerGame.side_pots_from pw prev bets)
  = total (fun p =>
             (fix layers (prev : Z) (bets : list Z) : Z :=
                match bets with
                | [] => 0
                | lv :: more =>
                    (if Player.total_bet p >=? lv then lv - prev else 0) + layers lv more
                end) prev bets) pw.
Proof.
  unfold total. revert prev. induction bets as [|lv more IH]; intros prev.
  - simpl. induction pw as [|p pw IHp]; simpl; [reflexivity|]. now rewrite <- IHp.
  - simpl PokerGame.side_pots_from.
    rewrite (fold_right_split (fun p => if Player.total_bet p >=? lv then lv - prev else 0)).
    rewrite <- IH.
    pose proof (level_amount_sum pw lv prev 0) as Hlv.
    destruct (filter (fun p => Player.total_bet p >=? lv) pw) eqn:Ef.
    + simpl in Hlv. rewrite <- Hlv. reflexivity.
    + cbn [fold_right PokerGame.amount]. rewrite Hlv. lia.
Qed.

Lemma layers_above (tb : Z) (prev : Z) (bets : list Z) :
  Forall (fun lv => tb < lv) bets ->
  (fix layers (prev : Z) (bets : list Z) : Z :=
     match bets with
     | [] => 0
     | lv :: more => (if tb >=? lv then lv - prev else 0) + layers lv more
     end) prev bets = 0.
Proof.
  revert prev. induction bets as [|lv more IH]; intros prev H; [reflexivity|].
  inversion H; subst. destruct (Z.geb_spec tb lv); [lia|]. now rewrite IH.
Qed.

Lemma layers_telescope (tb : Z) (prev : Z) (bets : list Z) :
  StronglySorted Z.lt bets -> In tb bets ->
  (fix layers (prev : Z) (bets : list Z) : Z :=
     match bets with
     | [] => 0
     | lv :: more => (if tb >=? lv then lv - prev else 0) + layers lv more
     end) prev bets = tb - prev.
Proof.
  revert prev. induction bets as [|lv more IH]; intros prev Hs Hin; [contradiction|].
  inversion Hs as [|? ? Hs' Hall]; subst.
  destruct Hin as [->|Hin].
  - destruct (Z.geb_spec tb tb); [|lia]. rewrite layers_above; [lia|exact Hall].
  - assert (lv < tb) by (rewrite Forall_forall in Hall; now apply Hall).
    destruct (Z.geb_spec tb lv); [|lia]. rewrite (IH lv Hs' Hin). lia.
Qed.

(** Sum of the side pots. *)
Lemma side_pots_sum (potential_winners : list Player.t) :
  fold_right (fun sp acc => PokerGame.amount sp + acc) 0
             (PokerGame.side_pots potential_winners)
  = total Player.total_bet potential_winners.
Proof.
  unfold PokerGame.side_pots. rewrite side_pots_from_sum.
  set (bets := sorted_asc (set_of (map Player.total_bet potential_winners))).
  assert (Hs : StronglySorted Z.lt bets)
    by (apply sorted_asc_strict, NoDup_nodup).
  assert (Hin : forall p, In p potential_winners -> In (Player.total_bet p) bets).
  { intros p Hp. unfold bets, sorted_asc. rewrite sort_by_In. unfold set_of.
    apply nodup_In. now apply in_map. }
  clearbody bets.
  induction potential_winners as [|p pw IH]; simpl; [reflexivity|].
  rewrite IH by (intros q Hq; apply Hin; now right).
  rewrite (layers_telescope _ 0 bets Hs (Hin p (or_introl eq_refl))). lia.
Qed.

(** X19.  The side pots built at showdown add up to exactly what the
    players still in the hand have bet in the hand: nothing of their bets
    is counted twice or left out. *)
Theorem side_pots_cover_live_bets (potential_winners : list Player.t) :
  fold_right (fun sp acc => PokerGame.amount sp + acc) 0
             (PokerGame.side_pots potential_winners)
  = total Player.total_bet potential_winners.
Proof. exact (side_pots_sum potential_winners). Qed.

Lemma add_chips_ids (w : string) (x : Z) (ps : list Player.t) :
  map Player.id (PokerGame.add_chips w x ps) = map Player.id ps.
Proof.
  unfold PokerGame.add_chips. destruct (PokerGame.seat_of w ps); [|reflexivity].
  now apply ids_update_seat.
Qed.

Lemma add_chips_total (w : string) (x : Z) (ps : list Player.t) :
  In w (map Player.id ps) ->
  total Player.chips (PokerGame.add_chips w x ps) = total Player.chips ps + x.
Proof.
  intros Hin. unfold PokerGame.add_chips.
  destruct (PokerGame.seat_of w ps) as [s|] eqn:Es.
  - destruct (seat_of_spec _ _ _ Es) as (p & Hp & _).
    unfold total. rewrite (update_seat_total Player.chips s _ ps p Hp). simpl. lia.
  - apply seat_of_none in Es. contradiction.
Qed.

Lemma pay_winners_total (share remainder : Z) (winners : list string) :
  forall (idx : Z) (acc : list Player.t * list string),
    (forall w, In w winners -> In w (map Player.id (fst acc))) ->
    let r := PokerGame.pay_winners share remainder idx winners acc in
    total Player.chips (fst r)
    = total Player.chips (fst acc) + share * Z.of_nat (length winners)
      + Z.max 0 (Z.min (remainder - idx) (Z.of_nat (length winners)))
    /\ map Player.id (fst r) = map Player.id (fst acc)
    /\ (forall w, In w (snd r) -> In w (snd acc) \/ In w winners).
Proof.
  induction winners as [|w ws IH]; intros idx acc Hin; cbv zeta.
  - simpl. repeat split; auto; lia.
  - simpl PokerGame.pay_winners.
    set (acc' := (PokerGame.add_chips w _ (fst acc), _)).
    assert (Hids : map Player.id (fst acc') = map Player.id (fst acc))
      by apply add_chips_ids.
    destruct (IH (idx + 1) acc') as (Ht & Hi & Hw).
    { intros v Hv. rewrite Hids. apply Hin. now right. }
    cbv zeta in Ht, Hi, Hw. rewrite Ht, Hi, Hids.
    split; [|split; [reflexivity|]].
    + unfold acc' at 1. cbn [fst].
      rewrite add_chips_total by (apply Hin; now left).
      change (length (w :: ws)) with (S (length ws)). rewrite Nat2Z.inj_succ.
      destruct (Z.ltb_spec idx remainder); lia.
    + intros v Hv. apply Hw in Hv as [Hv|Hv]; [|right; now right].
      unfold acc' in Hv. cbn [snd] in Hv.
      destruct (PokerGame.str_in w (snd acc)); [now left|].
      apply in_app_iff in Hv as [Hv|[<-|[]]]; [now left|right; now left].
Qed.

Lemma max_strength_in (l : list HandStrength) (b : HandStrength) :
  PokerGame.max_strength l = Some b -> In b l.
Proof.
  destruct l as [|x r]; [discriminate|]. simpl. intros [= <-].
  assert (H : forall r x, In (fold_left
                                (fun best s => if PokerGame.strength_ltb best s then s else best)
                                r x) (x :: r)).
  { clear. induction r as [|y r IH]; intros x; simpl; [now left|].
    destruct (PokerGame.strength_ltb x y).
    - destruct (IH y); [right; now left|right; now right].
    - destruct (IH x); [now left|right; now right]. }
  apply H.
Qed.

Lemma strength_eqb_refl (a : HandStrength) : PokerGame.strength_eqb a a = true.
Proof.
  unfold PokerGame.strength_eqb. rewrite Z.eqb_refl. simpl.
  induction (snd a) as [|x l IH]; simpl; [reflexivity|]. now rewrite Z.eqb_refl.
Qed.

Lemma str_in_In (x : string) (l : list string) : PokerGame.str_in x l = true <-> In x l.
Proof.
  unfold PokerGame.str_in. rewrite existsb_exists. split.
  - intros (y & Hy & E). apply String.eqb_eq in E. now subst.
  - intros H. exists x. split; [exact H|apply String.eqb_refl].
Qed.

(** One side pot is paid out in full when one of its eligible players has
    a hand on record. *)
Lemma distribute_pot_total (hands : list (string * HandStrength))
  (acc : list Player.t * list string) (sp : PokerGame.SidePot) :
  (forall w, In w (map fst hands) -> In w (map Player.id (fst acc))) ->
  (exists w, In w (PokerGame.eligible_players sp) /\ In w (map fst hands)) ->
  let r := PokerGame.distribute_pot hands acc sp in
  total Player.chips (fst r) = total Player.chips (fst acc) + PokerGame.amount sp
  /\ map Player.id (fst r) = map Player.id (fst acc)
  /\ (forall w, In w (snd r) -> In w (snd acc) \/ In w (map fst hands)).
Proof.
  intros Hseated (w0 & Hw0 & Hh0). cbv zeta. unfold PokerGame.distribute_pot.
  set (elig := filter (fun ph => PokerGame.str_in (fst ph) (PokerGame.eligible_players sp))
                      hands).
  assert (Hne : elig <> []).
  { apply in_map_iff in Hh0 as ([w h] & <- & Hin).
    assert (In (w, h) elig) by (apply filter_In; split; [exact Hin|now apply str_in_In]).
    intros E. rewrite E in H. contradiction. }
  destruct (PokerGame.max_strength (map snd elig)) as [best|] eqn:Eb.
  2:{ destruct elig; [congruence|discriminate]. }
  set (winners := map fst (filter (fun ph => PokerGame.strength_eqb (snd ph) best) elig)).
  assert (Hsub : forall w, In w winners -> In w (map fst hands)).
  { intros w Hw. unfold winners in Hw. apply in_map_iff in Hw as (ph & <- & Hph).
    apply filter_In in Hph as [Hph _]. apply filter_In in Hph as [Hph _].
    now apply in_map. }
  assert (Hwne : winners <> []).
  { apply max_strength_in in Eb. apply in_map_iff in Eb as (ph & Hs & Hph).
    assert (In (fst ph) winners).
    { unfold winners. apply in_map. apply filter_In. split; [exact Hph|].
      rewrite Hs. apply strength_eqb_refl. }
    intros E. rewrite E in H. contradiction. }
  destruct winners as [|w1 ws] eqn:Ew; [congruence|].
  rewrite <- Ew in *.
  destruct (pay_winners_total (PokerGame.amount sp / Z.of_nat (length winners))
              (PokerGame.amount sp mod Z.of_nat (length winners)) winners 0 acc)
    as (Ht & Hi & Hw).
  { intros w Hw. apply Hseated. now apply Hsub. }
  cbv zeta in Ht, Hi, Hw. split; [|split].
  - rewrite Ht.
    assert (Hk : 0 < Z.of_nat (length winners)) by (rewrite Ew; simpl; lia).
    pose proof (Z.mod_pos_bound (PokerGame.amount sp) _ Hk).
    pose proof (Z.div_mod (PokerGame.amount sp) (Z.of_nat (length winners))).
    lia.
  - exact Hi.
  - intros w Hin. destruct (Hw w Hin); [now left|right; now apply Hsub].
Qed.

Lemma side_pots_from_eligible (pw : list Player.t) (prev : Z) (bets : list Z) :
  Forall (fun sp => exists w, In w (PokerGame.eligible_players sp)
                              /\ In w (map Player.id pw))
         (PokerGame.side_pots_from pw prev bets).
Proof.
  revert prev. induction bets as [|lv more IH]; intros prev; simpl; [constructor|].
  destruct (filter (fun p => Player.total_bet p >=? lv) pw) as [|p el] eqn:Ef.
  - apply IH.
  - constructor; [|apply IH].
    exists (Player.id p). simpl. split; [now left|].
    apply in_map. apply (proj1 (filter_In (fun p => Player.total_bet p >=? lv) p pw)).
    rewrite Ef. now left.
Qed.

Lemma player_hands_of_ids (ps : list Player.t) (cc : list Card)
  (hands : list (string * HandStrength)) :
  PokerGame.player_hands_of ps cc = Some hands -> map fst hands = map Player.id ps.
Proof.
  revert hands. induction ps as [|p ps IH]; simpl; intros hands.
  - now intros [= <-].
  - destruct (evaluate_hand (Player.cards p) cc) as [h|]; simpl; [|discriminate].
    destruct (PokerGame.player_hands_of ps cc) as [hs|]; simpl; [|discriminate].
    intros [= <-]. simpl. now rewrite (IH hs eq_refl).
Qed.

Lemma distribute_all_total (hands : list (string * HandStrength))
  (pots : list PokerGame.SidePot) :
  forall acc : list Player.t * list string,
    (forall w, In w (map fst hands) -> In w (map Player.id (fst acc))) ->
    Forall (fun sp => exists w, In w (PokerGame.eligible_players sp)
                                /\ In w (map fst hands)) pots ->
    let r := fold_left (PokerGame.distribute_pot hands) pots acc in
    total Player.chips (fst r)
    = total Player.chips (fst acc)
      + fold_right (fun sp a => PokerGame.amount sp + a) 0 pots
    /\ map Player.id (fst r) = map Player.id (fst acc)
    /\ (forall w, In w (snd r) -> In w (snd acc) \/ In w (map fst hands)).
Proof.
  induction pots as [|sp pots IH]; intros acc Hseated Hpots; cbv zeta.
  - simpl. repeat split; auto; lia.
  - inversion Hpots as [|? ? Hsp Hrest]; subst.
    destruct (distribute_pot_total hands acc sp Hseated Hsp) as (Ht & Hi & Hw).
    cbv zeta in Ht, Hi, Hw. simpl fold_left.
    destruct (IH (PokerGame.distribute_pot hands acc sp)) as (Ht' & Hi' & Hw').
    { intros w Hin. rewrite Hi. now apply Hseated. }
    { exact Hrest. }
    cbv zeta in Ht', Hi', Hw'. rewrite Ht', Hi', Ht. simpl fold_right.
    split; [lia|]. split; [exact Hi|].
    intros w Hin. destruct (Hw' w Hin) as [H|H]; [|now right]. now apply Hw.
Qed.

(** Stacks and pot after [determine_winners]. *)
Lemma determine_winners_total (g g' : PokerGame.t) (winners : list string) :
  PokerGame.determine_winners g = Some (g', winners) ->
  let live := filter (fun p => negb (Player.is_folded p)) (PokerGame.players g) in
  (live = [] -> g' = g /\ winners = [])
  /\ (forall w, live = [w] ->
        winners = [Player.id w] /\ PokerGame.pot g' = 0
        /\ total Player.chips (PokerGame.players g')
           = total Player.chips (PokerGame.players g) + PokerGame.pot g)
  /\ ((2 <= length live)%nat ->
        PokerGame.pot g' = 0
        /\ total Player.chips (PokerGame.players g')
           = total Player.chips (PokerGame.players g) + total Player.total_bet live)
  /\ map Player.id (PokerGame.players g') = map Player.id (PokerGame.players g)
  /\ (forall w, In w winners -> exists p, In p live /\ Player.id p = w).
Proof.
  unfold PokerGame.determine_winners. cbv zeta.
  set (live := filter (fun p => negb (Player.is_folded p)) (PokerGame.players g)).
  assert (Hlive : forall p, In p live -> In (Player.id p) (map Player.id (PokerGame.players g))).
  { intros p Hp. apply filter_In in Hp as [Hp _]. now apply in_map. }
  destruct live as [|w [|w2 rest]] eqn:El.
  - intros [= <- <-]. split; [auto|]. split; [discriminate|].
    split; [simpl; lia|]. split; [reflexivity|]. intros w [].
  - intros [= <- <-]. simpl PokerGame.players. simpl PokerGame.pot.
    split; [discriminate|]. split; [|split; [simpl; lia|split]].
    + intros w' [= <-]. repeat split.
      apply add_chips_total. apply Hlive. now left.
    + apply add_chips_ids.
    + intros v [<-|[]]. exists w. split; [now left|reflexivity].
  - rewrite <- El in *.
    destruct (PokerGame.player_hands_of live (PokerGame.community_cards g)) as [hands|] eqn:Eh;
      simpl bind; [|discriminate].
    intros [= <- <-]. simpl PokerGame.players. simpl PokerGame.pot.
    pose proof (player_hands_of_ids _ _ _ Eh) as Hids.
    destruct (distribute_all_total hands (PokerGame.side_pots live) (PokerGame.players g, []))
      as (Ht & Hi & Hw).
    { intros v Hv. rewrite Hids in Hv. simpl. apply in_map_iff in Hv as (p & <- & Hp).
      now apply Hlive. }
    { rewrite Hids. apply side_pots_from_eligible. }
    cbv zeta in Ht, Hi, Hw. simpl fst in Ht, Hi. simpl snd in Hw.
    split; [intros E; rewrite E in El; discriminate|].
    split; [intros w' E; rewrite E in El; discriminate|].
    split; [|split].
    + intros _. split; [reflexivity|].
      rewrite Ht. f_equal. apply side_pots_sum.
    + exact Hi.
    + intros v Hv. destruct (Hw v Hv) as [[]|Hin].
      rewrite Hids in Hin. apply in_map_iff in Hin as (p & <- & Hp). now exists p.
Qed.

(** X20.  What [determine_winners] pays.  With no player left in the hand
    it changes nothing and names no winner.  With one player left, that
    player is the winner and the stacks grow by the pot.  With two or more
    left, the stacks grow by exactly the hand bets of the players still in
    the hand, whatever the pot holds.  In the last two cases the pot ends
    at zero; the seats and their ids are as before and every winner named
    is a player who has not folded. *)
Theorem determine_winners_pays (g g' : PokerGame.t) (winners : list string) :
  PokerGame.determine_winners g = Some (g', winners) ->
  let live := filter (fun p => negb (Player.is_folded p)) (PokerGame.players g) in
  (live = [] -> g' = g /\ winners = [])
  /\ (forall w, live = [w] ->
        winners = [Player.id w] /\ PokerGame.pot g' = 0
        /\ total Player.chips (PokerGame.players g')
           = total Player.chips (PokerGame.players g) + PokerGame.pot g)
  /\ ((2 <= length live)%nat ->
        PokerGame.pot g' = 0
        /\ total Player.chips (PokerGame.players g')
           = total Player.chips (PokerGame.players g) + total Player.total_bet live)
  /\ map Player.id (PokerGame.players g') = map Player.id (PokerGame.players g)
  /\ (forall w, In w winners -> exists p, In p live /\ Player.id p = w).
Proof. exact (determine_winners_total g g' winners). Qed.

Lemma determine_winners_pays_witness :
  exists g',
    PokerGame.determine_winners showdown_with_fold = Some (g', ["b"]%string)
    /\ total Player.chips (PokerGame.players g')
       = total Player.chips (PokerGame.players showdown_with_fold) + 200.
Proof.
  eexists. split; [vm_compute; reflexivity|].
  match goal with
  | |- total Player.chips (PokerGame.players ?t) = _ =>
      destruct (determine_winners_pays showdown_with_fold t ["b"]%string)
        as (_ & _ & H2 & _); [vm_compute; reflexivity|]
  end.
  destruct H2 as [_ H2]; [vm_compute; lia|]. rewrite H2. reflexivity.
Defined.

(** ** Hand evaluation *)

Lemma dict_incr_keys (k k' : Z) (d : list (Z * Z)) :
  In k (map fst (dict_incr Z.eqb k' d)) <-> k = k' \/ In k (map fst d).
Proof.
  induction d as [|[a v] d IH]; simpl; [intuition|].
  destruct (Z.eqb_spec a k') as [->|Hne]; simpl; [intuition|].
  rewrite IH. intuition.
Qed.

Lemma rank_dict_keys (cards : list Card) (d : list (Z * Z)) (k : Z) :
  In k (map fst (fold_left (fun d c => dict_incr Z.eqb (get_value c) d) cards d))
  <-> In k (map get_value cards) \/ In k (map fst d).
Proof.
  revert d. induction cards as [|c cards IH]; intros d; simpl; [tauto|].
  rewrite IH, dict_incr_keys. intuition.
Qed.

Lemma two_members_length {A : Type} (a b : A) (l : list A) :
  In a l -> In b l -> a <> b -> (2 <= length l)%nat.
Proof.
  destruct l as [|x [|y l]]; simpl; try tauto; [|lia].
  intros [<-|[]] [<-|[]] H. congruence.
Qed.

(** X21.  [evaluate_hand] raises no error and answers a category from 0
    to 9 whenever the hole and community cards together show two different
    ranks; any answer it gives has its category in that range. *)
Theorem evaluate_hand_answers (player_cards community_cards : list Card) :
  (forall x y, In x (player_cards ++ community_cards) ->
               In y (player_cards ++ community_cards) ->
               get_value x <> get_value y ->
               exists category tiebreak,
                 evaluate_hand player_cards community_cards = Some (category, tiebreak))
  /\ (forall category tiebreak,
        evaluate_hand player_cards community_cards = Some (category, tiebreak) ->
        0 <= category <= 9).
Proof.
  unfold evaluate_hand. cbv zeta.
  set (all_cards := sort_by _ (player_cards ++ community_cards)).
  set (rcs := sort_by count_rank_above _).
  split.
  - intros x y Hx Hy Hne.
    assert (Hlen : (2 <= length rcs)%nat).
    { unfold rcs. rewrite sort_by_length.
      rewrite <- (length_map fst).
      apply (two_members_length (get_value x) (get_value y)); [| |exact Hne];
        apply rank_dict_keys; left; apply in_map; unfold all_cards;
        now apply sort_by_In. }
    destruct rcs as [|rc0 [|rc1 rest]]; simpl in Hlen; try lia.
    unfold bind. simpl nth_error.
    repeat match goal with
           | |- context [if ?c then _ else _] => destruct c
           | |- context [match find_run ?l with _ => _ end] => destruct (find_run l)
           end; eauto.
  - intros category tiebreak. unfold bind.
    destruct rcs as [|rc0 [|rc1 rest]]; simpl nth_error;
    repeat match goal with
           | |- context [if ?c then _ else _] => destruct c
           | |- context [match find_run ?l with _ => _ end] => destruct (find_run l)
           end; intros H; try discriminate; injection H as <- _; lia.
Qed.

Lemma evaluate_hand_answers_witness :
  exists category tiebreak,
    evaluate_hand [card heart r2] [card heart r3] = Some (category, tiebreak).
Proof.
  apply (proj1 (evaluate_hand_answers [card heart r2] [card heart r3])
           (card heart r2) (card heart r3));
    [now left | right; now left | discriminate].
Defined.

(** ** A new hand *)

Lemma deal_round_spec (ps : list Player.t) (d : list Card) :
  length (fst (PokerGame.deal_round ps d)) = length ps
  /\ rev (snd (PokerGame.deal_round ps d)) = skipn (length ps) (rev d)
  /\ forall i p, nth_error ps i = Some p ->
       nth_error (fst (PokerGame.deal_round ps d)) i
       = Some (Player.set_cards (Player.cards p ++ card_at (rev d) i) p).
Proof.
  revert d. induction ps as [|q ps IH]; intros d.
  - simpl. repeat split; auto. intros [|i] p; discriminate.
  - simpl PokerGame.deal_round. rewrite pop_rev.
    destruct (rev d) as [|x r] eqn:Er.
    + destruct (IH d) as (Hl & Hd & Hc). simpl. rewrite Hl, Hd, Er.
      repeat split; auto.
      * now destruct (length ps).
      * intros [|i] p Hp; simpl in *.
        -- injection Hp as <-. unfold card_at. simpl. rewrite app_nil_r.
           now destruct q.
        -- rewrite (Hc i p Hp), Er. unfold card_at. now destruct i.
    + destruct (IH (rev r)) as (Hl & Hd & Hc). simpl. rewrite Hl, Hd, rev_involutive.
      repeat split; auto.
      intros [|i] p Hp; simpl in *.
      * now injection Hp as <-.
      * rewrite (Hc i p Hp), rev_involutive. reflexivity.
Qed.

Lemma has_chips_at_in (ps : list Player.t) (p : Player.t) :
  In p ps -> (Player.chips p >? 0) = true ->
  exists j, 0 <= j < Z.of_nat (length ps) /\ PokerGame.has_chips_at ps j = true.
Proof.
  intros H Hc. apply In_nth_error in H as [i Hi].
  exists (Z.of_nat i). split.
  - assert (i < length ps)%nat by (apply nth_error_Some; congruence). lia.
  - unfold PokerGame.has_chips_at. now rewrite Nat2Z.id, Hi.
Qed.

Lemma blind_seats_in_range (n d : nat) :
  (2 <= n)%nat -> (sb_seat n d < n \/ sb_seat n d = d)%nat /\ (bb_seat n d < n)%nat.
Proof.
  intros Hn. unfold sb_seat, bb_seat.
  destruct (n =? 2)%nat; split; auto; try (left; apply Nat.mod_upper_bound; lia);
    apply Nat.mod_upper_bound; lia.
Qed.

(** The two hole-card rounds of [start_new_hand] on the reset players. *)
Lemma deal_two_rounds (ps : list Player.t) (d : list Card) :
  let r1 := PokerGame.deal_round (map PokerGame.reset_for_hand ps) d in
  let r2 := PokerGame.deal_round (fst r1) (snd r1) in
  length (fst r2) = length ps
  /\ rev (snd r2) = skipn (2 * length ps) (rev d)
  /\ forall i p, nth_error ps i = Some p ->
       nth_error (fst r2) i
       = Some (Player.set_cards (card_at (rev d) i ++ card_at (rev d) (length ps + i))
                                (PokerGame.reset_for_hand p)).
Proof.
  cbv zeta.
  destruct (deal_round_spec (map PokerGame.reset_for_hand ps) d) as (Hl1 & Hd1 & Hc1).
  destruct (deal_round_spec (fst (PokerGame.deal_round (map PokerGame.reset_for_hand ps) d))
              (snd (PokerGame.deal_round (map PokerGame.reset_for_hand ps) d)))
    as (Hl2 & Hd2 & Hc2).
  rewrite length_map in *.
  split; [congruence|]. split.
  - rewrite Hd2, Hd1, Hl1, skipn_skipn. f_equal. lia.
  - intros i p Hp.
    assert (Hp' : nth_error (map PokerGame.reset_for_hand ps) i
                  = Some (PokerGame.reset_for_hand p))
      by (now rewrite nth_error_map, Hp).
    assert (E : card_at (skipn (length ps) (rev d)) i = card_at (rev d) (length ps + i))
      by (unfold card_at; now rewrite nth_error_skipn).
    rewrite (Hc2 i _ (Hc1 i _ Hp')), Hd1, E.
    unfold Player.set_cards, PokerGame.reset_for_hand. simpl. reflexivity.
Qed.

Lemma funded_seat_found (g : PokerGame.t) (start : Z) :
  (1 <= funded g)%nat ->
  exists d : nat,
    find (PokerGame.has_chips_at (PokerGame.players g))
         (map (fun i => (start + Z.of_nat i) mod PokerGame.num_players g)
              (seq 0 (length (PokerGame.players g))))
    = Some (Z.of_nat d)
    /\ (d < length (PokerGame.players g))%nat
    /\ PokerGame.has_chips_at (PokerGame.players g) (Z.of_nat d) = true
    /\ exists k : nat,
         Z.of_nat d = (start + Z.of_nat k) mod PokerGame.num_players g
         /\ forall k', (k' < k)%nat ->
              PokerGame.has_chips_at (PokerGame.players g)
                ((start + Z.of_nat k') mod PokerGame.num_players g) = false.
Proof.
  intros Hf. unfold funded in Hf.
  destruct (filter _ _) as [|p rest] eqn:Ef in Hf; [simpl in Hf; lia|].
  assert (Hp : In p (filter (fun p => Player.chips p >? 0) (PokerGame.players g)))
    by (rewrite Ef; now left).
  apply filter_In in Hp as [Hp Hc].
  destruct (has_chips_at_in _ p Hp Hc) as (j & Hj & Hjc).
  assert (Hn : 0 < PokerGame.num_players g) by (unfold PokerGame.num_players; lia).
  destruct (find _ _) as [dz|] eqn:Efind.
  - apply find_map_seq_first in Efind as (k & Hk & Hd & Hcan & Hfirst).
    assert (Hr : 0 <= dz < PokerGame.num_players g)
      by (rewrite Hd; apply Z.mod_pos_bound; lia).
    exists (Z.to_nat dz). rewrite Z2Nat.id by lia.
    split; [reflexivity|]. split; [unfold PokerGame.num_players in Hr; lia|].
    split; [exact Hcan|]. exists k. split; [exact Hd|].
    intros k' Hk'. apply Hfirst. lia.
  - exfalso.
    destruct (cyclic_cover (PokerGame.num_players g) start j Hn Hj) as (i & Hi & Hij).
    pose proof (find_map_seq_none _ _ 0 (length (PokerGame.players g)) Efind i) as Hnone.
    cbv beta in Hnone. rewrite Hij, Hjc in Hnone.
    unfold PokerGame.num_players in Hi.
    assert (true = false) by (apply Hnone; lia). discriminate.
Qed.

Lemma get_index_players_only (a b : PokerGame.t) (start offset : Z) :
  PokerGame.players a = PokerGame.players b ->
  PokerGame._get_player_index_after_dealer a start offset
  = PokerGame._get_player_index_after_dealer b start offset.
Proof.
  intros E. unfold PokerGame._get_player_index_after_dealer, PokerGame.num_players.
  now rewrite E.
Qed.

Lemma start_new_hand_steps (g : PokerGame.t) (shuffled : list Card) :
  PokerGame.start_new_hand g shuffled
  = if (funded g <? 2)%nat then Some (PokerGame.set_game_state WAITING g, false)
    else
      match find (PokerGame.has_chips_at (PokerGame.players g))
                 (map (fun i => (PokerGame.dealer_position g + 1 + Z.of_nat i)
                                mod PokerGame.num_players g)
                      (seq 0 (length (PokerGame.players g)))) with
      | None => Some (cleared_table g shuffled, false)
      | Some d => open_betting (dealt_table (cleared_table g shuffled) d)
      end.
Proof.
  unfold PokerGame.start_new_hand, open_betting, dealt_table, cleared_table, funded.
  cbv zeta. reflexivity.
Qed.

Lemma dealt_table_fields (g : PokerGame.t) (shuffled : list Card) (d : Z) :
  let h := dealt_table (cleared_table g shuffled) d in
  let r1 := PokerGame.deal_round (map PokerGame.reset_for_hand (PokerGame.players g))
                                 shuffled in
  let r2 := PokerGame.deal_round (fst r1) (snd r1) in
  PokerGame.players h = fst r2
  /\ PokerGame.deck h = snd r2
  /\ PokerGame.dealer_position h = d
  /\ PokerGame.small_blind h = PokerGame.small_blind g
  /\ PokerGame.big_blind h = PokerGame.big_blind g
  /\ PokerGame.pot h = 0
  /\ PokerGame.community_cards h = []
  /\ PokerGame.action_history h = [].
Proof.
  unfold dealt_table, cleared_table. cbv zeta.
  cbn [PokerGame.players PokerGame.deck PokerGame.dealer_position PokerGame.small_blind
       PokerGame.big_blind PokerGame.pot PokerGame.community_cards
       PokerGame.action_history PokerGame.set_players PokerGame.set_deck
       PokerGame.set_dealer_position PokerGame.set_last_raiser
       PokerGame.set_action_history PokerGame.set_current_bet PokerGame.set_pot
       PokerGame.set_community_cards].
  repeat split; reflexivity.
Qed.

Lemma open_betting_shape (h : PokerGame.t) (n d : nat) (sb bb : Player.t) :
  length (PokerGame.players h) = n ->
  PokerGame.dealer_position h = Z.of_nat d ->
  (d < n)%nat -> (2 <= n)%nat ->
  nth_error (PokerGame.players h) (sb_seat n d) = Some sb ->
  nth_error (PokerGame.players h) (bb_seat n d) = Some bb ->
  exists g',
    open_betting h = Some (g', true)
    /\ PokerGame.players g'
       = update_seat (bb_seat n d) (posted (PokerGame.big_blind h))
           (update_seat (sb_seat n d) (posted (PokerGame.small_blind h)) (PokerGame.players h))
    /\ PokerGame.deck g' = PokerGame.deck h
    /\ PokerGame.community_cards g' = PokerGame.community_cards h
    /\ PokerGame.pot g'
       = PokerGame.pot h + Z.min (PokerGame.small_blind h) (Player.chips sb)
         + Z.min (PokerGame.big_blind h) (Player.chips bb)
    /\ PokerGame.current_bet g' = Player.current_bet (posted (PokerGame.big_blind h) bb)
    /\ PokerGame.last_raiser g' = Some (Player.id bb)
    /\ PokerGame.dealer_position g' = Z.of_nat d
    /\ PokerGame.game_state g' = PRE_FLOP
    /\ PokerGame.action_history g' = PokerGame.action_history h
    /\ PokerGame.current_player_index g'
       = PokerGame._get_player_index_after_dealer g' (Z.of_nat d) 3.
Proof.
  intros Hlen Hdealer Hd Hn Hsb Hbb.
  unfold open_betting.
  rewrite (post_blinds_at h n d Hlen Hdealer Hd Hn sb bb Hsb Hbb).
  simpl bind. cbv zeta.
  set (hb := PokerGame.set_game_state PRE_FLOP _).
  rewrite Hdealer.
  set (f3 := PokerGame._get_player_index_after_dealer hb (Z.of_nat d) 3).
  set (f0 := PokerGame._get_player_index_after_dealer hb (Z.of_nat d) 0).
  assert (Hfirst3 : (if f3 =? -1 then f0 else f3) = f3).
  { destruct (Z.eqb_spec f3 (-1)) as [E|E]; [|reflexivity].
    rewrite E. apply (proj1 (first_able_seat hb _ 0)).
    apply (proj1 (first_able_seat hb (Z.of_nat d) 3)).
    exact E. }
  rewrite Hfirst3.
  eexists. split; [reflexivity|].
  repeat (split; [reflexivity || exact Hdealer|]).
  cbn [PokerGame.current_player_index PokerGame.set_current_player_index].
  unfold f3 at 1. apply get_index_players_only. reflexivity.
Qed.

(** The table that an accepted [start_new_hand] builds. *)
Lemma start_new_hand_shape (g : PokerGame.t) (shuffled : list Card) :
  (2 <= funded g)%nat ->
  exists (d : nat) (sb bb : Player.t) (g' : PokerGame.t),
    let n := length (PokerGame.players g) in
    let r1 := PokerGame.deal_round (map PokerGame.reset_for_hand (PokerGame.players g))
                                   shuffled in
    let r2 := PokerGame.deal_round (fst r1) (snd r1) in
    PokerGame.start_new_hand g shuffled = Some (g', true)
    /\ (d < n)%nat /\ (2 <= n)%nat
    /\ PokerGame.has_chips_at (PokerGame.players g) (Z.of_nat d) = true
    /\ (exists k : nat,
          Z.of_nat d = (PokerGame.dealer_position g + 1 + Z.of_nat k)
                       mod PokerGame.num_players g
          /\ forall k', (k' < k)%nat ->
               PokerGame.has_chips_at (PokerGame.players g)
                 ((PokerGame.dealer_position g + 1 + Z.of_nat k')
                  mod PokerGame.num_players g) = false)
    /\ nth_error (fst r2) (sb_seat n d) = Some sb
    /\ nth_error (fst r2) (bb_seat n d) = Some bb
    /\ PokerGame.players g'
       = update_seat (bb_seat n d) (posted (PokerGame.big_blind g))
           (update_seat (sb_seat n d) (posted (PokerGame.small_blind g)) (fst r2))
    /\ PokerGame.deck g' = snd r2
    /\ PokerGame.community_cards g' = []
    /\ PokerGame.pot g'
       = Z.min (PokerGame.small_blind g) (Player.chips sb)
         + Z.min (PokerGame.big_blind g) (Player.chips bb)
    /\ PokerGame.current_bet g' = Player.current_bet (posted (PokerGame.big_blind g) bb)
    /\ PokerGame.last_raiser g' = Some (Player.id bb)
    /\ PokerGame.dealer_position g' = Z.of_nat d
    /\ PokerGame.game_state g' = PRE_FLOP
    /\ PokerGame.action_history g' = []
    /\ PokerGame.current_player_index g'
       = PokerGame._get_player_index_after_dealer g' (Z.of_nat d) 3.
Proof.
  intros Hf.
  destruct (funded_seat_found g (PokerGame.dealer_position g + 1) ltac:(lia))
    as (d & Hfind & Hd & Hchips & Hfirst).
  assert (Hn : (2 <= length (PokerGame.players g))%nat).
  { unfold funded in Hf. pose proof (filter_length_le (fun p => Player.chips p >? 0)
                                       (PokerGame.players g)). lia. }
  assert (Hstart : PokerGame.start_new_hand g shuffled
                   = open_betting (dealt_table (cleared_table g shuffled) (Z.of_nat d))).
  { rewrite start_new_hand_steps.
    destruct (Nat.ltb_spec (funded g) 2) as [|_]; [lia|].
    rewrite Hfind. reflexivity. }
  destruct (dealt_table_fields g shuffled (Z.of_nat d))
    as (Hps & Hdk & Hdp & Hsbl & Hbbl & Hpot & Hcc & Hah).
  destruct (deal_two_rounds (PokerGame.players g) shuffled) as (Hl2 & Hd2 & Hc2).
  cbv zeta in *.
  set (h := dealt_table (cleared_table g shuffled) (Z.of_nat d)) in *.
  set (r1 := PokerGame.deal_round (map PokerGame.reset_for_hand (PokerGame.players g))
                                  shuffled) in *.
  set (r2 := PokerGame.deal_round (fst r1) (snd r1)) in *.
  set (n := length (PokerGame.players g)) in *.
  destruct (blind_seats_in_range n d Hn) as [Hsbr Hbbr].
  assert (Hsb : exists sb, nth_error (fst r2) (sb_seat n d) = Some sb).
  { destruct (nth_error (fst r2) (sb_seat n d)) eqn:E; [eauto|].
    apply nth_error_None in E. lia. }
  assert (Hbb : exists bb, nth_error (fst r2) (bb_seat n d) = Some bb).
  { destruct (nth_error (fst r2) (bb_seat n d)) eqn:E; [eauto|].
    apply nth_error_None in E. lia. }
  destruct Hsb as [sb Hsb]. destruct Hbb as [bb Hbb].
  destruct (open_betting_shape h n d sb bb) as (g' & Hopen & Hrest);
    try (rewrite Hps); auto; try lia.
  exists d, sb, bb, g'.
  rewrite Hstart.
  rewrite Hps, Hdk, Hsbl, Hbbl, Hpot, Hcc, Hah in Hrest.
  destruct Hrest as (H1 & H2 & H3 & H4 & H5 & H6 & H7 & H8 & H9 & H10).
  repeat (split; [assumption|]). exact H10.
Qed.

Lemma start_new_hand_true_funded (g g' : PokerGame.t) (shuffled : list Card) :
  PokerGame.start_new_hand g shuffled = Some (g', true) -> (2 <= funded g)%nat.
Proof.
  rewrite start_new_hand_steps.
  destruct (Nat.ltb_spec (funded g) 2) as [Hlt|Hge]; [discriminate|lia].
Qed.

(** What an accepted [start_new_hand] leaves at each seat. *)
Lemma start_new_hand_seat (g g' : PokerGame.t) (shuffled : list Card) :
  PokerGame.start_new_hand g shuffled = Some (g', true) ->
  exists d : nat,
    let n := length (PokerGame.players g) in
    (d < n)%nat /\ (2 <= n)%nat
    /\ PokerGame.dealer_position g' = Z.of_nat d
    /\ length (PokerGame.players g') = n
    /\ forall i p, nth_error (PokerGame.players g) i = Some p ->
         nth_error (PokerGame.players g') i
         = Some (let q := Player.set_cards
                            (card_at (rev shuffled) i ++ card_at (rev shuffled) (n + i))
                            (PokerGame.reset_for_hand p) in
                 if (i =? bb_seat n d)%nat then posted (PokerGame.big_blind g) q
                 else if (i =? sb_seat n d)%nat then posted (PokerGame.small_blind g) q
                 else q).
Proof.
  intros H.
  destruct (start_new_hand_shape g shuffled (start_new_hand_true_funded _ _ _ H))
    as (d & sb & bb & g2 & Hshape).
  cbv zeta in Hshape.
  destruct Hshape as (Hs & Hd & Hn & _ & _ & Hsb & Hbb & Hps & _ & _ & _ & _ & _ & Hdp & _).
  rewrite H in Hs. injection Hs as <-.
  destruct (deal_two_rounds (PokerGame.players g) shuffled) as (Hl2 & _ & Hc2).
  cbv zeta in Hl2, Hc2.
  exists d. cbv zeta. split; [exact Hd|]. split; [exact Hn|]. split; [exact Hdp|].
  split; [rewrite Hps, !length_update_seat; exact Hl2|].
  intros i p Hp. rewrite Hps.
  pose proof (blind_seats_differ _ _ Hn Hd) as Hne.
  destruct (Nat.eqb_spec i (bb_seat (length (PokerGame.players g)) d)) as [->|Hib].
  - rewrite (nth_error_update_seat_eq _ _ _ bb).
    + rewrite (Hc2 _ _ Hp) in Hbb. injection Hbb as <-. reflexivity.
    + rewrite nth_error_update_seat_ne by exact Hne. exact Hbb.
  - rewrite nth_error_update_seat_ne by congruence.
    destruct (Nat.eqb_spec i (sb_seat (length (PokerGame.players g)) d)) as [->|His].
    + rewrite (nth_error_update_seat_eq _ _ _ sb Hsb).
      rewrite (Hc2 _ _ Hp) in Hsb. injection Hsb as <-. reflexivity.
    + rewrite nth_error_update_seat_ne by congruence. exact (Hc2 _ _ Hp).
Qed.

Lemma total_pointwise_to (w w' : Player.t -> Z) (l l' : list Player.t) :
  length l' = length l ->
  (forall i p, nth_error l i = Some p ->
     exists p', nth_error l' i = Some p' /\ w' p' = w p) ->
  total w' l' = total w l.
Proof.
  revert l'. induction l as [|x l IH]; intros [|y l'] Hlen H; simpl in *;
    try discriminate; auto.
  destruct (H O x eq_refl) as (p' & Hp' & Hw). simpl in Hp'. injection Hp' as ->.
  rewrite Hw. f_equal. apply IH; [lia|].
  intros i p Hp. exact (H (S i) p Hp).
Qed.

(** The money on the table after an accepted [start_new_hand]. *)
Lemma start_new_hand_money (g g' : PokerGame.t) (shuffled : list Card) (d : nat) :
  PokerGame.start_new_hand g shuffled = Some (g', true) ->
  PokerGame.dealer_position g' = Z.of_nat d ->
  let n := length (PokerGame.players g) in
  exists sbp bbp : Player.t,
    nth_error (PokerGame.players g) (sb_seat n d) = Some sbp
    /\ nth_error (PokerGame.players g) (bb_seat n d) = Some bbp
    /\ PokerGame.pot g'
       = Z.min (PokerGame.small_blind g) (Player.chips sbp)
         + Z.min (PokerGame.big_blind g) (Player.chips bbp)
    /\ PokerGame.current_bet g' = Z.min (PokerGame.big_blind g) (Player.chips bbp)
    /\ PokerGame.last_raiser g' = Some (Player.id bbp)
    /\ PokerGame.game_state g' = PRE_FLOP
    /\ PokerGame.community_cards g' = []
    /\ PokerGame.action_history g' = []
    /\ rev (PokerGame.deck g') = skipn (2 * n) (rev shuffled)
    /\ PokerGame.current_player_index g'
       = PokerGame._get_player_index_after_dealer g' (Z.of_nat d) 3.
Proof.
  intros H Hdp.
  destruct (start_new_hand_shape g shuffled (start_new_hand_true_funded _ _ _ H))
    as (d' & sb & bb & g2 & Hshape).
  cbv zeta in Hshape.
  destruct Hshape as (Hs & Hd & Hn & _ & _ & Hsb & Hbb & Hps & Hdeck & Hcc & Hpot & Hcb
                      & Hlr & Hdp' & Hst & Hah & Hcpi).
  rewrite H in Hs. injection Hs as <-.
  assert (d' = d) by lia. subst d'.
  destruct (deal_two_rounds (PokerGame.players g) shuffled) as (Hl2 & Hd2 & Hc2).
  cbv zeta in Hl2, Hd2, Hc2. cbv zeta.
  destruct (blind_seats_in_range (length (PokerGame.players g)) d Hn) as [Hsbr Hbbr].
  destruct (nth_error (PokerGame.players g) (sb_seat (length (PokerGame.players g)) d))
    as [sbp|] eqn:Esb; [|apply nth_error_None in Esb; lia].
  destruct (nth_error (PokerGame.players g) (bb_seat (length (PokerGame.players g)) d))
    as [bbp|] eqn:Ebb; [|apply nth_error_None in Ebb; lia].
  rewrite (Hc2 _ _ Esb) in Hsb. injection Hsb as <-.
  rewrite (Hc2 _ _ Ebb) in Hbb. injection Hbb as <-.
  exists sbp, bbp.
  split; [reflexivity|]. split; [reflexivity|].
  split; [exact Hpot|]. split; [rewrite Hcb; reflexivity|].
  split; [exact Hlr|]. split; [exact Hst|]. split; [exact Hcc|]. split; [exact Hah|].
  split; [rewrite Hdeck; exact Hd2|]. exact Hcpi.
Qed.

(** Pot and stacks after an accepted [start_new_hand]. *)
Lemma start_new_hand_totals (g g' : PokerGame.t) (shuffled : list Card) :
  PokerGame.start_new_hand g shuffled = Some (g', true) ->
  PokerGame.pot g' = total Player.total_bet (PokerGame.players g')
  /\ total Player.chips (PokerGame.players g') + PokerGame.pot g'
     = total Player.chips (PokerGame.players g).
Proof.
  intros H.
  destruct (start_new_hand_shape g shuffled (start_new_hand_true_funded _ _ _ H))
    as (d & sb & bb & g2 & Hshape).
  cbv zeta in Hshape.
  destruct Hshape as (Hs & Hd & Hn & _ & _ & Hsb & Hbb & Hps & _ & _ & Hpot & _).
  rewrite H in Hs. injection Hs as <-.
  destruct (deal_two_rounds (PokerGame.players g) shuffled) as (Hl2 & _ & Hc2).
  cbv zeta in Hl2, Hc2.
  pose proof (blind_seats_differ _ _ Hn Hd) as Hne.
  set (l := fst (PokerGame.deal_round _ _)) in *.
  assert (Htb0 : total Player.total_bet l = 0).
  { rewrite (total_pointwise_to (fun _ => 0) Player.total_bet (PokerGame.players g) l Hl2).
    - clear. induction (PokerGame.players g); simpl; lia.
    - intros i p Hp. eexists. split; [exact (Hc2 i p Hp)|reflexivity]. }
  assert (Hch : total Player.chips l = total Player.chips (PokerGame.players g)).
  { apply total_pointwise_to; [exact Hl2|].
    intros i p Hp. eexists. split; [exact (Hc2 i p Hp)|reflexivity]. }
  assert (Hsb0 : Player.total_bet sb = 0).
  { destruct (nth_error (PokerGame.players g) (sb_seat (length (PokerGame.players g)) d))
      as [p|] eqn:E.
    - rewrite (Hc2 _ _ E) in Hsb. injection Hsb as <-. reflexivity.
    - apply nth_error_None in E. apply (f_equal (@length _)) in Hps.
      assert (sb_seat (length (PokerGame.players g)) d < length l)%nat
        by (apply nth_error_Some; congruence). lia. }
  assert (Hbb0 : Player.total_bet bb = 0).
  { destruct (nth_error (PokerGame.players g) (bb_seat (length (PokerGame.players g)) d))
      as [p|] eqn:E.
    - rewrite (Hc2 _ _ E) in Hbb. injection Hbb as <-. reflexivity.
    - apply nth_error_None in E.
      assert (bb_seat (length (PokerGame.players g)) d < length l)%nat
        by (apply nth_error_Some; congruence). lia. }
  assert (Hbb2 : nth_error (update_seat (sb_seat (length (PokerGame.players g)) d)
                              (posted (PokerGame.small_blind g)) l)
                           (bb_seat (length (PokerGame.players g)) d) = Some bb)
    by (rewrite nth_error_update_seat_ne by exact Hne; exact Hbb).
  rewrite Hps, Hpot. unfold total in *.
  rewrite (update_seat_total Player.total_bet _ _ _ bb Hbb2).
  rewrite (update_seat_total Player.total_bet _ _ _ sb Hsb).
  rewrite (update_seat_total Player.chips _ _ _ bb Hbb2).
  rewrite (update_seat_total Player.chips _ _ _ sb Hsb).
  rewrite Htb0, Hch.
  cbn [posted Player.total_bet Player.chips Player.put_in Player.set_has_acted_this_round
       Player.set_total_bet Player.set_current_bet Player.set_chips].
  lia.
Qed.

(** X22.  [start_new_hand] never raises.  It answers True exactly when at
    least two seated players hold chips.  When it answers False the only
    change to the table is [game_state = WAITING]: pot, bets, cards and
    dealer stay as the previous hand left them.  When it answers True the
    table is in PRE_FLOP with no community cards, an empty action log and
    the same number of seats. *)
Theorem start_new_hand_answer (g : PokerGame.t) (shuffled : list Card) :
  exists (g' : PokerGame.t) (b : bool),
    PokerGame.start_new_hand g shuffled = Some (g', b)
    /\ (b = true <-> (2 <= funded g)%nat)
    /\ (b = false -> g' = PokerGame.set_game_state WAITING g)
    /\ (b = true ->
        PokerGame.game_state g' = PRE_FLOP
        /\ PokerGame.community_cards g' = []
        /\ PokerGame.action_history g' = []
        /\ length (PokerGame.players g') = length (PokerGame.players g)).
Proof.
  destruct (Nat.ltb_spec (funded g) 2) as [Hlt|Hge].
  - exists (PokerGame.set_game_state WAITING g), false.
    rewrite start_new_hand_steps.
    destruct (Nat.ltb_spec (funded g) 2) as [_|]; [|lia].
    split; [reflexivity|]. split; [split; [discriminate|lia]|].
    split; [reflexivity|discriminate].
  - destruct (start_new_hand_shape g shuffled Hge) as (d & sb & bb & g' & Hshape).
    cbv zeta in Hshape. destruct Hshape as (Hs & _ & _ & _ & _ & _ & _ & _ & _ & _ & _ & _ & _ & Hdp & _).
    destruct (start_new_hand_seat g g' shuffled Hs) as (d2 & _ & _ & _ & Hlen & _).
    destruct (start_new_hand_money g g' shuffled d Hs Hdp)
      as (sbp & bbp & _ & _ & _ & _ & _ & Hst & Hcc & Hah & _).
    exists g', true. split; [exact Hs|]. split; [split; auto|].
    split; [discriminate|]. intros _. auto.
Qed.

(** X23.  An accepted [start_new_hand] moves the dealer button to the first
    seat after the previous dealer, walking the seats cyclically, whose
    player holds chips; seats without chips are skipped. *)
Theorem start_new_hand_dealer (g g' : PokerGame.t) (shuffled : list Card) :
  PokerGame.start_new_hand g shuffled = Some (g', true) ->
  let n := PokerGame.num_players g in
  0 <= PokerGame.dealer_position g' < n
  /\ PokerGame.has_chips_at (PokerGame.players g) (PokerGame.dealer_position g') = true
  /\ exists k : nat,
       PokerGame.dealer_position g' = (PokerGame.dealer_position g + 1 + Z.of_nat k) mod n
       /\ forall k' : nat, (k' < k)%nat ->
            PokerGame.has_chips_at (PokerGame.players g)
              ((PokerGame.dealer_position g + 1 + Z.of_nat k') mod n) = false.
Proof.
  intros H. cbv zeta.
  destruct (start_new_hand_shape g shuffled (start_new_hand_true_funded _ _ _ H))
    as (d & sb & bb & g2 & Hshape).
  cbv zeta in Hshape.
  destruct Hshape as (Hs & Hd & Hn & Hchips & Hk & _ & _ & _ & _ & _ & _ & _ & _ & Hdp & _).
  rewrite H in Hs. injection Hs as <-.
  rewrite Hdp. unfold PokerGame.num_players at 1.
  split; [lia|]. split; [exact Hchips|exact Hk].
Qed.

Lemma start_new_hand_dealer_witness :
  0 <= PokerGame.dealer_position hand3 < PokerGame.num_players (seat_all ["a"; "b"; "c"]%string).
Proof.
  apply (start_new_hand_dealer (seat_all ["a"; "b"; "c"]%string) hand3 fresh_deck).
  vm_compute. reflexivity.
Defined.

(** X24.  Hole cards of an accepted [start_new_hand]: the cards are popped
    from the end of the shuffled deck in two rounds over the seats in seat
    order, starting at seat 0 whatever the dealer.  With [n] seats, seat [i]
    holds the [i]-th and the [(n+i)]-th card from the end of the deck (a
    card is missing only if the deck ran out), players without chips are
    dealt in like the others, and what is left of the deck is the shuffled
    deck without its last [2n] cards. *)
Theorem start_new_hand_hole_cards (g g' : PokerGame.t) (shuffled : list Card) :
  PokerGame.start_new_hand g shuffled = Some (g', true) ->
  let n := length (PokerGame.players g) in
  rev (PokerGame.deck g') = skipn (2 * n) (rev shuffled)
  /\ forall i p, nth_error (PokerGame.players g) i = Some p ->
       exists p', nth_error (PokerGame.players g') i = Some p'
                  /\ Player.id p' = Player.id p
                  /\ Player.cards p'
                     = card_at (rev shuffled) i ++ card_at (rev shuffled) (n + i)
                  /\ ((2 * n <= length shuffled)%nat -> length (Player.cards p') = 2%nat).
Proof.
  intros H. cbv zeta.
  destruct (start_new_hand_seat g g' shuffled H) as (d & Hd & Hn & Hdp & Hlen & Hseat).
  cbv zeta in Hseat.
  destruct (start_new_hand_money g g' shuffled d H Hdp)
    as (sbp & bbp & _ & _ & _ & _ & _ & _ & _ & _ & Hdeck & _).
  split; [exact Hdeck|].
  intros i p Hp. eexists. split; [exact (Hseat i p Hp)|].
  assert (Hi : (i < length (PokerGame.players g))%nat)
    by (apply nth_error_Some; congruence).
  assert (Hcards : forall j, (j < length (rev shuffled))%nat ->
                     length (card_at (rev shuffled) j) = 1%nat).
  { intros j Hj. unfold card_at.
    destruct (nth_error (rev shuffled) j) eqn:E; [reflexivity|].
    apply nth_error_None in E. lia. }
  destruct (i =? bb_seat _ d)%nat; [|destruct (i =? sb_seat _ d)%nat];
    (split; [reflexivity|]); (split; [reflexivity|]);
    intros Hdeckn; cbn [Player.cards posted Player.set_has_acted_this_round Player.put_in
                        Player.set_total_bet Player.set_current_bet Player.set_chips
                        Player.set_cards];
    rewrite length_app, !Hcards by (rewrite length_rev; lia); reflexivity.
Qed.

Lemma start_new_hand_hole_cards_witness :
  rev (PokerGame.deck hand3) = skipn 6 (rev fresh_deck).
Proof.
  apply (start_new_hand_hole_cards (seat_all ["a"; "b"; "c"]%string) hand3 fresh_deck).
  vm_compute. reflexivity.
Defined.

(** X25.  Blinds of an accepted [start_new_hand].  Every player's per-hand
    fields are reset and then the two blinds are posted: at every seat the
    new stack plus the new [total_bet] is the old stack, [current_bet]
    equals [total_bet], and that amount is the smaller of the big blind and
    the stack at the big-blind seat, the smaller of the small blind and the
    stack at the small-blind seat, and 0 elsewhere; nobody is folded or
    marked all-in (not even a blind who posted a whole stack), and exactly
    the two blind seats count as having acted.  The pot is the sum of the
    players' [total_bet], so stacks plus pot equal the stacks before the
    hand, and the table bet is what the big blind managed to post. *)
Theorem start_new_hand_blinds (g g' : PokerGame.t) (shuffled : list Card) :
  PokerGame.start_new_hand g shuffled = Some (g', true) ->
  let n := length (PokerGame.players g) in
  exists d : nat,
    PokerGame.dealer_position g' = Z.of_nat d /\ (d < n)%nat
    /\ sb_seat n d <> bb_seat n d
    /\ (forall i p, nth_error (PokerGame.players g) i = Some p ->
          exists p',
            nth_error (PokerGame.players g') i = Some p'
            /\ Player.id p' = Player.id p /\ Player.name p' = Player.name p
            /\ Player.is_folded p' = false /\ Player.is_all_in p' = false
            /\ Player.has_acted_this_round p'
               = ((i =? sb_seat n d)%nat || (i =? bb_seat n d)%nat)%bool
            /\ Player.current_bet p' = Player.total_bet p'
            /\ Player.chips p' + Player.total_bet p' = Player.chips p
            /\ Player.total_bet p'
               = if (i =? bb_seat n d)%nat
                 then Z.min (PokerGame.big_blind g) (Player.chips p)
                 else if (i =? sb_seat n d)%nat
                      then Z.min (PokerGame.small_blind g) (Player.chips p)
                      else 0)
    /\ PokerGame.pot g' = total Player.total_bet (PokerGame.players g')
    /\ total Player.chips (PokerGame.players g') + PokerGame.pot g'
       = total Player.chips (PokerGame.players g)
    /\ forall bb', nth_error (PokerGame.players g') (bb_seat n d) = Some bb' ->
         PokerGame.current_bet g' = Player.current_bet bb'
         /\ PokerGame.last_raiser g' = Some (Player.id bb').
Proof.
  intros H. cbv zeta.
  destruct (start_new_hand_seat g g' shuffled H) as (d & Hd & Hn & Hdp & Hlen & Hseat).
  cbv zeta in Hseat.
  destruct (start_new_hand_money g g' shuffled d H Hdp)
    as (sbp & bbp & Hsb & Hbb & Hpot & Hcb & Hlr & _).
  cbv zeta in Hsb, Hbb.
  pose proof (blind_seats_differ _ _ Hn Hd) as Hne.
  set (n := length (PokerGame.players g)) in *.
  assert (Hper : forall i p, nth_error (PokerGame.players g) i = Some p ->
            exists p',
              nth_error (PokerGame.players g') i = Some p'
              /\ Player.id p' = Player.id p /\ Player.name p' = Player.name p
              /\ Player.is_folded p' = false /\ Player.is_all_in p' = false
              /\ Player.has_acted_this_round p'
                 = ((i =? sb_seat n d)%nat || (i =? bb_seat n d)%nat)%bool
              /\ Player.current_bet p' = Player.total_bet p'
              /\ Player.chips p' + Player.total_bet p' = Player.chips p
              /\ Player.total_bet p'
                 = if (i =? bb_seat n d)%nat
                   then Z.min (PokerGame.big_blind g) (Player.chips p)
                   else if (i =? sb_seat n d)%nat
                        then Z.min (PokerGame.small_blind g) (Player.chips p)
                        else 0).
  { intros i p Hp. eexists. split; [exact (Hseat i p Hp)|].
    destruct (Nat.eqb_spec i (bb_seat n d)) as [Eb|Eb];
      [|destruct (Nat.eqb_spec i (sb_seat n d)) as [Es|Es]].
    - destruct (Nat.eqb_spec i (sb_seat n d)) as [Es|Es]; [congruence|].
      cbn. repeat split; lia.
    - cbn. repeat split; lia.
    - cbn. repeat split; lia. }
  destruct (start_new_hand_totals g g' shuffled H) as (Hpt & Hsum).
  exists d. split; [exact Hdp|]. split; [exact Hd|]. split; [exact Hne|].
  split; [exact Hper|]. split; [exact Hpt|]. split; [exact Hsum|].
  intros bb' Hbb'. destruct (Hper _ _ Hbb) as (p' & Hp' & Hid & _ & _ & _ & _ & Hcbt & _ & Ht).
  rewrite Hbb' in Hp'. injection Hp' as <-.
  rewrite Nat.eqb_refl in Ht. rewrite Hcb, Hlr, Hcbt, Ht, Hid. split; reflexivity.
Qed.

Lemma start_new_hand_blinds_witness :
  exists d : nat,
    PokerGame.dealer_position hand3 = Z.of_nat d
    /\ (d < length (PokerGame.players (seat_all ["a"; "b"; "c"]%string)))%nat.
Proof.
  destruct (start_new_hand_blinds (seat_all ["a"; "b"; "c"]%string) hand3 fresh_deck)
    as (d & Hd & Hlt & _).
  - vm_compute. reflexivity.
  - exists d. split; [exact Hd|exact Hlt].
Defined.

(** X26.  First to act of an accepted [start_new_hand].  The turn goes to
    the first seat, walking cyclically from three seats after the new
    dealer, whose player can act once the blinds are posted; the fallback
    search from the dealer's seat never changes the answer.  The index is
    -1 exactly when no player can act.  In particular, when the player
    three seats after the dealer can act, that player is first: heads-up
    this is the big blind, who is also the last raiser. *)
Theorem start_new_hand_first_to_act (g g' : PokerGame.t) (shuffled : list Card) :
  PokerGame.start_new_hand g shuffled = Some (g', true) ->
  let r := PokerGame.current_player_index g' in
  let n := PokerGame.num_players g' in
  let d := PokerGame.dealer_position g' in
  (r = -1 <-> forall p, In p (PokerGame.players g') -> Player.can_act p = false)
  /\ (r <> -1 ->
      0 <= r < n
      /\ PokerGame.can_act_at (PokerGame.players g') r = true
      /\ exists k : nat,
           r = (d + 3 + Z.of_nat k) mod n
           /\ forall k' : nat, (k' < k)%nat ->
                PokerGame.can_act_at (PokerGame.players g') ((d + 3 + Z.of_nat k') mod n)
                = false)
  /\ (PokerGame.can_act_at (PokerGame.players g') ((d + 3) mod n) = true ->
      r = (d + 3) mod n)
  /\ (length (PokerGame.players g) = 2%nat ->
      forall bb', nth_error (PokerGame.players g') (Z.to_nat ((d + 1) mod 2)) = Some bb' ->
        PokerGame.last_raiser g' = Some (Player.id bb')
        /\ (Player.can_act bb' = true -> r = (d + 1) mod 2)).
Proof.
  intros H. cbv zeta.
  destruct (start_new_hand_seat g g' shuffled H) as (d & Hd & Hn & Hdp & Hlen & Hseat).
  destruct (start_new_hand_money g g' shuffled d H Hdp)
    as (sbp & bbp & Hsb & Hbb & _ & _ & Hlr & _ & _ & _ & _ & Hcpi).
  cbv zeta in Hsb, Hbb, Hseat.
  rewrite Hcpi, Hdp.
  pose proof (first_able_seat g' (Z.of_nat d) 3) as Hfirst. cbv zeta in Hfirst.
  destruct Hfirst as [Hnone Hsome].
  set (r := PokerGame._get_player_index_after_dealer g' (Z.of_nat d) 3) in *.
  assert (Hk0 : PokerGame.can_act_at (PokerGame.players g')
                  ((Z.of_nat d + 3) mod PokerGame.num_players g') = true ->
                r = (Z.of_nat d + 3) mod PokerGame.num_players g').
  { intros Hcan.
    destruct (Z.eq_dec r (-1)) as [E|E].
    - exfalso. unfold PokerGame.can_act_at in Hcan.
      destruct (nth_error (PokerGame.players g') _) as [p|] eqn:Ep; [|discriminate].
      rewrite (proj1 Hnone E p (nth_error_In _ _ Ep)) in Hcan. discriminate.
    - destruct (Hsome E) as (_ & _ & k & Hk & Hbefore).
      destruct k as [|k].
      + rewrite Hk. f_equal. lia.
      + specialize (Hbefore O ltac:(lia)). simpl in Hbefore.
        rewrite Z.add_0_r in Hbefore. congruence. }
  split; [exact Hnone|]. split; [exact Hsome|]. split; [exact Hk0|].
  intros H2 bb' Hbb'.
  assert (Hnum : PokerGame.num_players g' = 2)
    by (unfold PokerGame.num_players; rewrite Hlen, H2; reflexivity).
  assert (Hmod : (Z.of_nat d + 3) mod 2 = (Z.of_nat d + 1) mod 2).
  { replace (Z.of_nat d + 3) with (Z.of_nat d + 1 + 1 * 2) by lia.
    apply Z.mod_add. lia. }
  assert (Hseat2 : Z.to_nat ((Z.of_nat d + 1) mod 2) = bb_seat 2 d).
  { unfold bb_seat. simpl Nat.eqb. cbv iota.
    replace 2 with (Z.of_nat 2) by reflexivity.
    replace (Z.of_nat d + 1) with (Z.of_nat (d + 1)) by lia.
    rewrite <- Nat2Z.inj_mod. apply Nat2Z.id. }
  rewrite H2 in Hbb. rewrite Hseat2 in Hbb'.
  pose proof (Hseat _ _ Hbb) as Hnew. rewrite H2 in Hnew.
  rewrite Nat.eqb_refl in Hnew. rewrite Hbb' in Hnew. injection Hnew as ->.
  split; [rewrite Hlr; reflexivity|].
  intros Hcan. rewrite Hnum in Hk0. rewrite Hmod in Hk0. apply Hk0.
  unfold PokerGame.can_act_at. rewrite Hseat2, Hbb'. exact Hcan.
Qed.

Lemma start_new_hand_first_to_act_witness :
  PokerGame.current_player_index hand3
  = (PokerGame.dealer_position hand3 + 3) mod PokerGame.num_players hand3.
Proof.
  refine (proj1 (proj2 (proj2 (start_new_hand_first_to_act
                                 (seat_all ["a"; "b"; "c"]%string) hand3 fresh_deck _))) _).
  - vm_compute. reflexivity.
  - vm_compute. reflexivity.
Defined.

(** X27.  [is_betting_round_complete] raises (KeyError on
    [self.game.players[self.game.last_raiser]]) exactly when two or more
    players can act, none of them is behind the table bet or still has to
    act, and [last_raiser] is a non-empty id that is no longer seated.
    [remove_player] leaves [last_raiser] in place, so this is the table
    after the last raiser has left as soon as the players that remain have
    all matched and acted. *)
Theorem is_betting_round_complete_raises (g : PokerGame.t) :
  (PokerServer.is_betting_round_complete g = None
   <-> (2 <= length (filter Player.can_act (PokerGame.players g)))%nat
       /\ (forall p, In p (PokerGame.players g) -> Player.can_act p = true ->
             PokerGame.current_bet g <= Player.current_bet p
             /\ Player.has_acted_this_round p = true)
       /\ exists lr, PokerGame.last_raiser g = Some lr /\ lr <> EmptyString
                     /\ PokerGame.seat_of lr (PokerGame.players g) = None)
  /\ (forall lr,
        PokerGame.last_raiser g = Some lr -> lr <> EmptyString ->
        NoDup (PokerGame.players_ids g) ->
        let g' := PokerGame.remove_player g lr in
        (2 <= length (filter Player.can_act (PokerGame.players g')))%nat ->
        (forall p, In p (PokerGame.players g') -> Player.can_act p = true ->
           PokerGame.current_bet g' <= Player.current_bet p
           /\ Player.has_acted_this_round p = true) ->
        PokerServer.is_betting_round_complete g' = None).
Proof.
  assert (Hiff : forall g : PokerGame.t,
    PokerServer.is_betting_round_complete g = None
    <-> (2 <= length (filter Player.can_act (PokerGame.players g)))%nat
        /\ (forall p, In p (PokerGame.players g) -> Player.can_act p = true ->
              PokerGame.current_bet g <= Player.current_bet p
              /\ Player.has_acted_this_round p = true)
        /\ exists lr, PokerGame.last_raiser g = Some lr /\ lr <> EmptyString
                      /\ PokerGame.seat_of lr (PokerGame.players g) = None).
  { clear g. intros g.
    assert (Hlag : forall p, PokerServer.lags g p = false
                   <-> PokerGame.current_bet g <= Player.current_bet p
                       /\ Player.has_acted_this_round p = true).
    { intros p. unfold PokerServer.lags.
      destruct (Z.ltb_spec (Player.current_bet p) (PokerGame.current_bet g));
        destruct (Player.has_acted_this_round p); simpl; split;
        try discriminate; try (intros [? ?]; try lia; discriminate); intros _; split;
        auto; lia. }
    unfold PokerServer.is_betting_round_complete. cbv zeta.
    set (active := filter Player.can_act (PokerGame.players g)).
    destruct (Nat.leb_spec (length active) 1) as [Hle|Hgt].
    { split; [discriminate|]. intros (H2 & _). lia. }
    destruct (existsb _ active) eqn:Eex.
    { split; [discriminate|]. intros (_ & Hall & _). exfalso.
      apply existsb_exists in Eex as (p & Hp & Hb).
      apply filter_In in Hp as [Hp Hcan].
      apply andb_true_iff in Hb as [_ Hl].
      apply Hall in Hp; [|exact Hcan]. apply Hlag in Hp. congruence. }
    assert (Hall : forall p, In p (PokerGame.players g) -> Player.can_act p = true ->
                     PokerGame.current_bet g <= Player.current_bet p
                     /\ Player.has_acted_this_round p = true).
    { intros p Hp Hcan. apply Hlag.
      destruct (PokerServer.lags g p) eqn:El; [|reflexivity]. exfalso.
      assert (Hex : existsb (fun p => negb (Player.is_all_in p) && PokerServer.lags g p)
                            active = true).
      { apply existsb_exists. exists p. split; [apply filter_In; auto|].
        unfold Player.can_act in Hcan.
        apply andb_true_iff in Hcan as [Hcan _]. apply andb_true_iff in Hcan as [_ Hai].
        now rewrite Hai, El. }
      congruence. }
    destruct (PokerGame.last_raiser g) as [lr|] eqn:Elr; simpl PokerServer.truthy.
    - destruct (String.eqb_spec lr EmptyString) as [He|Hne]; simpl negb; cbv iota.
      + simpl. split.
        * destruct (PokerGame.current_bet g =? 0);
            [destruct (forallb _ _)|]; discriminate.
        * intros (_ & _ & lr' & [= <-] & Hn & _). contradiction.
      + destruct (PokerGame.seat_of lr (PokerGame.players g)) eqn:Es.
        * split.
          -- simpl. destruct (forallb _ active); [discriminate|].
             destruct (PokerGame.current_bet g =? 0);
               [destruct (forallb _ _)|]; discriminate.
          -- intros (_ & _ & lr' & [= <-] & _ & Hs). congruence.
        * split; [|reflexivity]. intros _. split; [lia|]. split; [exact Hall|].
          exists lr. auto.
    - simpl. split.
      + destruct (PokerGame.current_bet g =? 0);
          [destruct (forallb _ _)|]; discriminate.
      + intros (_ & _ & lr' & Hd & _). discriminate. }
  split; [apply Hiff|].
  intros lr Hlr Hne Hnd g' H2 Hall. apply Hiff.
  split; [exact H2|]. split; [exact Hall|].
  exists lr. unfold g'.
  split; [|split; [exact Hne|]].
  - unfold PokerGame.remove_player.
    destruct (PokerGame.seat_of lr (PokerGame.players g)); [|exact Hlr].
    cbv zeta. destruct (_ && _); exact Hlr.
  - rewrite remove_player_players. apply seat_of_none. now apply remove_key_unique.
Qed.

Lemma is_betting_round_complete_raises_witness :
  PokerServer.is_betting_round_complete raiser_gone_called = None.
Proof.
  apply (proj2 (proj1 (is_betting_round_complete_raises raiser_gone_called))).
  split; [vm_compute; lia|]. split.
  - intros p [<-|[<-|[]]] _; vm_compute; split; (discriminate || reflexivity).
  - exists "b"%string. split; [reflexivity|]. split; [discriminate|reflexivity].
Defined.

(** [determine_winners] touches stacks and pot only. *)
Lemma map_update_seat_same (strip f : Player.t -> Player.t) (s : nat) (ps : list Player.t) :
  (forall p, strip (f p) = strip p) ->
  map strip (update_seat s f ps) = map strip ps.
Proof.
  intros Hf. revert s. induction ps as [|x xs IH]; intros [|s]; simpl; auto.
  - now rewrite Hf.
  - now rewrite IH.
Qed.

Lemma add_chips_strip (w : string) (x : Z) (ps : list Player.t) :
  map (Player.set_chips 0) (PokerGame.add_chips w x ps) = map (Player.set_chips 0) ps.
Proof.
  unfold PokerGame.add_chips. destruct (PokerGame.seat_of w ps); [|reflexivity].
  apply map_update_seat_same. reflexivity.
Qed.

Lemma pay_winners_strip (share remainder : Z) (winners : list string) :
  forall (idx : Z) (acc : list Player.t * list string),
    map (Player.set_chips 0) (fst (PokerGame.pay_winners share remainder idx winners acc))
    = map (Player.set_chips 0) (fst acc).
Proof.
  induction winners as [|w ws IH]; intros idx acc; simpl; [reflexivity|].
  rewrite IH. simpl. apply add_chips_strip.
Qed.

Lemma distribute_pot_strip (hands : list (string * HandStrength))
  (acc : list Player.t * list string) (sp : PokerGame.SidePot) :
  map (Player.set_chips 0) (fst (PokerGame.distribute_pot hands acc sp))
  = map (Player.set_chips 0) (fst acc).
Proof.
  unfold PokerGame.distribute_pot. cbv zeta.
  destruct (PokerGame.max_strength _); [|reflexivity].
  destruct (map fst _) eqn:E; [reflexivity|]. apply pay_winners_strip.
Qed.

Lemma distribute_all_strip (hands : list (string * HandStrength))
  (pots : list PokerGame.SidePot) :
  forall acc : list Player.t * list string,
    map (Player.set_chips 0) (fst (fold_left (PokerGame.distribute_pot hands) pots acc))
    = map (Player.set_chips 0) (fst acc).
Proof.
  induction pots as [|sp pots IH]; intros acc; simpl; [reflexivity|].
  rewrite IH. apply distribute_pot_strip.
Qed.

Lemma determine_winners_frame (g g' : PokerGame.t) (winners : list string) :
  PokerGame.determine_winners g = Some (g', winners) ->
  map (Player.set_chips 0) (PokerGame.players g') = map (Player.set_chips 0) (PokerGame.players g)
  /\ PokerGame.community_cards g' = PokerGame.community_cards g
  /\ PokerGame.deck g' = PokerGame.deck g
  /\ PokerGame.game_state g' = PokerGame.game_state g
  /\ PokerGame.current_bet g' = PokerGame.current_bet g
  /\ PokerGame.dealer_position g' = PokerGame.dealer_position g
  /\ PokerGame.current_player_index g' = PokerGame.current_player_index g
  /\ PokerGame.last_raiser g' = PokerGame.last_raiser g
  /\ PokerGame.action_history g' = PokerGame.action_history g.
Proof.
  unfold PokerGame.determine_winners. cbv zeta.
  destruct (filter _ (PokerGame.players g)) as [|w [|w2 rest]].
  - intros [= <- <-]. repeat split; reflexivity.
  - intros [= <- <-]. simpl. split; [apply add_chips_strip|]. repeat split; reflexivity.
  - destruct (PokerGame.player_hands_of _ _) as [hands|]; simpl; [|discriminate].
    intros [= <- <-]. simpl. split; [apply distribute_all_strip|]. repeat split; reflexivity.
Qed.

Lemma filter_live_strip (ps : list Player.t) :
  filter (fun p => negb (Player.is_folded p)) (map (Player.set_chips 0) ps)
  = map (Player.set_chips 0) (filter (fun p => negb (Player.is_folded p)) ps).
Proof.
  induction ps as [|p ps IH]; simpl; [reflexivity|].
  destruct (Player.is_folded p); simpl; now rewrite IH.
Qed.

Lemma player_hands_of_strip (ps : list Player.t) (cc : list Card) :
  PokerGame.player_hands_of (map (Player.set_chips 0) ps) cc = PokerGame.player_hands_of ps cc.
Proof.
  induction ps as [|p ps IH]; simpl; [reflexivity|]. now rewrite IH.
Qed.

Lemma live_strip_length (ps qs : list Player.t) :
  map (Player.set_chips 0) ps = map (Player.set_chips 0) qs ->
  let live := fun l => filter (fun p : Player.t => negb (Player.is_folded p)) l in
  length (live ps) = length (live qs)
  /\ total Player.total_bet (live ps) = total Player.total_bet (live qs)
  /\ forall cc, PokerGame.player_hands_of (live ps) cc = PokerGame.player_hands_of (live qs) cc.
Proof.
  intros E. cbv zeta.
  assert (El : map (Player.set_chips 0) (filter (fun p => negb (Player.is_folded p)) ps)
               = map (Player.set_chips 0) (filter (fun p => negb (Player.is_folded p)) qs))
    by (now rewrite <- !filter_live_strip, E).
  split; [|split].
  - rewrite <- (length_map (Player.set_chips 0)), El. apply length_map.
  - rewrite <- (total_map Player.total_bet (Player.set_chips 0)) by reflexivity.
    rewrite El. apply total_map. reflexivity.
  - intros cc. rewrite <- player_hands_of_strip, El. apply player_hands_of_strip.
Qed.

(** X28.  [determine_winners] is not idempotent.  Called again on the
    table it has just paid, with two or more players still in the hand, it
    succeeds again and pays the hand bets of those players a second time:
    the side pots are rebuilt from [total_bet], which only
    [start_new_hand] clears, and the emptied pot is not consulted. *)
Theorem determine_winners_pays_again (g g1 : PokerGame.t) (winners : list string) :
  PokerGame.determine_winners g = Some (g1, winners) ->
  let live := filter (fun p => negb (Player.is_folded p)) (PokerGame.players g) in
  (2 <= length live)%nat ->
  exists (g2 : PokerGame.t) (winners2 : list string),
    PokerGame.determine_winners g1 = Some (g2, winners2)
    /\ total Player.chips (PokerGame.players g1)
       = total Player.chips (PokerGame.players g) + total Player.total_bet live
    /\ total Player.chips (PokerGame.players g2)
       = total Player.chips (PokerGame.players g) + 2 * total Player.total_bet live
    /\ PokerGame.pot g1 = 0 /\ PokerGame.pot g2 = 0.
Proof.
  intros H live Hlive.
  destruct (determine_winners_frame g g1 winners H) as (Hstrip & Hcc & _).
  destruct (live_strip_length _ _ Hstrip) as (Hlen & Htb & Hhands). cbv zeta in *.
  fold live in Hlen, Htb, Hhands.
  set (live1 := filter (fun p => negb (Player.is_folded p)) (PokerGame.players g1)) in *.
  destruct (determine_winners_total g g1 winners H) as (_ & _ & Hpay & _).
  fold live in Hpay. destruct (Hpay Hlive) as (Hpot1 & Hchips1).
  assert (Hsome : exists r, PokerGame.determine_winners g1 = Some r).
  { revert H. unfold PokerGame.determine_winners. cbv zeta.
    fold live live1. rewrite Hcc.
    destruct live as [|a [|b l]] eqn:El; simpl in Hlive; try lia.
    destruct live1 as [|a1 [|b1 l1]] eqn:El1; simpl in Hlen; try lia.
    rewrite (Hhands (PokerGame.community_cards g)).
    destruct (PokerGame.player_hands_of (a :: b :: l) _); simpl; [|discriminate].
    intros _. eexists. reflexivity. }
  destruct Hsome as ([g2 winners2] & H2).
  exists g2, winners2. split; [exact H2|].
  destruct (determine_winners_total g1 g2 winners2 H2) as (_ & _ & Hpay2 & _).
  fold live1 in Hpay2. destruct (Hpay2 ltac:(lia)) as (Hpot2 & Hchips2).
  repeat split; auto; lia.
Qed.

Lemma determine_winners_pays_again_witness :
  exists (g1 : PokerGame.t) (winners : list string),
    PokerGame.determine_winners side_pot_scenario = Some (g1, winners)
    /\ exists (g2 : PokerGame.t) (winners2 : list string),
         PokerGame.determine_winners g1 = Some (g2, winners2)
         /\ total Player.chips (PokerGame.players g2) = 1400 + 2 * 700.
Proof.
  let v := eval vm_compute in (PokerGame.determine_winners side_pot_scenario) in
  match v with
  | Some (?h, ?w) =>
      exists h, w; split; [vm_compute; reflexivity|];
      destruct (determine_winners_pays_again side_pot_scenario h w)
        as (g2 & w2 & H2 & _ & Hc & _);
      [vm_compute; reflexivity | vm_compute; lia |
       exists g2, w2; split; [exact H2|rewrite Hc; vm_compute; reflexivity]]
  end.
Defined.

(** X29.  The last-player check of [game_loop] looks at stacks, not at who
    is still in the hand.  In any state but WAITING, GAME_OVER and SHOWDOWN,
    when exactly one player has not folded and holds chips, that player's
    stack grows by the whole pot and every other stack is left as it is:
    a player who is all-in, not folded, with chips in the pot receives
    nothing.  The pot is emptied, the state is set to SHOWDOWN, the acted
    flags are cleared and the table goes straight to [start_new_hand]. *)
Theorem last_player_takes_pot (g : PokerGame.t) (shuffled : list Card) (w : Player.t) :
  hand_running (PokerGame.game_state g) = true ->
  NoDup (PokerGame.players_ids g) ->
  filter in_hand (PokerGame.players g) = [w] ->
  exists g1 : PokerGame.t,
    award_last_player g = Some g1
    /\ last_player_check g shuffled
       = match PokerGame.start_new_hand g1 shuffled with
         | Some r => Some (fst r)
         | None => None
         end
    /\ PokerGame.pot g1 = 0
    /\ PokerGame.game_state g1 = SHOWDOWN
    /\ PokerGame.community_cards g1 = PokerGame.community_cards g
    /\ total Player.chips (PokerGame.players g1)
       = total Player.chips (PokerGame.players g) + PokerGame.pot g
    /\ forall i p, nth_error (PokerGame.players g) i = Some p ->
         exists p',
           nth_error (PokerGame.players g1) i = Some p'
           /\ Player.id p' = Player.id p
           /\ Player.chips p'
              = (if String.eqb (Player.id p) (Player.id w)
                 then Player.chips p + PokerGame.pot g else Player.chips p)
           /\ Player.total_bet p' = Player.total_bet p
           /\ Player.is_folded p' = Player.is_folded p
           /\ Player.is_all_in p' = Player.is_all_in p
           /\ Player.has_acted_this_round p' = false.
Proof.
  intros Hrun Hnd Hw.
  assert (Hin : In w (PokerGame.players g)).
  { apply (proj1 (filter_In in_hand w (PokerGame.players g))). rewrite Hw. now left. }
  assert (Hid : In (Player.id w) (map Player.id (PokerGame.players g)))
    by (now apply in_map).
  destruct (PokerGame.seat_of (Player.id w) (PokerGame.players g)) as [s|] eqn:Es;
    [|apply seat_of_none in Es; contradiction].
  destruct (seat_of_spec _ _ _ Es) as (pw & Hpw & Hpwid).
  eexists. split; [|split].
  - unfold award_last_player. cbv zeta. rewrite Hrun, Hw. simpl. reflexivity.
  - unfold last_player_check, award_last_player. cbv zeta. rewrite Hrun, Hw. simpl.
    destruct (PokerGame.start_new_hand _ _); reflexivity.
  - cbn [PokerGame.pot PokerGame.game_state PokerGame.community_cards PokerGame.players
         PokerGame.set_players PokerGame.set_game_state PokerGame.set_pot].
    split; [reflexivity|]. split; [reflexivity|]. split; [reflexivity|]. split.
    + rewrite total_map by reflexivity. now apply add_chips_total.
    + intros i p Hp. unfold PokerGame.add_chips. rewrite Es.
      rewrite nth_error_map.
      destruct (Nat.eq_dec s i) as [->|Hne].
      * rewrite (nth_error_update_seat_eq _ _ _ _ Hpw). simpl.
        rewrite Hp in Hpw. injection Hpw as <-.
        eexists. split; [reflexivity|]. simpl. rewrite Hpwid, String.eqb_refl.
        repeat split; reflexivity.
      * rewrite nth_error_update_seat_ne by exact Hne. rewrite Hp. simpl.
        eexists. split; [reflexivity|]. simpl.
        destruct (String.eqb_spec (Player.id p) (Player.id w)) as [E|E];
          [|repeat split; reflexivity].
        exfalso. apply Hne.
        unfold PokerGame.players_ids in Hnd.
        apply (proj1 (NoDup_nth_error _) Hnd).
        -- rewrite length_map. apply nth_error_Some. congruence.
        -- rewrite !nth_error_map, Hp, Hpw. simpl. congruence.
Qed.

Lemma last_player_takes_pot_witness :
  exists g1 : PokerGame.t,
    award_last_player short_all_in = Some g1
    /\ stacks g1 = [("a", 1050); ("b", 0)]%string.
Proof.
  let v := eval vm_compute in (filter in_hand (PokerGame.players short_all_in)) in
  match v with
  | [?w] =>
      destruct (last_player_takes_pot short_all_in fresh_deck w) as (g1 & H1 & _);
      [reflexivity
      |repeat constructor; simpl; intuition discriminate
      |vm_compute; reflexivity
      |exists g1; split; [exact H1|];
       vm_compute in H1; injection H1 as <-; vm_compute; reflexivity]
  end.
Defined.

Lemma hidden_from_ids (viewer : string) (ps ps' : list Player.t) :
  Forall2 (hidden_from viewer) ps ps' -> map Player.id ps' = map Player.id ps.
Proof.
  induction 1 as [|p p' ps ps' (E & _) _ IH]; simpl; [reflexivity|].
  rewrite IH, E. reflexivity.
Qed.

Lemma players_data_of_indices (g : PokerGame.t) (player_id : option string)
  (ps : list Player.t) :
  PokerGame.id_at g (PokerGame.current_player_index g) <> None ->
  PokerGame.players_data_of g player_id ps <> None.
Proof.
  intros Hcur. induction ps as [|p ps IH]; simpl; [discriminate|].
  unfold PokerGame.player_data. cbv zeta.
  unfold PokerGame.id_at in Hcur.
  destruct (PokerGame.current_player_index g =? -1).
  - simpl. destruct (PokerGame.players_data_of g player_id ps); [discriminate|congruence].
  - destruct (py_index _ _); [|simpl in Hcur; congruence]. simpl.
    destruct (PokerGame.players_data_of g player_id ps); [discriminate|congruence].
Qed.

(** X30.  [get_game_state] for a viewer.  It raises (IndexError) exactly
    when [current_player_index] or [dealer_position] is neither -1 nor a
    valid index into the seated players.  Outside SHOWDOWN the answer does
    not depend on the other players' hole cards, only on how many each
    holds, nor on the deck: two tables that differ in nothing else give
    the viewer the same dict.  The viewer's own entry lists the viewer's
    cards face up, and so does every entry at SHOWDOWN. *)
Theorem get_game_state_hides_cards (g : PokerGame.t) (viewer : string) :
  (PokerGame.get_game_state g (Some viewer) = None
   <-> PokerGame.id_at g (PokerGame.current_player_index g) = None
       \/ PokerGame.id_at g (PokerGame.dealer_position g) = None)
  /\ (forall g' : PokerGame.t,
        PokerGame.game_state g <> SHOWDOWN ->
        Forall2 (hidden_from viewer) (PokerGame.players g) (PokerGame.players g') ->
        g' = PokerGame.set_deck (PokerGame.deck g')
               (PokerGame.set_players (PokerGame.players g') g) ->
        PokerGame.get_game_state g' (Some viewer)
        = PokerGame.get_game_state g (Some viewer))
  /\ (forall data i p,
        PokerGame.get_game_state g (Some viewer) = Some data ->
        nth_error (PokerGame.players g) i = Some p ->
        exists d,
          nth_error (PokerGame.gs_players data) i = Some (Player.id p, d)
          /\ length (PokerGame.pd_cards d) = length (Player.cards p)
          /\ (Player.id p = viewer \/ PokerGame.game_state g = SHOWDOWN ->
              PokerGame.pd_cards d = map PokerGame.card_data (Player.cards p))
          /\ (Player.id p <> viewer -> PokerGame.game_state g <> SHOWDOWN ->
              forall x, In x (PokerGame.pd_cards d) -> x = PokerGame.card_back)).
Proof.
  split; [|split].
  - unfold PokerGame.get_game_state.
    destruct (PokerGame.id_at g (PokerGame.current_player_index g)) as [cur|] eqn:Ecur.
    + pose proof (players_data_of_indices g (Some viewer) (PokerGame.players g)) as Hd.
      rewrite Ecur in Hd.
      destruct (PokerGame.players_data_of g (Some viewer) (PokerGame.players g));
        [|exfalso; apply Hd; [discriminate|reflexivity]].
      simpl. destruct (PokerGame.id_at g (PokerGame.dealer_position g)); simpl.
      * split; [discriminate|]. intros [H|H]; discriminate.
      * split; auto.
    + split; [auto|]. intros _.
      destruct (PokerGame.players_data_of g (Some viewer) (PokerGame.players g));
        reflexivity.
  - intros g' Hst Hps Hg'.
    pose proof (hidden_from_ids _ _ _ Hps) as Hids.
    assert (Hfields : PokerGame.game_state g' = PokerGame.game_state g
                      /\ PokerGame.community_cards g' = PokerGame.community_cards g
                      /\ PokerGame.pot g' = PokerGame.pot g
                      /\ PokerGame.current_bet g' = PokerGame.current_bet g
                      /\ PokerGame.current_player_index g' = PokerGame.current_player_index g
                      /\ PokerGame.dealer_position g' = PokerGame.dealer_position g
                      /\ PokerGame.small_blind g' = PokerGame.small_blind g
                      /\ PokerGame.big_blind g' = PokerGame.big_blind g)
      by (rewrite Hg'; repeat split; reflexivity).
    destruct Hfields as (F1 & F2 & F3 & F4 & F5 & F6 & F7 & F8).
    assert (Hidat : forall i, PokerGame.id_at g' i = PokerGame.id_at g i).
    { intros i. unfold PokerGame.id_at, PokerGame.players_ids. now rewrite Hids. }
    assert (Hdata : PokerGame.players_data_of g' (Some viewer) (PokerGame.players g')
                    = PokerGame.players_data_of g (Some viewer) (PokerGame.players g)).
    { assert (Hshow : PokerGame.is_showdown (PokerGame.game_state g) = false)
        by (destruct (PokerGame.game_state g); try reflexivity; congruence).
      assert (Hone : forall p p', hidden_from viewer p p' ->
                PokerGame.player_data g' (Some viewer) p'
                = PokerGame.player_data g (Some viewer) p
                /\ Player.id p' = Player.id p).
      { intros p p' (E & Hlen & Hown).
        assert (Hid : Player.id p' = Player.id p) by (rewrite E; reflexivity).
        split; [|exact Hid].
        unfold PokerGame.player_data. cbv zeta.
        unfold PokerGame.players_ids. rewrite Hids, F1, F5, Hshow, Hid, orb_false_r.
        assert (Hcards :
                  (if PokerGame.is_viewer (Some viewer) (Player.id p)
                   then map PokerGame.card_data (Player.cards p')
                   else map (fun _ => PokerGame.card_back) (Player.cards p'))
                  = (if PokerGame.is_viewer (Some viewer) (Player.id p)
                     then map PokerGame.card_data (Player.cards p)
                     else map (fun _ => PokerGame.card_back) (Player.cards p))).
        { simpl. destruct (String.eqb_spec viewer (Player.id p)) as [Ev|Ev].
          - now rewrite Hown.
          - clear - Hlen. revert Hlen. generalize (Player.cards p) (Player.cards p').
            induction l as [|x l IH]; intros [|y l'] H; simpl in *; try discriminate; auto.
            f_equal. apply IH. lia. }
        rewrite Hcards. rewrite E. reflexivity. }
      assert (Hgen : forall ps ps', Forall2 (hidden_from viewer) ps ps' ->
                PokerGame.players_data_of g' (Some viewer) ps'
                = PokerGame.players_data_of g (Some viewer) ps).
      { intros ps ps' H. induction H as [|p p' ps ps' Hp _ IH]; simpl; [reflexivity|].
        destruct (Hone p p' Hp) as [-> ->]. rewrite IH. reflexivity. }
      apply Hgen, Hps. }
    unfold PokerGame.get_game_state.
    rewrite Hdata, F1, F2, F3, F4, F5, F6, F7, F8, !Hidat. reflexivity.
  - intros data i p Hdata Hp.
    unfold PokerGame.get_game_state in Hdata.
    destruct (PokerGame.players_data_of g (Some viewer) (PokerGame.players g))
      as [ds|] eqn:Eds; simpl in Hdata; [|discriminate].
    destruct (PokerGame.id_at g (PokerGame.current_player_index g)); simpl in Hdata;
      [|discriminate].
    destruct (PokerGame.id_at g (PokerGame.dealer_position g)); simpl in Hdata;
      [|discriminate].
    injection Hdata as <-. simpl PokerGame.gs_players.
    revert i ds Eds Hp. induction (PokerGame.players g) as [|q qs IH]; intros i ds Eds Hp.
    + destruct i; discriminate.
    + simpl in Eds.
      destruct (PokerGame.player_data g (Some viewer) q) as [d|] eqn:Ed; simpl in Eds;
        [|discriminate].
      destruct (PokerGame.players_data_of g (Some viewer) qs) as [ds'|] eqn:Eds';
        simpl in Eds; [|discriminate].
      injection Eds as <-.
      destruct i as [|i]; simpl in Hp.
      * injection Hp as ->. exists d. split; [reflexivity|].
        unfold PokerGame.player_data in Ed. cbv zeta in Ed.
        destruct (if PokerGame.current_player_index g =? -1 then _ else _); simpl in Ed;
          [|discriminate].
        injection Ed as <-. simpl PokerGame.pd_cards.
        split; [|split].
        -- destruct (_ || _); now rewrite length_map.
        -- intros [Hv|Hs].
           ++ rewrite <- Hv. simpl. now rewrite String.eqb_refl.
           ++ rewrite Hs. simpl. now rewrite orb_true_r.
        -- intros Hv Hs x Hx.
           assert (E1 : String.eqb viewer (Player.id p) = false).
           { destruct (String.eqb_spec viewer (Player.id p)); congruence. }
           simpl PokerGame.is_viewer in Hx.
           assert (E2 : PokerGame.is_showdown (PokerGame.game_state g) = false)
             by (destruct (PokerGame.game_state g); try reflexivity; congruence).
           rewrite E1, E2 in Hx. simpl in Hx.
           apply in_map_iff in Hx as (c & <- & _). reflexivity.
      * exact (IH i ds' eq_refl Hp).
Qed.

Lemma get_game_state_hides_cards_witness :
  PokerGame.get_game_state hand3_other_cards (Some "a"%string)
  = PokerGame.get_game_state hand3 (Some "a"%string).
Proof.
  apply (proj1 (proj2 (get_game_state_hides_cards hand3 "a"))).
  - discriminate.
  - repeat constructor; simpl; intros; discriminate.
  - reflexivity.
Defined.

(** ** The big blind's option, for every table *)










